(** * Redux core: createStore, combineReducers, bindActionCreators, isPlainObject

    A shallow embedding of the JavaScript sources

      - [src/utils/isPlainObject.js]
      - [src/combineReducers.js]
      - [src/createStore.js]
      - [src/bindActionCreators.js]

    JavaScript values are references into an explicit object heap, so that
    [===] on objects is comparison of addresses.  Functions of the host
    program (reducers, listeners, action creators) are opaque function
    references whose behaviour is supplied by section variables. *)

From Stdlib Require Import ZArith String List Lia Bool DecimalString.
From stdpp Require Import base option list gmap strings.
Import ListNotations.

Local Open Scope string_scope.

(* ===================================================================== *)
(** ** JavaScript values and the object heap *)
(* ===================================================================== *)

Module JS.

Definition loc := positive.

(** Function references.  [Native n] is a function of the host program
    (its body is not part of the library); [Bound l] is a closure created
    by [bindActionCreator], whose captured variables live in the world's
    closure table at [l]. *)
Inductive fnref :=
  | Native (n : nat)
  | Bound (l : loc).

Inductive value :=
  | VUndefined
  | VNull
  | VBool (b : bool)
  | VNum (z : Z)
  | VNaN
  | VStr (s : string)
  | VObj (l : loc)
  | VFun (f : fnref).

#[global] Instance fnref_eq_dec : EqDecision fnref.
Proof. solve_decision. Defined.

#[global] Instance value_eq_dec : EqDecision value.
Proof. solve_decision. Defined.

(** The [typeof] operator, restricted to the tags the sources test. *)
Inductive type_tag :=
  | TUndefined | TObject | TBoolean | TNumber | TString | TFunction.

#[global] Instance type_tag_eq_dec : EqDecision type_tag.
Proof. solve_decision. Defined.

Definition typeof (v : value) : type_tag :=
  match v with
  | VUndefined => TUndefined
  | VNull => TObject
  | VBool _ => TBoolean
  | VNum _ | VNaN => TNumber
  | VStr _ => TString
  | VObj _ => TObject
  | VFun _ => TFunction
  end.

(** Strict equality [===]: identity on references, value comparison on
    primitives, and [NaN] different from itself. *)
Definition strict_eq (a b : value) : bool :=
  match a, b with
  | VNaN, _ | _, VNaN => false
  | _, _ => bool_decide (a = b)
  end.

(** The double-quote character, and the empty string. *)
Definition dq : string :=
  String (Ascii.Ascii false true false false false true false false) EmptyString.

(** ToBoolean. *)
Definition truthy (v : value) : bool :=
  match v with
  | VUndefined | VNull | VNaN => false
  | VBool b => b
  | VNum z => negb (Z.eqb z 0)
  | VStr s => negb (String.eqb s EmptyString)
  | VObj _ | VFun _ => true
  end.

(** What a [[Prototype]] slot holds when it is not [null]: an ordinary
    object of the heap or a function.  An address is read as the ordinary
    object at that address.  A function is taken as the engine makes it:
    it inherits from [Function.prototype] and, through it, from
    [Object.prototype]; its own properties are not represented. *)
Inductive parent :=
  | Ordinary (l : positive)
  | Callable (f : fnref).

(** [Some l] stands for the link to the ordinary object at [l] wherever a
    prototype slot is expected. *)
Coercion Ordinary : positive >-> parent.
Arguments Some {A} & a.

#[global] Instance parent_eq_dec : EqDecision parent.
Proof. solve_decision. Defined.

(** An ordinary object: its [[Prototype]] slot ([None] is [null]) and its
    own enumerable string-keyed data properties, kept in the order
    [Object.keys] lists them.  Accessor properties of its own and symbols
    are outside the model, and so are the properties and the prototype of
    a function. *)
Record object := Object {
  proto : option parent;
  props : list (string * value)
}.

(** Values that can be thrown: the [Error] and [TypeError] objects the
    library and the engine build from a message, or any value thrown by
    host code. *)
Inductive exn :=
  | Error (msg : string)
  | TypeError (msg : string)
  | Raised (v : value).

Definition exn_truthy (e : exn) : bool :=
  match e with
  | Raised v => truthy v
  | _ => true
  end.

(** The mutable world outside the library's closures: the object heap, the
    captured variables of the closures made by [bindActionCreator], and
    the number of random probe types drawn so far, and the lines written to
    the console. *)
Record world := World {
  heap : gmap loc object;
  closures : gmap loc (value * value);
  draws : nat;
  console : list string
}.

Definition set_heap (f : gmap loc object -> gmap loc object) (w : world) : world :=
  World (f (heap w)) (closures w) (draws w) (console w).

(** Outcome of a call: normal completion, an abrupt one, or [Stuck] when
    the model has no JavaScript outcome to give (fuel exhausted, a
    reference that is not in the heap, or a step that the model does not
    follow). *)
Inductive res (A : Type) :=
  | Ok (a : A)
  | Throw (e : exn)
  | Stuck.
Arguments Ok {A} a.
Arguments Throw {A} e.
Arguments Stuck {A}.

(** Computations over a state [S]: the world alone, or the world together
    with the variables of a store closure. *)
Definition SM (S A : Type) : Type := S -> res A * S.

Abbreviation M := (SM world).

Definition ret {S A} (a : A) : SM S A := fun s => (Ok a, s).
Definition throw {S A} (e : exn) : SM S A := fun s => (Throw e, s).
Definition stuck {S A} : SM S A := fun s => (Stuck, s).
Definition bind {S A B} (m : SM S A) (k : A -> SM S B) : SM S B :=
  fun s =>
    match m s with
    | (Ok a, s') => k a s'
    | (Throw e, s') => (Throw e, s')
    | (Stuck, s') => (Stuck, s')
    end.

(** [try { m } catch (e) { handler e }]. *)
Definition try_catch {S A} (m : SM S A) (handler : exn -> SM S A) : SM S A :=
  fun s =>
    match m s with
    | (Throw e, s') => handler e s'
    | other => other
    end.

(** [try { m } finally { fin }], for a [fin] that completes normally. *)
Definition try_finally {S A} (m : SM S A) (fin : S -> S) : SM S A :=
  fun s => let '(r, s') := m s in (r, fin s').

Declare Scope js_scope.
Delimit Scope js_scope with js.
Notation "'let!' x ':=' m 'in' k" := (bind m (fun x => k))
  (at level 10, x name, m at level 100, k at level 200) : js_scope.
Notation "m ';;' k" := (bind m (fun _ => k))
  (at level 100, k at level 200, right associativity) : js_scope.

(** [Object.getPrototypeOf] on an object reference, as a value; [None]
    when the reference dangles. *)
Definition getPrototypeOf (h : gmap loc object) (l : loc) : option value :=
  o ← h !! l;
  Some (match proto o with
        | Some (Ordinary q) => VObj q
        | Some (Callable f) => VFun f
        | None => VNull
        end).

(** Own-property lookup in a property list (first binding wins). *)
Fixpoint assoc (k : string) (ps : list (string * value)) : option value :=
  match ps with
  | [] => None
  | (k', v) :: ps' => if String.eqb k k' then Some v else assoc k ps'
  end.

(** [Object.keys]. *)
Definition keys (ps : list (string * value)) : list string := map fst ps.

(** Assignment [o[k] = v] on a property list: overwrite in place or append
    a new key. *)
Fixpoint assign (k : string) (v : value) (ps : list (string * value))
  : list (string * value) :=
  match ps with
  | [] => [(k, v)]
  | (k', v') :: ps' =>
      if String.eqb k k' then (k, v) :: ps' else (k', v') :: assign k v ps'
  end.

(** [{}] and [{ k: v, ... }] object literals: a fresh object whose
    prototype is the realm's [Object.prototype]. *)
Definition alloc (o : object) : M loc :=
  fun w =>
    let l := fresh (dom (heap w)) in
    (Ok l, set_heap (insert l o) w).

(** [o[k] = v] on an object that has no setter for [k]: the write of an
    own data property. *)
Definition put (l : loc) (k : string) (v : value) : M unit :=
  fun w =>
    match heap w !! l with
    | Some o => (Ok tt, set_heap (insert l (Object (proto o) (assign k v (props o)))) w)
    | None => (Stuck, w)
    end.

(** The one key for which an ordinary object has a setter: an object
    that inherits from [Object.prototype] inherits the accessor
    [__proto__]. *)
Definition proto_key : string := "__proto__".

(** [o.__proto__ = v] once the assignment has reached the setter that
    [Object.prototype] provides: a primitive [v] is ignored, [null] and a
    function become the prototype of [o].  An object [v] becomes it as
    well, unless [o] is on the chain of [v], which the setter refuses
    with a [TypeError]; that chain is not followed here, so an object
    other than the current prototype is [Stuck]. *)
Definition set_prototype (l : loc) (o : object) (v : value) : M unit :=
  fun w =>
    match v with
    | VNull => (Ok tt, set_heap (insert l (Object None (props o))) w)
    | VFun f => (Ok tt, set_heap (insert l (Object (Some (Callable f)) (props o))) w)
    | VObj q =>
        if bool_decide (proto o = Some q) then (Ok tt, w) else (Stuck, w)
    | _ => (Ok tt, w)
    end.

(** [o[k] = v] in general, in the realm whose [Object.prototype] is at
    [ObjectPrototype].  An own property is overwritten.  Otherwise the
    property is looked for along the prototype chain.  An object without
    prototype finds nothing, and gets a new own property.  An object whose
    prototype is [Object.prototype] finds nothing that stands in the way
    of a new own property either, except under the key [__proto__]: there
    it finds the accessor of [Object.prototype], and the assignment runs
    its setter; no property is made.  So it is for an object whose
    prototype is a function, under the key [__proto__].  The remaining
    cases are not followed and are [Stuck]: the key [__proto__] on
    [Object.prototype] itself, an object further down a chain of
    ordinary objects, and a new key on an object under a function, which
    inherits the properties of that function, some of them read-only. *)
Definition set_property (ObjectPrototype : loc) (l : loc) (k : string)
    (v : value) : M unit :=
  fun w =>
    match heap w !! l with
    | None => (Stuck, w)
    | Some o =>
        if bool_decide (is_Some (assoc k (props o))) then put l k v w
        else if String.eqb k proto_key && bool_decide (l = ObjectPrototype)
        then (Stuck, w)
        else
          match proto o with
          | None => put l k v w
          | Some (Ordinary q) =>
              if bool_decide (q = ObjectPrototype)
              then
                if String.eqb k proto_key then set_prototype l o v w
                else put l k v w
              else (Stuck, w)
          | Some (Callable _) =>
              if String.eqb k proto_key then set_prototype l o v w
              else (Stuck, w)
          end
    end.

End JS.

(* ===================================================================== *)
(** ** src/utils/isPlainObject.js *)
(* ===================================================================== *)

Module PlainObject.
Import JS.

(** The [while] loop of [isPlainObject]: climb from [p] while its prototype
    is not [null]; returns the last object of the chain.  [fuel] bounds the
    number of iterations.  The climb cannot be followed through a function,
    whose own prototype is not in the model. *)
Fixpoint climb (fuel : nat) (h : gmap loc object) (p : loc) : option loc :=
  match getPrototypeOf h p with
  | Some (VObj q) =>
      match fuel with
      | O => None
      | S fuel' => climb fuel' h q
      end
  | Some (VFun _) => None
  | Some _ => Some p
  | None => None
  end.

(** [isPlainObject(obj)].  [None] only when the fuel is exhausted, the
    heap has a dangling prototype link, or the chain meets a function. *)
Definition isPlainObject (fuel : nat) (h : gmap loc object) (obj : value)
  : option bool :=
  if bool_decide (typeof obj <> TObject) || bool_decide (obj = VNull)
  then Some false
  else
    match obj with
    | VObj l =>
        top ← climb fuel h l;
        p ← getPrototypeOf h l;
        Some (strict_eq p (VObj top))
    | _ => Some false
    end.

(** [depth h l n]: the prototype chain that starts at [l] reaches [null]
    after [n] links. *)
Inductive depth (h : gmap loc object) : loc -> nat -> Prop :=
  | depth_root l o :
      h !! l = Some o -> proto o = None -> depth h l 0
  | depth_link l o (q : loc) n :
      h !! l = Some o -> proto o = Some q -> depth h q n -> depth h l (S n).

End PlainObject.

(* ===================================================================== *)
(** ** src/combineReducers.js *)
(* ===================================================================== *)

Module Combine.
Import JS.
Local Open Scope js_scope.

Section Combine.

(** [utils/actionTypes.js] is not among the sources; its three exports
    are parameters.  [PROBE_UNKNOWN_ACTION n] is the string the [n]-th
    call of [ActionTypes.PROBE_UNKNOWN_ACTION()] returns. *)
Variable INIT : string.
Variable REPLACE : string.
Variable PROBE_UNKNOWN_ACTION : nat -> string.

(** [process.env.NODE_ENV === 'production']. *)
Variable production : bool.

(** The realm: [Object.prototype], property reads [v[k]] (inherited
    properties included; a [TypeError] on [null] and [undefined]), the
    conversion [String(v)], the class name that
    [{}.toString.call(v).match(/\s([a-z|A-Z]+)/)[1]] extracts, and calls
    [f(args)] of host functions.  [String(v)] is a computation: for an
    object [v] it runs the conversion methods of [v], which are host code
    and may do anything, and it throws a [TypeError] when they give no
    primitive (as for an object without prototype). *)
Variable ObjectPrototype : loc.
Variable Get : gmap loc object -> value -> string -> res value.
Variable String_ : value -> M string.
Variable classOf : gmap loc object -> value -> string.
Variable call : fnref -> list value -> M value.
Variable fuel : nat.

Definition get (v : value) (k : string) : M value :=
  fun w => (Get (heap w) v k, w).

(** [f(args)] for an arbitrary value [f]. *)
Definition invoke (f : value) (args : list value) : M value :=
  match f with
  | VFun r => call r args
  | _ => throw (TypeError "is not a function")
  end.

(** [o[k]] for an own key of a closure-private object. *)
Definition own (o : list (string * value)) (k : string) : value :=
  default VUndefined (assoc k o).

(** Modelled from the spec: [utils/warning.js] is missing; a warning is
    advisory text output that never affects control flow. *)
Definition warning (message : string) : M unit :=
  fun w => (Ok tt, World (heap w) (closures w) (draws w) (console w ++ [message])%list).

(** [{ type: t }]. *)
Definition action_of (t : string) : M value :=
  let! a := alloc (Object (Some ObjectPrototype) [("type", VStr t)]) in
  ret (VObj a).

(** [ActionTypes.PROBE_UNKNOWN_ACTION()]. *)
Definition probe_type : M string :=
  fun w => (Ok (PROBE_UNKNOWN_ACTION (draws w)),
            World (heap w) (closures w) (S (draws w)) (console w)).

Definition getUndefinedStateErrorMessage (key : string) (action : value)
  : M string :=
  let! actionType :=
    (if truthy action then get action "type" else ret action) in
  let! actionDescription :=
    (if truthy actionType
     then let! text := String_ actionType in
          ret ("action " ++ dq ++ text ++ dq)
     else ret "an action") in
  ret ("Given " ++ actionDescription ++ ", reducer " ++ dq ++ key ++ dq
       ++ " returned undefined. "
       ++ "To ignore an action, you must explicitly return the previous state. "
       ++ "If you want this reducer to hold no value, you can return null instead of undefined.").

Definition initError (key : string) : exn :=
  Error ("Reducer " ++ dq ++ key ++ dq ++ " returned undefined during initialization. "
    ++ "If the state passed to the reducer is undefined, you must "
    ++ "explicitly return the initial state. The initial state may "
    ++ "not be undefined. If you don't want to set a value for this reducer, "
    ++ "you can use null instead of undefined.").

Definition probeError (key : string) : exn :=
  Error ("Reducer " ++ dq ++ key ++ dq ++ " returned undefined when probed with a random type. "
    ++ "Don't try to handle " ++ INIT ++ " or other actions in " ++ dq ++ "redux/*" ++ dq ++ " "
    ++ "namespace. They are considered private. Instead, you must return the "
    ++ "current state for any unknown actions, unless it is undefined, "
    ++ "in which case you must return the initial state, regardless of the "
    ++ "action type. The initial state may not be undefined, but can be null.").

(** The body of the [forEach] callback of [assertReducerShape]. *)
Definition assertOne (reducers : list (string * value)) (key : string)
  : M unit :=
  let reducer := own reducers key in
  let! a := action_of INIT in
  let! initialState := invoke reducer [VUndefined; a] in
  if bool_decide (typeof initialState = TUndefined)
  then throw (initError key)
  else
    let! t := probe_type in
    let! a' := action_of t in
    let! probed := invoke reducer [VUndefined; a'] in
    if bool_decide (typeof probed = TUndefined)
    then throw (probeError key)
    else ret tt.

Fixpoint forEach (f : string -> M unit) (ks : list string) : M unit :=
  match ks with
  | [] => ret tt
  | k :: ks' => f k ;; forEach f ks'
  end.

Definition assertReducerShape (reducers : list (string * value)) : M unit :=
  forEach (assertOne reducers) (keys reducers).

(** [isPlainObject(v)] as a step of a computation. *)
Definition isPlain (v : value) : M bool :=
  fun w =>
    match PlainObject.isPlainObject fuel (heap w) v with
    | Some b => (Ok b, w)
    | None => (Stuck, w)
    end.

(** [Object.keys(v)] for an object reference [v]. *)
Definition objectKeys (v : value) : M (list string) :=
  fun w =>
    match v with
    | VObj l =>
        match heap w !! l with
        | Some o => (Ok (keys (props o)), w)
        | None => (Stuck, w)
        end
    | _ => (Stuck, w)
    end.

(** [reducers.hasOwnProperty(key)] on the closure's [finalReducers]: the
    built-in, unless a reducer is registered under that very name, in
    which case the call reaches that reducer. *)
Definition hasOwnProperty (reducers : list (string * value)) (key : string)
  : M bool :=
  match assoc "hasOwnProperty" reducers with
  | Some f => let! r := invoke f [VStr key] in ret (truthy r)
  | None => ret (bool_decide (is_Some (assoc key reducers)))
  end.

(** [Array.prototype.filter] with an effectful predicate. *)
Fixpoint filterM (f : string -> M bool) (ks : list string) : M (list string) :=
  match ks with
  | [] => ret []
  | k :: ks' =>
      let! b := f k in
      let! rest := filterM f ks' in
      ret (if b then k :: rest else rest)
  end.

(** [ks.join('", "')]. *)
Definition join_keys (ks : list string) : string :=
  String.concat (dq ++ ", " ++ dq) ks.

(** [action && action.type === t]. *)
Definition has_type (action : value) (t : string) : M bool :=
  if truthy action
  then let! ty := get action "type" in ret (strict_eq ty (VStr t))
  else ret false.

Definition getUnexpectedStateShapeWarningMessage
    (inputState : value) (reducers : list (string * value))
    (action : value) (unexpectedKeyCache : value) : M (option string) :=
  let reducerKeys := keys reducers in
  let! isInit := has_type action INIT in
  let argumentName :=
    if isInit
    then "preloadedState argument passed to createStore"
    else "previous state received by the reducer" in
  if bool_decide (length reducerKeys = 0)
  then
    ret (Some ("Store does not have a valid reducer. Make sure the argument passed "
               ++ "to combineReducers is an object whose values are reducers."))
  else
    let! plain := isPlain inputState in
    if negb plain
    then fun w =>
      (Ok (Some ("The " ++ argumentName ++ " has unexpected type of " ++ dq
                 ++ classOf (heap w) inputState
                 ++ dq ++ ". Expected argument to be an object with the following "
                 ++ "keys: " ++ dq ++ join_keys reducerKeys ++ dq)), w)
    else
      let! stateKeys := objectKeys inputState in
      let! unexpectedKeys :=
        filterM (fun key =>
          let! has := hasOwnProperty reducers key in
          if negb has
          then let! seen := get unexpectedKeyCache key in ret (negb (truthy seen))
          else ret false) stateKeys in
      (* [unexpectedKeyCache[key] = true] is the write of an own property,
         also for the key [__proto__]: where the cache inherits the
         accessor of [Object.prototype], [unexpectedKeyCache.__proto__]
         reads its prototype, which is truthy, and the filter above does
         not let the key through; the key gets here only when the read
         met no accessor, and then the write meets none either *)
      forEach (fun key =>
        match unexpectedKeyCache with
        | VObj cache => put cache key (VBool true)
        | _ => stuck
        end) unexpectedKeys ;;
      let! isReplace := has_type action REPLACE in
      if isReplace then ret None
      else if bool_decide (0 < length unexpectedKeys)
      then
        ret (Some ("Unexpected "
                   ++ (if bool_decide (1 < length unexpectedKeys) then "keys" else "key")
                   ++ " " ++ dq ++ join_keys unexpectedKeys ++ dq
                   ++ " found in " ++ argumentName ++ ". "
                   ++ "Expected to find one of the known reducer keys instead: "
                   ++ dq ++ join_keys reducerKeys ++ dq
                   ++ ". Unexpected keys will be ignored."))
      else ret None.

(** The variables the closure [combination] captures. *)
Record combined := Combined {
  finalReducers : list (string * value);
  finalReducerKeys : list string;
  unexpectedKeyCache : value;
  shapeAssertionError : option exn
}.

(** The own entries of the object literal [finalReducers] after
    [finalReducers[key] = reducer], for a function [reducer] and a [key]
    that is new to it.  For the key [__proto__] the assignment runs the
    setter inherited from [Object.prototype]: the function becomes the
    prototype of [finalReducers] and no entry is made. *)
Definition set_entry (key : string) (reducer : value)
    (finalReducers : list (string * value)) : list (string * value) :=
  if String.eqb key proto_key then finalReducers
  else assign key reducer finalReducers.

(** The first [for] loop of [combineReducers]: copy the function-valued
    entries of [reducers] into [finalReducers].  [finalReducers] is
    private to the closure and is represented by its own entries, with a
    flag that tells whether a function has become its prototype.  Once
    one has, [finalReducers] inherits the properties of that function,
    some of them read-only, and the assignment of a new entry is not
    followed: [Stuck]. *)
Fixpoint collect (reducers : list (string * value)) (reducerKeys : list string)
    (finalReducers : list (string * value)) (under_function : bool)
  : M (list (string * value)) :=
  match reducerKeys with
  | [] => ret finalReducers
  | key :: rest =>
      (if negb production
       then
         if bool_decide (typeof (own reducers key) = TUndefined)
         then warning ("No reducer provided for key " ++ dq ++ key ++ dq)
         else ret tt
       else ret tt) ;;
      if bool_decide (typeof (own reducers key) = TFunction)
      then
        if under_function && negb (String.eqb key proto_key) then stuck
        else collect reducers rest
               (set_entry key (own reducers key) finalReducers)
               (under_function || String.eqb key proto_key)
      else collect reducers rest finalReducers under_function
  end.

(** [combineReducers(reducers)], for a [reducers] that is an object. *)
Definition combineReducers (reducers : loc) : M combined :=
  let! reducerKeys := objectKeys (VObj reducers) in
  fun w =>
    let ps := match heap w !! reducers with Some o => props o | None => [] end in
    (let! finalReducers := collect ps reducerKeys [] false in
     let finalReducerKeys := keys finalReducers in
     let! unexpectedKeyCache :=
       (if negb production
        then let! c := alloc (Object (Some ObjectPrototype) []) in ret (VObj c)
        else ret VUndefined) in
     let! shapeAssertionError :=
       try_catch (assertReducerShape finalReducers ;; ret None)
                 (fun e => ret (Some e)) in
     ret (Combined finalReducers finalReducerKeys unexpectedKeyCache
                   shapeAssertionError)) w.

(** The second [for] loop, inside [combination]. *)
Fixpoint reduce (c : combined) (ks : list string) (state action : value)
    (nextState : loc) (hasChanged : bool) : M bool :=
  match ks with
  | [] => ret hasChanged
  | key :: rest =>
      let reducer := own (finalReducers c) key in
      let! previousStateForKey := get state key in
      let! nextStateForKey := invoke reducer [previousStateForKey; action] in
      if bool_decide (typeof nextStateForKey = TUndefined)
      then
        let! errorMessage := getUndefinedStateErrorMessage key action in
        throw (Error errorMessage)
      else
        set_property ObjectPrototype nextState key nextStateForKey ;;
        reduce c rest state action nextState
          (hasChanged || negb (strict_eq nextStateForKey previousStateForKey))
  end.

(** [combination(state = {}, action)], the reducer [combineReducers]
    returns. *)
Definition combination (c : combined) (state0 action : value) : M value :=
  let! state :=
    (if bool_decide (state0 = VUndefined)
     then let! l := alloc (Object (Some ObjectPrototype) []) in ret (VObj l)
     else ret state0) in
  if match shapeAssertionError c with
     | Some e => exn_truthy e
     | None => false
     end
  then
    match shapeAssertionError c with
    | Some e => throw e
    | None => stuck
    end
  else
    (if negb production
     then
       let! warningMessage :=
         getUnexpectedStateShapeWarningMessage
           state (finalReducers c) action (unexpectedKeyCache c) in
       match warningMessage with
       | Some m => warning m
       | None => ret tt
       end
     else ret tt) ;;
    let! nextState := alloc (Object (Some ObjectPrototype) []) in
    let! hasChanged :=
      reduce c (finalReducerKeys c) state action nextState false in
    ret (if hasChanged then VObj nextState else state).

(** *** Notions used to state the properties of [combineReducers] *)

(** The entries [combineReducers] retains: the function-valued ones whose
    key is not [__proto__], in the order of [Object.keys]. *)
Fixpoint retain (reducers : list (string * value)) (reducerKeys : list string)
    (finalReducers : list (string * value)) : list (string * value) :=
  match reducerKeys with
  | [] => finalReducers
  | key :: rest =>
      retain reducers rest
        (if bool_decide (typeof (own reducers key) = TFunction)
         then set_entry key (own reducers key) finalReducers
         else finalReducers)
  end.

(** [finalReducers], as a function of the entries of [reducers]. *)
Definition retained (reducers : list (string * value)) : list (string * value) :=
  retain reducers (keys reducers) [].

(** A mapping that holds no function under an own key [__proto__]. *)
Definition no_proto_reducer (reducers : list (string * value)) : Prop :=
  typeof (own reducers proto_key) <> TFunction.

(** Two worlds that differ in their console only. *)
Definition same_but_console (w w' : world) : Prop :=
  heap w' = heap w /\ closures w' = closures w /\ draws w' = draws w.

(** In [w], [a] is an action [{ type: t }]. *)
Definition is_action (t : string) (w : world) (a : value) : Prop :=
  exists l, a = VObj l /\
    heap w !! l = Some (Object (Some ObjectPrototype) [("type", VStr t)]).

(** [f], called on [undefined] and an action [{ type: t }], returns a
    value that satisfies [P]. *)
Definition answers (f : value) (t : string) (P : value -> Prop) : Prop :=
  forall a w, is_action t w a ->
    exists v w', invoke f [VUndefined; a] w = (Ok v, w') /\ P v.

Definition defined (v : value) : Prop := v <> VUndefined.
Definition undefined (v : value) : Prop := v = VUndefined.

(** A reducer that keeps its part of the contract on both probes. *)
Definition well_behaved (f : value) : Prop :=
  answers f INIT defined /\
  forall n, answers f (PROBE_UNKNOWN_ACTION n) defined.

(** A reducer that returns [undefined] on one of the probes. *)
Definition offending (f : value) : Prop :=
  answers f INIT undefined \/
  (answers f INIT defined /\
   forall n, answers f (PROBE_UNKNOWN_ACTION n) undefined).

(** What [combination] does before it allocates [nextState]: the default
    for [state], the stored shape error, the diagnostics. *)
Definition prologue (c : combined) (state0 action : value) : M value :=
  let! state :=
    (if bool_decide (state0 = VUndefined)
     then let! l := alloc (Object (Some ObjectPrototype) []) in ret (VObj l)
     else ret state0) in
  if match shapeAssertionError c with
     | Some e => exn_truthy e
     | None => false
     end
  then
    match shapeAssertionError c with
    | Some e => throw e
    | None => stuck
    end
  else
    (if negb production
     then
       let! warningMessage :=
         getUnexpectedStateShapeWarningMessage
           state (finalReducers c) action (unexpectedKeyCache c) in
       match warningMessage with
       | Some m => warning m
       | None => ret tt
       end
     else ret tt) ;;
    ret state.

(** The loop of [combination], instrumented: the same calls in the same
    worlds, reporting for each key the previous slice and the reducer's
    output instead of the [hasChanged] flag. *)
Fixpoint slices (c : combined) (ks : list string) (state action : value)
    (nextState : loc) : M (list (string * value * value)) :=
  match ks with
  | [] => ret []
  | key :: rest =>
      let reducer := own (finalReducers c) key in
      let! previousStateForKey := get state key in
      let! nextStateForKey := invoke reducer [previousStateForKey; action] in
      if bool_decide (typeof nextStateForKey = TUndefined)
      then
        let! errorMessage := getUndefinedStateErrorMessage key action in
        throw (Error errorMessage)
      else
        set_property ObjectPrototype nextState key nextStateForKey ;;
        let! sl := slices c rest state action nextState in
        ret ((key, previousStateForKey, nextStateForKey) :: sl)
  end.

(** The output differs by reference from the previous slice. *)
Definition changed (slice : string * value * value) : bool :=
  negb (strict_eq (snd slice) (snd (fst slice))).

(** The address [nextState = {}] is allocated at in [wa]. *)
Definition nextState_of (wa : world) : loc := fresh (dom (heap wa)).

(** [wa] after that allocation. *)
Definition with_nextState (wa : world) : world :=
  set_heap (insert (nextState_of wa) (Object (Some ObjectPrototype) [])) wa.

(** [action && action.type]. *)
Definition type_of_action (h : gmap loc object) (action : value) : res value :=
  if truthy action then Get h action "type" else Ok action.

(** The message of [getUndefinedStateErrorMessage], given the description
    of the action. *)
Definition undefined_message (description key : string) : string :=
  "Given " ++ description ++ ", reducer " ++ dq ++ key ++ dq
  ++ " returned undefined. "
  ++ "To ignore an action, you must explicitly return the previous state. "
  ++ "If you want this reducer to hold no value, you can return null instead of undefined.".

(** No call of a host function touches the object at [l], once it is
    allocated.  (Nothing is asked of the worlds in which [l] is still
    free: there a host function that allocates may well take it.) *)
Definition untouched (l : loc) : Prop :=
  forall f args w,
    is_Some (heap w !! l) -> heap (snd (call f args w)) !! l = heap w !! l.

(** The properties the loop has assigned to [nextState] after the slices
    [sl], starting from [ps]. *)
Definition record_of (sl : list (string * value * value))
    (ps : list (string * value)) : list (string * value) :=
  fold_left (fun ps slice => assign (fst (fst slice)) (snd slice) ps) sl ps.

(** The function-valued entries of a property list whose key is not
    [__proto__], in their order. *)
Definition functions_of (reducers : list (string * value))
  : list (string * value) :=
  filter (fun entry => typeof (snd entry) = TFunction /\ fst entry <> proto_key)
         reducers.

(** The warnings [combineReducers] writes for the keys of [reducers] whose
    value is [undefined]: none in production, one per key otherwise. *)
Definition reducer_warnings (reducers : list (string * value))
    (reducerKeys : list string) : list string :=
  if production then []
  else
    map (fun key => "No reducer provided for key " ++ dq ++ key ++ dq)
        (filter (fun key => typeof (own reducers key) = TUndefined)
                reducerKeys).

Definition missing_reducer_warnings (reducers : list (string * value))
  : list string :=
  reducer_warnings reducers (keys reducers).

(** A computation that leaves the object at [l] as it is. *)
Definition keeps {A} (l : loc) (m : M A) : Prop :=
  forall w r w', is_Some (heap w !! l) -> m w = (r, w') ->
    heap w' !! l = heap w !! l.

(** The diagnostic for a mapping without reducers. *)
Definition no_valid_reducer_warning : string :=
  "Store does not have a valid reducer. Make sure the argument passed "
  ++ "to combineReducers is an object whose values are reducers.".

(** What the diagnostics of a combined reducer without reducers write. *)
Definition no_valid_reducer_warnings : list string :=
  if production then [] else [no_valid_reducer_warning].

(** The keys of the state that [getUnexpectedStateShapeWarningMessage]
    finds unexpected: those that are no key of [reducers] and for which
    the cache reads as falsy; [seen key] is what [unexpectedKeyCache[key]]
    reads. *)
Definition unexpected_keys (reducers : list (string * value))
    (seen : string -> value) (stateKeys : list string) : list string :=
  List.filter
    (fun key => negb (bool_decide (is_Some (assoc key reducers)))
                && negb (truthy (seen key)))
    stateKeys.

(** The properties of the cache after [unexpectedKeyCache[key] = true] for
    each of [ks]. *)
Definition cached (ks : list string) (ps : list (string * value))
  : list (string * value) :=
  fold_left (fun ps key => assign key (VBool true) ps) ks ps.

(** The message about unexpected keys. *)
Definition unexpected_keys_message (unexpectedKeys reducerKeys : list string)
    (isInit : bool) : string :=
  "Unexpected "
  ++ (if bool_decide (1 < length unexpectedKeys) then "keys" else "key")
  ++ " " ++ dq ++ join_keys unexpectedKeys ++ dq
  ++ " found in "
  ++ (if isInit
      then "preloadedState argument passed to createStore"
      else "previous state received by the reducer")
  ++ ". "
  ++ "Expected to find one of the known reducer keys instead: "
  ++ dq ++ join_keys reducerKeys ++ dq
  ++ ". Unexpected keys will be ignored.".

(** [f], called on [undefined] and an action [{ type: t }], throws
    [e]. *)
Definition throws (f : value) (t : string) (e : exn) : Prop :=
  forall a w, is_action t w a ->
    exists w', invoke f [VUndefined; a] w = (Throw e, w').

(** The closure [c] with its stored shape error cleared. *)
Definition without_shape_error (c : combined) : combined :=
  Combined (finalReducers c) (finalReducerKeys c) (unexpectedKeyCache c) None.

(** A computation that writes nothing to the console. *)
Definition silent {A} (m : M A) : Prop :=
  forall w r w', m w = (r, w') -> console w' = console w.

End Combine.
End Combine.

(* ===================================================================== *)
(** ** src/createStore.js *)
(* ===================================================================== *)

Module Store.
Import JS.
Local Open Scope js_scope.

(** The variables of one [createStore] closure.  The two listener lists
    are references into [arrays], the arrays this closure has allocated, so
    that [nextListeners === currentListeners] is comparison of references
    and [push]/[splice] are seen through every alias.  [unsubscribers]
    holds, for every closure [subscribe] has returned, its captured
    [listener] and its [isSubscribed] flag. *)
Record store := Store_ {
  currentReducer : value;
  currentState : value;
  currentListeners : nat;
  nextListeners : nat;
  isDispatching : bool;
  arrays : list (list value);
  unsubscribers : list (value * bool)
}.

Record sys := Sys {
  the_world : world;
  the_store : store
}.

(** What a host function (a reducer or a listener) does: world-only
    computation interleaved with calls to the store's API, whose outcome
    (a result or a caught exception) it may inspect. *)
Inductive prog :=
  | Return (v : value)
  | Raise (e : exn)
  | Eff (m : M value) (k : res value -> prog)
  | GetState (k : res value -> prog)
  | Subscribe (listener : value) (k : res nat -> prog)
  | Unsubscribe (u : nat) (k : res unit -> prog)
  | Dispatch (action : value) (k : res value -> prog)
  | ReplaceReducer (nextReducer : value) (k : res unit -> prog).

Definition with_world (f : world -> world) (s : sys) : sys :=
  Sys (f (the_world s)) (the_store s).

Definition with_store (f : store -> store) (s : sys) : sys :=
  Sys (the_world s) (f (the_store s)).

Definition set_currentReducer (v : value) (t : store) : store :=
  Store_ v (currentState t) (currentListeners t) (nextListeners t)
         (isDispatching t) (arrays t) (unsubscribers t).
Definition set_currentState (v : value) (t : store) : store :=
  Store_ (currentReducer t) v (currentListeners t) (nextListeners t)
         (isDispatching t) (arrays t) (unsubscribers t).
Definition set_currentListeners (a : nat) (t : store) : store :=
  Store_ (currentReducer t) (currentState t) a (nextListeners t)
         (isDispatching t) (arrays t) (unsubscribers t).
Definition set_nextListeners (a : nat) (t : store) : store :=
  Store_ (currentReducer t) (currentState t) (currentListeners t) a
         (isDispatching t) (arrays t) (unsubscribers t).
Definition set_isDispatching (b : bool) (t : store) : store :=
  Store_ (currentReducer t) (currentState t) (currentListeners t)
         (nextListeners t) b (arrays t) (unsubscribers t).
Definition set_arrays (a : list (list value)) (t : store) : store :=
  Store_ (currentReducer t) (currentState t) (currentListeners t)
         (nextListeners t) (isDispatching t) a (unsubscribers t).
Definition set_unsubscribers (u : list (value * bool)) (t : store) : store :=
  Store_ (currentReducer t) (currentState t) (currentListeners t)
         (nextListeners t) (isDispatching t) (arrays t) u.

(** Run a world-only computation in the larger state. *)
Definition in_world {A} (m : M A) : SM sys A :=
  fun s => let '(r, w') := m (the_world s) in (r, Sys w' (the_store s)).

(** Hand the outcome of [m] (a result or an exception) to [k]. *)
Definition observe {A B} (m : SM sys A) (k : res A -> SM sys B) : SM sys B :=
  fun s =>
    match m s with
    | (Stuck, s') => (Stuck, s')
    | (r, s') => k r s'
    end.

(** The contents of the array behind a reference. *)
Definition contents (t : store) (a : nat) : list value :=
  default [] (arrays t !! a).

(** [a.indexOf(x)]: the first index whose element is [=== x], if any. *)
Fixpoint indexOf (x : value) (a : list value) : option nat :=
  match a with
  | [] => None
  | y :: a' => if strict_eq y x then Some 0 else S <$> indexOf x a'
  end.

(** [a.splice(index, 1)], where [index] is what [indexOf] returned: one
    element is removed at [index], and [-1] counts from the end, so that
    the last element is removed. *)
Definition splice1 (index : option nat) (a : list value) : list value :=
  match index with
  | Some i => delete i a
  | None => delete (length a - 1) a
  end.

(** The errors the store throws. *)
Definition getState_while_dispatching : exn :=
  Error ("You may not call store.getState() while the reducer is executing. "
         ++ "The reducer has already received the state as an argument. "
         ++ "Pass it down from the top reducer instead of reading it from the store.").

Definition listener_not_function : exn :=
  Error "Expected the listener to be a function.".

Definition subscribe_while_dispatching : exn :=
  Error ("You may not call store.subscribe() while the reducer is executing. "
         ++ "If you would like to be notified after the store has been updated, subscribe from a "
         ++ "component and invoke store.getState() in the callback to access the latest state. "
         ++ "See https://redux.js.org/api-reference/store#subscribe(listener) for more details.").

Definition unsubscribe_while_dispatching : exn :=
  Error ("You may not unsubscribe from a store listener while the reducer is executing. "
         ++ "See https://redux.js.org/api-reference/store#subscribe(listener) for more details.").

Definition action_not_plain : exn :=
  Error ("Actions must be plain objects. "
         ++ "Use custom middleware for async actions.").

Definition action_type_undefined : exn :=
  Error ("Actions may not have an undefined " ++ dq ++ "type" ++ dq
         ++ " property. Have you misspelled a constant?").

Definition dispatch_while_dispatching : exn :=
  Error "Reducers may not dispatch actions.".

Definition ensureCanMutateNextListeners (t : store) : store :=
  if bool_decide (nextListeners t = currentListeners t)
  then
    set_nextListeners (length (arrays t))
      (set_arrays (arrays t ++ [contents t (currentListeners t)])%list t)
  else t.

Definition getState : SM sys value :=
  fun s =>
    if isDispatching (the_store s)
    then (Throw getState_while_dispatching, s)
    else (Ok (currentState (the_store s)), s).

(** [subscribe(listener)]; the result is the index of the new
    [unsubscribe] closure in [unsubscribers]. *)
Definition subscribe (listener : value) : SM sys nat :=
  fun s =>
    if bool_decide (typeof listener <> TFunction)
    then (Throw listener_not_function, s)
    else if isDispatching (the_store s)
    then (Throw subscribe_while_dispatching, s)
    else
      let t := ensureCanMutateNextListeners (the_store s) in
      let t := set_arrays
                 (<[nextListeners t := (contents t (nextListeners t) ++ [listener])%list]>
                    (arrays t)) t in
      (Ok (length (unsubscribers t)),
       Sys (the_world s) (set_unsubscribers (unsubscribers t ++ [(listener, true)])%list t)).

(** A call of the [unsubscribe] closure number [u]. *)
Definition unsubscribe (u : nat) : SM sys unit :=
  fun s =>
    match unsubscribers (the_store s) !! u with
    | None => (Stuck, s)
    | Some (listener, isSubscribed) =>
        if negb isSubscribed then (Ok tt, s)
        else if isDispatching (the_store s)
        then (Throw unsubscribe_while_dispatching, s)
        else
          let t := set_unsubscribers
                     (<[u := (listener, false)]> (unsubscribers (the_store s)))
                     (the_store s) in
          let t := ensureCanMutateNextListeners t in
          let index := indexOf listener (contents t (nextListeners t)) in
          let t := set_arrays
                     (<[nextListeners t := splice1 index (contents t (nextListeners t))]>
                        (arrays t)) t in
          (Ok tt, Sys (the_world s) t)
    end.

Section Store.

(** [utils/actionTypes.js] is not among the sources; its exports are
    parameters. *)
Variable INIT : string.
Variable REPLACE : string.

(** The realm, as for [combineReducers], and the bodies of the host
    functions. *)
Variable ObjectPrototype : loc.
Variable Get : gmap loc object -> value -> string -> res value.
Variable body : fnref -> list value -> prog.

(** [enhancer(createStore)(reducer, preloadedState)]: two calls of host
    code, the first of them on the library's own [createStore].  What
    they do to the world and what they return or throw is the host's
    affair; [enhance enhancer reducer preloadedState] stands for it. *)
Variable enhance : value -> value -> value -> M value.

Definition isPlain (fuel : nat) (v : value) : SM sys bool :=
  fun s =>
    match PlainObject.isPlainObject fuel (heap (the_world s)) v with
    | Some b => (Ok b, s)
    | None => (Stuck, s)
    end.

Definition get (v : value) (k : string) : SM sys value :=
  fun s => (Get (heap (the_world s)) v k, s).

(** The listener loop of [dispatch]:
    [for (let i = 0; i < listeners.length; i++) listeners[i]()].  The
    array is read through its reference at every iteration. *)
Fixpoint notify (gas : nat) (run : value -> list value -> SM sys value)
    (listeners : nat) (i : nat) : SM sys unit :=
  fun s =>
    if bool_decide (i < length (contents (the_store s) listeners))
    then
      match gas with
      | O => (Stuck, s)
      | S gas' =>
          let listener := default VUndefined (contents (the_store s) listeners !! i) in
          (run listener [] ;; notify gas' run listeners (S i)) s
      end
    else (Ok tt, s).

(** [dispatch(action)], given how to call a host function. *)
Definition dispatch_with (gas : nat) (run : value -> list value -> SM sys value)
    (action : value) : SM sys value :=
  let! plain := isPlain gas action in
  if negb plain
  then throw action_not_plain
  else
    let! type := get action "type" in
    if bool_decide (typeof type = TUndefined)
    then throw action_type_undefined
    else fun s =>
      if isDispatching (the_store s)
      then (Throw dispatch_while_dispatching, s)
      else
        (try_finally
           (fun s =>
              let s := with_store (set_isDispatching true) s in
              (let! next := run (currentReducer (the_store s))
                                [currentState (the_store s); action] in
               fun s => (Ok tt, with_store (set_currentState next) s)) s)
           (with_store (set_isDispatching false)) ;;
         fun s =>
           let s := with_store
                      (set_currentListeners (nextListeners (the_store s))) s in
           let listeners := currentListeners (the_store s) in
           (notify gas run listeners 0 ;; ret action) s) s.

Definition replaceReducer_with (dispatch : value -> SM sys value)
    (nextReducer : value) : SM sys unit :=
  if bool_decide (typeof nextReducer <> TFunction)
  then throw (Error "Expected the nextReducer to be a function.")
  else fun s =>
    let s := with_store (set_currentReducer nextReducer) s in
    (let! a := in_world (alloc (Object (Some ObjectPrototype)
                                       [("type", VStr REPLACE)])) in
     dispatch (VObj a) ;; ret tt) s.

(** Running the body of a host function against the store. *)
Fixpoint exec (dispatch : value -> SM sys value) (p : prog) : SM sys value :=
  match p with
  | Return v => ret v
  | Raise e => throw e
  | Eff m k => observe (in_world m) (fun r => exec dispatch (k r))
  | GetState k => observe getState (fun r => exec dispatch (k r))
  | Subscribe listener k =>
      observe (subscribe listener) (fun r => exec dispatch (k r))
  | Unsubscribe u k => observe (unsubscribe u) (fun r => exec dispatch (k r))
  | Dispatch action k => observe (dispatch action) (fun r => exec dispatch (k r))
  | ReplaceReducer nextReducer k =>
      observe (replaceReducer_with dispatch nextReducer)
              (fun r => exec dispatch (k r))
  end.

(** [f(args)] for a value [f], with host calls nested at most [fuel]
    deep. *)
Definition run_with (dispatch : value -> SM sys value)
    (f : value) (args : list value) : SM sys value :=
  match f with
  | VFun r => exec dispatch (body r args)
  | _ => throw (TypeError "is not a function")
  end.

Fixpoint dispatch (fuel : nat) (action : value) {struct fuel} : SM sys value :=
  match fuel with
  | O => stuck
  | S fuel' => dispatch_with fuel' (run_with (dispatch fuel')) action
  end.

Definition replaceReducer (fuel : nat) (nextReducer : value) : SM sys unit :=
  replaceReducer_with (dispatch fuel) nextReducer.

(** What [createStore] returns: a new store, or whatever
    [enhancer(createStore)(reducer, preloadedState)] returns. *)
Inductive creation :=
  | Created (t : store)
  | Enhanced (result : value).

Definition createStore (fuel : nat) (reducer preloadedState enhancer : value)
  : M creation :=
  let '(preloadedState, enhancer) :=
    if bool_decide (typeof preloadedState = TFunction)
       && bool_decide (typeof enhancer = TUndefined)
    then (VUndefined, preloadedState)
    else (preloadedState, enhancer) in
  if bool_decide (typeof enhancer <> TUndefined)
  then
    if bool_decide (typeof enhancer <> TFunction)
    then throw (Error "Expected the enhancer to be a function.")
    else let! result := enhance enhancer reducer preloadedState in
         ret (Enhanced result)
  else if bool_decide (typeof reducer <> TFunction)
  then throw (Error "Expected the reducer to be a function.")
  else fun w =>
    let t := Store_ reducer preloadedState 0 0 false [[]] [] in
    let '(r, s) :=
      (let! a := in_world (alloc (Object (Some ObjectPrototype)
                                         [("type", VStr INIT)])) in
       dispatch fuel (VObj a)) (Sys w t) in
    match r with
    | Ok _ => (Ok (Created (the_store s)), the_world s)
    | Throw e => (Throw e, the_world s)
    | Stuck => (Stuck, the_world s)
    end.

(** *** Notions used to state the properties of the store *)

(** The pending listener list. *)
Definition pending (s : sys) : list value :=
  contents (the_store s) (nextListeners (the_store s)).

(** Both listener references point into [arrays]. *)
Definition wf (t : store) : Prop :=
  nextListeners t < length (arrays t) /\ currentListeners t < length (arrays t).

(** An array no operation may write to: any array but [nextListeners], and
    [nextListeners] itself as long as [currentListeners] is an alias of
    it. *)
Definition frozen (t : store) (a : nat) : Prop :=
  a < length (arrays t) /\
  (a <> nextListeners t \/ nextListeners t = currentListeners t).

(** From [t] to [t'], frozen arrays stay frozen and keep their contents. *)
Definition extends (t t' : store) : Prop :=
  wf t' /\
  forall a, frozen t a -> frozen t' a /\ arrays t' !! a = arrays t !! a.

(** A computation that respects the frozen arrays. *)
Definition stable {A} (m : SM sys A) : Prop :=
  forall s r s', wf (the_store s) -> m s = (r, s') ->
    extends (the_store s) (the_store s').

(** The first phase of [dispatch] after validation: the reducer call
    between the two writes of [isDispatching]. *)
Definition reducing (run : value -> list value -> SM sys value)
    (action : value) : SM sys unit :=
  try_finally
    (fun s =>
       let s := with_store (set_isDispatching true) s in
       (let! next := run (currentReducer (the_store s))
                         [currentState (the_store s); action] in
        fun s => (Ok tt, with_store (set_currentState next) s)) s)
    (with_store (set_isDispatching false)).

(** The second phase: the snapshot, followed by the listener loop. *)
Definition notifying (gas : nat) (run : value -> list value -> SM sys value)
    (action : value) : SM sys value :=
  fun s =>
    let s := with_store (set_currentListeners (nextListeners (the_store s))) s in
    let listeners := currentListeners (the_store s) in
    (notify gas run listeners 0 ;; ret action) s.

(** From [t] to [t'] nothing but [currentReducer] has changed. *)
Definition quiet (t t' : store) : Prop :=
  t' = set_currentReducer (currentReducer t') t.

(** A computation that, started while [isDispatching] is set, changes
    nothing of the store but [currentReducer]. *)
Definition hushed {A} (m : SM sys A) : Prop :=
  forall s r s', isDispatching (the_store s) = true -> m s = (r, s') ->
    quiet (the_store s) (the_store s').

(** Calling each listener of a list once, in the order of the list, until
    one of them throws. *)
Fixpoint call_each (run : value -> list value -> SM sys value)
    (listeners : list value) : SM sys unit :=
  match listeners with
  | [] => ret tt
  | listener :: rest => run listener [] ;; call_each run rest
  end.

(** The second phase with the loop over the array replaced by calls of a
    fixed list of listeners. *)
Definition notifying_over (listeners : list value)
    (run : value -> list value -> SM sys value) (action : value)
  : SM sys value :=
  fun s =>
    let s := with_store (set_currentListeners (nextListeners (the_store s))) s in
    (call_each run listeners ;; ret action) s.

(** The listeners of the subscriptions that have not been withdrawn, in
    the order in which they were made. *)
Fixpoint live_of (us : list (value * bool)) : list value :=
  match us with
  | [] => []
  | (listener, isSubscribed) :: rest =>
      if isSubscribed then listener :: live_of rest else live_of rest
  end.

Definition live (s : sys) : list value := live_of (unsubscribers (the_store s)).

(** [dispatch] with its loop replaced by calls of a fixed list of
    listeners. *)
Definition dispatch_over (listeners : list value) (gas : nat)
    (run : value -> list value -> SM sys value) (action : value)
  : SM sys value :=
  let! plain := isPlain gas action in
  if negb plain then throw action_not_plain
  else
    let! type := get action "type" in
    if bool_decide (typeof type = TUndefined)
    then throw action_type_undefined
    else fun s =>
      if isDispatching (the_store s)
      then (Throw dispatch_while_dispatching, s)
      else (reducing run action ;; notifying_over listeners run action) s.

(** The realm reads own data properties as they are. *)
Definition reads_own_properties : Prop :=
  forall (h : gmap loc object) l o k v,
    h !! l = Some o -> assoc k (props o) = Some v -> Get h (VObj l) k = Ok v.

(** A computation that takes a store satisfying [Pre] to a store related to
    it by [R]. *)
Definition respects {A} (Pre : store -> Prop) (R : store -> store -> Prop)
    (m : SM sys A) : Prop :=
  forall s r s', Pre (the_store s) -> m s = (r, s') ->
    R (the_store s) (the_store s').

(** The subscription number [u] has been withdrawn. *)
Definition withdrawn (u : nat) (t : store) : Prop :=
  exists listener, unsubscribers t !! u = Some (listener, false).

(** The pending list holds the listeners of the live subscriptions, each as
    many times as it has live subscriptions; only functions have been
    subscribed. *)
Definition tallied (t : store) : Prop :=
  wf t /\
  Forall (fun entry => typeof (fst entry) = TFunction) (unsubscribers t) /\
  contents t (nextListeners t) ≡ₚ live_of (unsubscribers t).

End Store.
End Store.

(* ===================================================================== *)
(** ** src/bindActionCreators.js *)
(* ===================================================================== *)

Module Bind.
Import JS.
Local Open Scope js_scope.

(** The names [typeof] yields. *)
Definition type_name (t : type_tag) : string :=
  match t with
  | TUndefined => "undefined"
  | TObject => "object"
  | TBoolean => "boolean"
  | TNumber => "number"
  | TString => "string"
  | TFunction => "function"
  end.

(** [bindActionCreator(actionCreator, dispatch)]: a new function object
    whose closure captures the two arguments. *)
Definition bindActionCreator (actionCreator dispatch : value) : M value :=
  fun w =>
    let l := fresh (dom (closures w)) in
    (Ok (VFun (Bound l)),
     World (heap w) (<[l := (actionCreator, dispatch)]> (closures w))
           (draws w) (console w)).

Section Bind.

Variable ObjectPrototype : loc.

(** Calls [f.apply(this, args)] of the host's own functions. *)
Variable native : nat -> value -> list value -> M value.

(** [f.apply(this, args)] for any value [f].  For a closure made by
    [bindActionCreator] this runs its body
    [return dispatch(actionCreator.apply(this, arguments))];
    [fuel] bounds the nesting of such closures. *)
Fixpoint apply (fuel : nat) (f : value) (this : value) (args : list value)
  : M value :=
  match f with
  | VFun (Native n) => native n this args
  | VFun (Bound l) => fun w =>
      match closures w !! l with
      | Some (actionCreator, dispatch) =>
          match fuel with
          | O => (Stuck, w)
          | S fuel' =>
              (let! action := apply fuel' actionCreator this args in
               apply fuel' dispatch VUndefined [action]) w
          end
      | None => (Stuck, w)
      end
  | _ => throw (TypeError "is not a function")
  end.

(** [actionCreators[key]] for an own key of an object. *)
Definition own_get (l : loc) (key : string) : M value :=
  fun w =>
    match heap w !! l with
    | Some o => (Ok (default VUndefined (assoc key (props o))), w)
    | None => (Stuck, w)
    end.

(** The [for] loop of [bindActionCreators]. *)
Fixpoint bind_each (actionCreators : loc) (dispatch : value)
    (ks : list string) (boundActionCreators : loc) : M unit :=
  match ks with
  | [] => ret tt
  | key :: rest =>
      let! actionCreator := own_get actionCreators key in
      (if bool_decide (typeof actionCreator = TFunction)
       then
         let! b := bindActionCreator actionCreator dispatch in
         set_property ObjectPrototype boundActionCreators key b
       else ret tt) ;;
      bind_each actionCreators dispatch rest boundActionCreators
  end.

Definition bindActionCreators (actionCreators dispatch : value) : M value :=
  if bool_decide (typeof actionCreators = TFunction)
  then bindActionCreator actionCreators dispatch
  else if bool_decide (typeof actionCreators <> TObject)
          || bool_decide (actionCreators = VNull)
  then
    throw (Error ("bindActionCreators expected an object or a function, instead received "
                  ++ (if bool_decide (actionCreators = VNull) then "null"
                      else type_name (typeof actionCreators))
                  ++ ". "
                  ++ "Did you write " ++ dq ++ "import ActionCreators from" ++ dq
                  ++ " instead of " ++ dq ++ "import * as ActionCreators from" ++ dq ++ "?"))
  else
    match actionCreators with
    | VObj l =>
        let! o := (fun w => match heap w !! l with
                            | Some o => (Ok o, w)
                            | None => (Stuck, w)
                            end) in
        let ks := keys (props o) in
        let! boundActionCreators := alloc (Object (Some ObjectPrototype) []) in
        bind_each l dispatch ks boundActionCreators ;;
        ret (VObj boundActionCreators)
    | _ => stuck
    end.

(** *** Notions used to state the properties of [bindActionCreators] *)

(** [o[k]] for an own key. *)
Definition entry (o : object) (k : string) : value :=
  default VUndefined (assoc k (props o)).

(** [typeof o[k] === 'function']. *)
Definition callable_at (o : object) (k : string) : bool :=
  bool_decide (typeof (entry o k) = TFunction).

(** In [w], [c] is a closure of [bindActionCreator] over [actionCreator]
    and [dispatch]: applied to [this] and [args] it applies
    [actionCreator] to them, applies [dispatch] to the result, and returns
    what [dispatch] returns. *)
Definition wraps (w : world) (c : loc) (actionCreator dispatch : value) : Prop :=
  closures w !! c = Some (actionCreator, dispatch) /\
  forall fuel this args w1,
    closures w1 !! c = Some (actionCreator, dispatch) ->
    apply (S fuel) (VFun (Bound c)) this args w1
    = (let! action := apply fuel actionCreator this args in
       apply fuel dispatch VUndefined [action]) w1.

(** From [w] to [w'] no object but the one at [b] has changed, no closure
    has been altered or dropped, and nothing has been drawn or written to
    the console. *)
Definition apart_from (b : loc) (w w' : world) : Prop :=
  (forall l, l <> b -> heap w' !! l = heap w !! l) /\
  (forall c v, closures w !! c = Some v -> closures w' !! c = Some v) /\
  draws w' = draws w /\
  console w' = console w.

End Bind.
End Bind.

(* ===================================================================== *)
(** * Concrete instances *)
(* ===================================================================== *)

(** ** A concrete realm and host program

    One realm in which the hypotheses of the theorems are met: property
    reads find own data properties, [Object.prototype] (at address 1) has
    none, and the host program has a counter reducer, a reducer that
    forgets to return, and a reducer that forgets to return on [BAD]. *)

Module Sample.
Import JS.

Definition INIT : string := "@@redux/INIT".
Definition REPLACE : string := "@@redux/REPLACE".
Definition PROBE_UNKNOWN_ACTION (n : nat) : string :=
  "@@redux/PROBE_UNKNOWN_ACTION" ++ String (Ascii.ascii_of_nat (97 + n)) EmptyString.

Definition ObjectPrototype : loc := 1%positive.

Definition Get (h : gmap loc object) (v : value) (k : string) : res value :=
  match v with
  | VUndefined | VNull => Throw (TypeError "Cannot read properties of undefined or null")
  | VObj l =>
      match h !! l with
      | Some o => Ok (default VUndefined (assoc k (props o)))
      | None => Stuck
      end
  | _ => Ok VUndefined
  end.

(** [String(v)] in a realm where no object has conversion methods of its
    own: an object under [Object.prototype] inherits [toString] and gives
    "[object Object]"; for an object without prototype there is no method
    to call and the conversion throws, and so does the [toString] of
    functions that an object under a function inherits. *)
Definition String_ (v : value) : M string :=
  fun w =>
    match v with
    | VUndefined => (Ok "undefined", w)
    | VNull => (Ok "null", w)
    | VBool b => (Ok (if b then "true" else "false"), w)
    | VNum z => (Ok (NilZero.string_of_int (Z.to_int z)), w)
    | VNaN => (Ok "NaN", w)
    | VStr s => (Ok s, w)
    | VFun _ => (Ok "function () { [native code] }", w)
    | VObj l =>
        match heap w !! l with
        | Some o =>
            match proto o with
            | Some (Ordinary _) => (Ok "[object Object]", w)
            | Some (Callable _) =>
                (Throw (TypeError "Function.prototype.toString requires that 'this' be a Function"), w)
            | None =>
                (Throw (TypeError "Cannot convert object to primitive value"), w)
            end
        | None => (Stuck, w)
        end
    end.

Definition classOf (h : gmap loc object) (v : value) : string := "Object".

(** [a.type], for the sample reducers. *)
Definition type_of (w : world) (action : value) : value :=
  match Get (heap w) action "type" with
  | Ok t => t
  | _ => VUndefined
  end.

(** [Native 0] is [(s = 0, a) => a.type === 'INC' ? s + 1 : s];
    [Native 1] is [(s) => undefined];
    [Native 2] is [(s = 0, a) => { if (a.type !== 'BAD') return s }]. *)
Definition call (f : fnref) (args : list value) : M value :=
  fun w =>
    let s := match nth 0 args VUndefined with
             | VUndefined => VNum 0
             | v => v
             end in
    let a := nth 1 args VUndefined in
    match f with
    | Native 0 =>
        if strict_eq (type_of w a) (VStr "INC")
        then (Ok (match s with VNum z => VNum (z + 1) | _ => VNaN end), w)
        else (Ok s, w)
    | Native 1 => (Ok VUndefined, w)
    | Native 2 =>
        if strict_eq (type_of w a) (VStr "BAD")
        then (Ok VUndefined, w)
        else (Ok s, w)
    | _ => (Throw (TypeError "is not a function"), w)
    end.

(** A world with [Object.prototype] at 1, the mapping
    [{ a: counter, b: forgetful }] at 2, the mapping
    [{ a: counter, c: picky }] at 3, the state [{ a: 5, c: 7 }] at 4 and
    the actions [{ type: 'NOP' }], [{ type: 'INC' }], [{ type: 'BAD' }]
    and [{ type: 0 }] at 5, 6, 7 and 8. *)
Definition world0 : world :=
  World
    (<[1%positive := Object None []]>
    (<[2%positive := Object (Some 1%positive)
                       [("a", VFun (Native 0)); ("b", VFun (Native 1))]]>
    (<[3%positive := Object (Some 1%positive)
                       [("a", VFun (Native 0)); ("c", VFun (Native 2))]]>
    (<[4%positive := Object (Some 1%positive)
                       [("a", VNum 5); ("c", VNum 7)]]>
    (<[5%positive := Object (Some 1%positive) [("type", VStr "NOP")]]>
    (<[6%positive := Object (Some 1%positive) [("type", VStr "INC")]]>
    (<[7%positive := Object (Some 1%positive) [("type", VStr "BAD")]]>
    (<[8%positive := Object (Some 1%positive) [("type", VNum 0)]]>
     ∅))))))))
    ∅ 0 [].

(** An explicit heap: [Object.prototype] at 1, [Array.prototype] at 2, the
    literal [{}] at 3, the array [[]] at 4, [Object.create(null)] at 5 and
    an instance of a class (whose prototype object is at 6) at 7. *)
Definition sample_heap : gmap loc object :=
  <[1%positive := Object None []]>
  (<[2%positive := Object (Some 1%positive) []]>
  (<[3%positive := Object (Some 1%positive) []]>
  (<[4%positive := Object (Some 2%positive) []]>
  (<[5%positive := Object None []]>
  (<[6%positive := Object (Some 1%positive) []]>
  (<[7%positive := Object (Some 6%positive) []]> ∅)))))).

End Sample.

(** ** A concrete combined reducer *)

Module CombineSample.
Import JS Combine.

Definition combineReducers : loc -> M combined :=
  Combine.combineReducers Sample.INIT Sample.PROBE_UNKNOWN_ACTION false
    Sample.ObjectPrototype Sample.call.

(** The closure [combineReducers] returns for [{ a: counter, c: picky }],
    and the world it leaves. *)
Definition picky_combined : combined :=
  Combined [("a", VFun (Native 0)); ("c", VFun (Native 2))] ["a"; "c"]
           (VObj 9%positive) None.

Definition picky_world : world := snd (combineReducers 3%positive Sample.world0).

End CombineSample.

(** ** Mappings with entries that are not reducers *)

Module MixedSample.
Import JS Combine.

(** [Sample.world0] with the mapping [{ a: counter, v: 3, u: undefined }]
    at 10, the mapping [{ v: 3 }] at 11, the state
    [{ a: 5, zzz: 1, yyy: 2 }] at 12, a cache [{ yyy: true }] at 13 and
    the mapping [{ x: f }] at 14, where [f] is [Native 7], a function that
    throws a [TypeError] whenever it is called. *)
Definition mixed_world : world :=
  set_heap
    (fun h =>
       <[10%positive := Object (Some 1%positive)
                          [("a", VFun (Native 0)); ("v", VNum 3);
                           ("u", VUndefined)]]>
      (<[11%positive := Object (Some 1%positive) [("v", VNum 3)]]>
      (<[12%positive := Object (Some 1%positive)
                          [("a", VNum 5); ("zzz", VNum 1); ("yyy", VNum 2)]]>
      (<[13%positive := Object (Some 1%positive) [("yyy", VBool true)]]>
      (<[14%positive := Object (Some 1%positive) [("x", VFun (Native 7))]]>
         h)))))
    Sample.world0.

Definition mixed : list (string * value) :=
  [("a", VFun (Native 0)); ("v", VNum 3); ("u", VUndefined)].

(** What [unexpectedKeyCache[key]] reads for the cache at 13. *)
Definition seen (key : string) : value :=
  default VUndefined (assoc key [("yyy", VBool true)]).

(** [Sample.world0] with the mapping [{ x: f, b: forgetful }] at 15: [f]
    throws whenever it is called, [forgetful] always returns
    [undefined]. *)
Definition shadowed_world : world :=
  set_heap
    (insert 15%positive
       (Object (Some 1%positive)
               [("x", VFun (Native 7)); ("b", VFun (Native 1))]))
    Sample.world0.

(** [Sample.world0] with the mapping [{ a: counter, ['__proto__']: counter }]
    at 17: the second reducer is an own property, as a computed key or
    [JSON.parse] makes one. *)
Definition own_proto_world : world :=
  set_heap
    (insert 17%positive
       (Object (Some 1%positive)
               [("a", VFun (Native 0)); ("__proto__", VFun (Native 0))]))
    Sample.world0.

End MixedSample.

(** ** An action whose type has no string form *)

Module ExoticSample.
Import JS Combine.

(** [Native 3] is [(s = 0, a) => { if (typeof a.type !== 'object') return s }];
    the other functions are those of [Sample]. *)
Definition call (f : fnref) (args : list value) : M value :=
  fun w =>
    match f with
    | Native 3 =>
        if bool_decide (typeof (Sample.type_of w (nth 1 args VUndefined)) = TObject)
        then (Ok VUndefined, w)
        else (Ok (match nth 0 args VUndefined with
                  | VUndefined => VNum 0
                  | v => v
                  end), w)
    | _ => Sample.call f args w
    end.

(** [Sample.world0] with [Object.create(null)] at 20, the action
    [{ type: Object.create(null) }] at 21, the mapping
    [{ a: counter, d: Native 3 }] at 22 and the state [{ a: 5, d: 7 }]
    at 23. *)
Definition exotic_world : world :=
  set_heap
    (fun h =>
       <[20%positive := Object None []]>
      (<[21%positive := Object (Some 1%positive) [("type", VObj 20%positive)]]>
      (<[22%positive := Object (Some 1%positive)
                          [("a", VFun (Native 0)); ("d", VFun (Native 3))]]>
      (<[23%positive := Object (Some 1%positive)
                          [("a", VNum 5); ("d", VNum 7)]]>
         h))))
    Sample.world0.

End ExoticSample.

(** ** A concrete host program for the store *)

Module StoreSample.
Import JS Store.

(** [return v] or [throw e], from the outcome of the last step. *)
Definition finish (r : res value) : prog :=
  match r with
  | Ok v => Return v
  | Throw e => Raise e
  | Stuck => Raise (Error "stuck")
  end.

(** [console.log(name)], then [k]. *)
Definition log (name : string) (k : prog) : prog :=
  Eff (fun w => (Ok VUndefined,
                 World (heap w) (closures w) (draws w) (console w ++ [name])%list))
      (fun _ => k).

(** [(s = 0, a) => { if (a.type === 'BAD') throw new Error('bad'); return s }] *)
Definition fussy (args : list value) : M value :=
  fun w =>
    if strict_eq (Sample.type_of w (nth 1 args VUndefined)) (VStr "BAD")
    then (Throw (Error "bad"), w)
    else (Ok (match nth 0 args VUndefined with
              | VUndefined => VNum 0
              | v => v
              end), w).

(** The host functions: the counter reducer (0), a reducer that reads the
    store (4), the fussy reducer (5); listener A (10), which logs,
    unsubscribes the second subscription and subscribes C; the loggers B
    (11) and C (12); a listener that throws (13). *)
Definition body (f : fnref) (args : list value) : prog :=
  match f with
  | Native 0 => Eff (Sample.call (Native 0) args) finish
  | Native 4 => GetState finish
  | Native 5 => Eff (fussy args) finish
  | Native 10 =>
      log "A" (Unsubscribe 1 (fun _ =>
               Subscribe (VFun (Native 12)) (fun _ => Return VUndefined)))
  | Native 11 => log "B" (Return VUndefined)
  | Native 12 => log "C" (Return VUndefined)
  | Native 13 => Raise (Error "listener")
  | _ => Return VUndefined
  end.

Definition A : value := VFun (Native 10).
Definition B : value := VFun (Native 11).
Definition C : value := VFun (Native 12).

Definition dispatch : nat -> value -> SM sys value :=
  Store.dispatch Sample.REPLACE Sample.ObjectPrototype Sample.Get body.

(** The enhancers of this host: [Native 40] writes a line to the console
    and returns a string for a store; calling anything else as an enhancer
    ends in a [TypeError]. *)
Definition enhance (enhancer reducer preloadedState : value) : M value :=
  fun w =>
    match enhancer with
    | VFun (Native 40) =>
        (Ok (VStr "enhanced"),
         World (heap w) (closures w) (draws w)
               (console w ++ ["enhancer"])%list)
    | _ => (Throw (TypeError "enhancer(...) is not a function"), w)
    end.

Definition createStore : nat -> value -> value -> value -> M creation :=
  Store.createStore Sample.INIT Sample.REPLACE Sample.ObjectPrototype
    Sample.Get body enhance.

(** The store [createStore(reducer)] makes in [Sample.world0], with the
    world it leaves. *)
Definition created (reducer : value) : sys :=
  match createStore 5 reducer VUndefined VUndefined Sample.world0 with
  | (Ok (Created t), w) => Sys w t
  | (_, w) => Sys w (Store_ reducer VUndefined 0 0 false [[]] [])
  end.

(** The state a computation leaves. *)
Definition after {A} (m : SM sys A) (s : sys) : sys := snd (m s).

Definition NOP : value := VObj 5%positive.
Definition INC : value := VObj 6%positive.
Definition BAD : value := VObj 7%positive.

(** Listeners A and B subscribed; A's callback unsubscribes B and
    subscribes C.  The first dispatch calls A and B, the second A and C. *)
Definition snapshot_scenario : sys :=
  after (subscribe B) (after (subscribe A) (created (VFun (Native 0)))).

(** A store whose reducer is the fussy one, with B subscribed. *)
Definition fussy_store : sys :=
  after (subscribe B) (created (VFun (Native 5))).

(** A store whose reducer is the counter, with a listener that throws. *)
Definition jinxed_store : sys :=
  after (subscribe (VFun (Native 13))) (created (VFun (Native 0))).

(** A store whose reducer is the counter, with three listeners: B, one
    that throws, and C. *)
Definition tripped_store : sys :=
  after (subscribe C)
    (after (subscribe (VFun (Native 13)))
       (after (subscribe B) (created (VFun (Native 0))))).

(** The fussy store as its reducer sees it. *)
Definition fussy_store_dispatching : sys :=
  with_store (set_isDispatching true) fussy_store.

End StoreSample.

(** ** A host program whose reducers call the store *)

Module ReentrantSample.
Import JS Store.

(** [Native 30] is [(s, a) => { store.dispatch(NOP); return s }] and
    [Native 31] is
    [(s, a) => { try { store.dispatch(NOP) } catch (e) {} return 7 }];
    the other functions are those of [StoreSample]. *)
Definition body (f : fnref) (args : list value) : prog :=
  match f with
  | Native 30 =>
      Dispatch StoreSample.NOP
        (fun r => match r with
                  | Ok _ => Return (nth 0 args VUndefined)
                  | Throw e => Raise e
                  | Stuck => Raise (Error "stuck")
                  end)
  | Native 31 => Dispatch StoreSample.NOP (fun _ => Return (VNum 7))
  | _ => StoreSample.body f args
  end.

Definition dispatch : nat -> value -> SM sys value :=
  Store.dispatch Sample.REPLACE Sample.ObjectPrototype Sample.Get body.

(** An idle store without listeners whose reducer is [reducer] and whose
    state is 0. *)
Definition store_of (reducer : value) : sys :=
  Sys Sample.world0 (Store_ reducer (VNum 0) 0 0 false [[]] []).

End ReentrantSample.

(** ** A concrete host program for bindActionCreators *)

Module BindSample.
Import JS.

(** A host program for [bindActionCreators]: [Native 20] is the action
    creator [() => INC], where [INC] is the action at address 6;
    [Native 21] is a [dispatch] that logs and returns its argument. *)
Definition sample_native (n : nat) (this : value) (args : list value) : M value :=
  fun w =>
    match n with
    | 20 => (Ok (VObj 6%positive), w)
    | 21 => (Ok (nth 0 args VUndefined),
             World (heap w) (closures w) (draws w)
                   (console w ++ ["dispatched"])%list)
    | _ => (Ok VUndefined, w)
    end.

(** A world with the object [{ inc: Native 20, version: 3 }] at 9. *)
Definition sample_world : world :=
  set_heap (insert 9%positive
              (Object (Some 1%positive)
                      [("inc", VFun (Native 20)); ("version", VNum 3)]))
           Sample.world0.

(** A world with the object [{ ['__proto__']: Native 20 }] at 10: the
    action creator is an own property, as a computed key or [JSON.parse]
    makes one. *)
Definition own_proto_world : world :=
  set_heap (insert 10%positive
              (Object (Some 1%positive) [("__proto__", VFun (Native 20))]))
           Sample.world0.

End BindSample.

(* ===================================================================== *)
(** * Properties *)
(* ===================================================================== *)

(** ** isPlainObject *)

Module PlainObjectFacts.
Import JS PlainObject.

Lemma getPrototypeOf_root (h : gmap loc object) l o :
  h !! l = Some o -> proto o = None -> getPrototypeOf h l = Some VNull.
Proof.
  intros Hl Hp. unfold getPrototypeOf. rewrite Hl. simpl. now rewrite Hp.
Qed.

Lemma getPrototypeOf_link (h : gmap loc object) l o (q : loc) :
  h !! l = Some o -> proto o = Some q -> getPrototypeOf h l = Some (VObj q).
Proof.
  intros Hl Hp. unfold getPrototypeOf. rewrite Hl. simpl. now rewrite Hp.
Qed.

(** A chain has one length only. *)
Lemma depth_functional (h : gmap loc object) l n m :
  depth h l n -> depth h l m -> n = m.
Proof.
  intros Hn. revert m.
  induction Hn as [l o Hl Hp | l o q n Hl Hp Hq IH]; intros m Hm;
    inversion Hm; subst; try congruence.
  f_equal. apply IH. congruence.
Qed.

(** With enough fuel, the loop stops at the root of the chain. *)
Lemma climb_reaches_root (h : gmap loc object) l n :
  depth h l n ->
  forall fuel, n <= fuel ->
  exists top, climb fuel h l = Some top /\ depth h top 0.
Proof.
  induction 1 as [l o Hl Hp | l o q n Hl Hp Hq IH]; intros fuel Hfuel.
  - exists l. split; [|econstructor; eauto].
    destruct fuel; simpl; now rewrite (getPrototypeOf_root h l o).
  - destruct fuel as [|fuel]; [lia|].
    destruct (IH fuel) as (top & Hc & Ht); [lia|].
    exists top. split; [|assumption].
    simpl. now rewrite (getPrototypeOf_link h l o q).
Qed.

(** On an object whose chain has [n] links, the answer is [n = 1]. *)
Lemma isPlainObject_depth (fuel : nat) (h : gmap loc object) l n :
  depth h l n -> n <= fuel ->
  isPlainObject fuel h (VObj l) = Some (bool_decide (n = 1)).
Proof.
  intros Hd Hfuel.
  destruct (climb_reaches_root h l n Hd fuel Hfuel) as (top & Hc & Ht).
  unfold isPlainObject. simpl. rewrite Hc. simpl.
  inversion Hd as [l' o Hl Hp | l' o q n' Hl Hp Hq]; subst.
  - rewrite (getPrototypeOf_root h l o Hl Hp). reflexivity.
  - rewrite (getPrototypeOf_link h l o q Hl Hp). simpl. f_equal.
    (* the loop continued from [q] *)
    destruct fuel as [|fuel]; [lia|].
    simpl in Hc. rewrite (getPrototypeOf_link h l o q Hl Hp) in Hc.
    inversion Hq as [q' oq Hql Hqp | q' oq r k Hql Hqp Hr]; subst.
    + (* one link: the loop stops at [q] *)
      assert (top = q) as ->.
      { destruct fuel; simpl in Hc;
          rewrite (getPrototypeOf_root h q oq Hql Hqp) in Hc; congruence. }
      unfold strict_eq. rewrite !bool_decide_eq_true_2; auto.
    + (* two links or more: the root is not [q] *)
      assert (top <> q) as Hne.
      { intros ->. inversion Ht; congruence. }
      unfold strict_eq.
      rewrite bool_decide_eq_false_2 by congruence.
      rewrite bool_decide_eq_false_2 by lia. reflexivity.
Qed.

(** C4 (as the code has it): [isPlainObject] is [false] on every value
    that is not an object reference ([null], [undefined], booleans, numbers,
    strings, functions); on an object whose prototype chain reaches [null]
    after [n] links it is [true] exactly when [n = 1], that is, when the
    object's immediate prototype is the root of its chain.  Record literals
    ([n = 1]) give [true]; arrays and class instances ([n >= 2]) give
    [false]; objects created with a [null] prototype ([n = 0]) give
    [false]. *)
Theorem isPlainObject_characterised (fuel : nat) (h : gmap loc object) :
  (forall v, (forall l, v <> VObj l) -> isPlainObject fuel h v = Some false) /\
  (forall l n, depth h l n -> n <= fuel ->
     isPlainObject fuel h (VObj l) = Some (bool_decide (n = 1))).
Proof.
  split.
  - intros v Hv. destruct v; try reflexivity. now destruct (Hv l).
  - intros l n. apply isPlainObject_depth.
Qed.

Lemma isPlainObject_characterised_witness :
  isPlainObject 2 Sample.sample_heap (VObj 3%positive) = Some true /\
  isPlainObject 2 Sample.sample_heap (VObj 4%positive) = Some false /\
  isPlainObject 2 Sample.sample_heap (VObj 7%positive) = Some false.
Proof.
  assert (depth Sample.sample_heap 1%positive 0) as H1
    by (eapply depth_root; [vm_compute; reflexivity | reflexivity]).
  assert (depth Sample.sample_heap 2%positive 1) as H2
    by (eapply depth_link; [vm_compute; reflexivity | reflexivity | exact H1]).
  assert (depth Sample.sample_heap 6%positive 1) as H6
    by (eapply depth_link; [vm_compute; reflexivity | reflexivity | exact H1]).
  split; [|split].
  - apply (proj2 (isPlainObject_characterised 2 Sample.sample_heap) 3%positive 1); [|lia].
    eapply depth_link; [vm_compute; reflexivity | reflexivity | exact H1].
  - apply (proj2 (isPlainObject_characterised 2 Sample.sample_heap) 4%positive 2); [|lia].
    eapply depth_link; [vm_compute; reflexivity | reflexivity | exact H2].
  - apply (proj2 (isPlainObject_characterised 2 Sample.sample_heap) 7%positive 2); [|lia].
    eapply depth_link; [vm_compute; reflexivity | reflexivity | exact H6].
Defined.

(** C4, the part that fails: an object created with a [null] prototype
    is not recognised as plain. *)
Lemma isPlainObject_null_prototype :
  Sample.sample_heap !! 5%positive = Some (Object None []) /\
  isPlainObject 2 Sample.sample_heap (VObj 5%positive) = Some false /\
  ~ (forall fuel h l o,
       h !! l = Some o -> proto o = None ->
       isPlainObject fuel h (VObj l) = Some true).
Proof.
  split; [vm_compute; reflexivity|].
  split; [vm_compute; reflexivity|].
  intros H.
  specialize (H 2 Sample.sample_heap 5%positive (Object None [])).
  assert (isPlainObject 2 Sample.sample_heap (VObj 5%positive) = Some false) as E
    by (vm_compute; reflexivity).
  rewrite H in E; [discriminate | vm_compute; reflexivity | reflexivity].
Qed.

(** *** Only the prototype links matter *)

Lemma getPrototypeOf_links (h h' : gmap loc object) :
  (forall l, proto <$> (h' !! l) = proto <$> (h !! l)) ->
  forall l, getPrototypeOf h' l = getPrototypeOf h l.
Proof.
  intros Hlinks l. unfold getPrototypeOf. specialize (Hlinks l).
  destruct (h' !! l) as [o'|], (h !! l) as [o|]; simpl in *;
    try discriminate; [|reflexivity].
  injection Hlinks as ->. reflexivity.
Qed.

Lemma climb_links (h h' : gmap loc object) :
  (forall l, proto <$> (h' !! l) = proto <$> (h !! l)) ->
  forall fuel p, climb fuel h' p = climb fuel h p.
Proof.
  intros Hlinks fuel.
  induction fuel as [|fuel IH]; intros p; simpl;
    rewrite (getPrototypeOf_links h h' Hlinks p);
    destruct (getPrototypeOf h p) as [[]|]; auto.
Qed.

Lemma isPlainObject_links (h h' : gmap loc object) fuel v :
  (forall l, proto <$> (h' !! l) = proto <$> (h !! l)) ->
  isPlainObject fuel h' v = isPlainObject fuel h v.
Proof.
  intros Hlinks. unfold isPlainObject.
  destruct (_ || _); [reflexivity|].
  destruct v; try reflexivity.
  now rewrite (climb_links h h' Hlinks), (getPrototypeOf_links h h' Hlinks).
Qed.



(** The object literal at 3 is plain; after [o.__proto__ = null] it has
    no prototype, and is not. *)
Example proto_assignment_changes_the_answer :
  let w := World Sample.sample_heap ∅ 0 [] in
  let w' := snd (set_property 1%positive 3%positive "__proto__" VNull w) in
  isPlainObject 3 (heap w) (VObj 3%positive) = Some true /\
  heap w' !! 3%positive = Some (Object None []) /\
  isPlainObject 3 (heap w') (VObj 3%positive) = Some false.
Proof. vm_compute. repeat split. Qed.

End PlainObjectFacts.

(** ** The state-and-exception monad *)

Module MonadFacts.
Import JS.

Lemma bind_ok {S A B} (m : SM S A) (k : A -> SM S B) s a s' :
  m s = (Ok a, s') -> bind m k s = k a s'.
Proof. intros H. unfold bind. now rewrite H. Qed.

Lemma bind_throw {S A B} (m : SM S A) (k : A -> SM S B) s e s' :
  m s = (Throw e, s') -> bind m k s = (Throw e, s').
Proof. intros H. unfold bind. now rewrite H. Qed.

Lemma bind_stuck {S A B} (m : SM S A) (k : A -> SM S B) s s' :
  m s = (Stuck, s') -> bind m k s = (Stuck, s').
Proof. intros H. unfold bind. now rewrite H. Qed.

(** A normal completion of [bind m k] splits into one of [m] and one of
    [k]. *)
Lemma bind_ok_inv {S A B} (m : SM S A) (k : A -> SM S B) s b s2 :
  bind m k s = (Ok b, s2) ->
  exists a s1, m s = (Ok a, s1) /\ k a s1 = (Ok b, s2).
Proof.
  unfold bind. destruct (m s) as [[a|e|] s1]; intros H; try discriminate.
  now exists a, s1.
Qed.

Lemma bind_assoc {S A B C} (m : SM S A) (k : A -> SM S B) (k' : B -> SM S C) s :
  bind (bind m k) k' s = bind m (fun a => bind (k a) k') s.
Proof. unfold bind. destruct (m s) as [[a|e|] s1]; reflexivity. Qed.

End MonadFacts.

(** ** Property lists *)

Module PropsFacts.
Import JS.

Lemma eqb_refl_string (k : string) : String.eqb k k = true.
Proof. apply String.eqb_refl. Qed.

Lemma assoc_assign_eq k v ps : assoc k (assign k v ps) = Some v.
Proof.
  induction ps as [|[k' v'] ps IH]; simpl.
  - now rewrite eqb_refl_string.
  - destruct (String.eqb k k') eqn:E; simpl; rewrite ?eqb_refl_string, ?E; auto.
Qed.

Lemma assoc_assign_ne k k' v ps :
  k <> k' -> assoc k' (assign k v ps) = assoc k' ps.
Proof.
  intros Hne. induction ps as [|[k0 v0] ps IH]; simpl.
  - destruct (String.eqb k' k) eqn:E; [|reflexivity].
    apply String.eqb_eq in E. congruence.
  - destruct (String.eqb k k0) eqn:E; simpl.
    + apply String.eqb_eq in E. subst k0.
      destruct (String.eqb k' k) eqn:E'; [|reflexivity].
      apply String.eqb_eq in E'. congruence.
    + now rewrite IH.
Qed.

Lemma keys_assign_old k v ps : k ∈ keys ps -> keys (assign k v ps) = keys ps.
Proof.
  induction ps as [|[k' v'] ps IH]; simpl; intros Hin.
  - inversion Hin.
  - destruct (String.eqb k k') eqn:E; simpl.
    + apply String.eqb_eq in E. now subst.
    + f_equal. apply IH. apply elem_of_cons in Hin as [->|Hin]; [|exact Hin].
      now rewrite eqb_refl_string in E.
Qed.

Lemma keys_assign_new k v ps :
  k ∉ keys ps -> keys (assign k v ps) = (keys ps ++ [k])%list.
Proof.
  induction ps as [|[k' v'] ps IH]; simpl; intros Hin.
  - reflexivity.
  - destruct (String.eqb k k') eqn:E; simpl.
    + apply String.eqb_eq in E. subst. exfalso. apply Hin. left.
    + f_equal. apply IH. intros H. apply Hin. now right.
Qed.

Lemma NoDup_keys_assign k v ps : NoDup (keys ps) -> NoDup (keys (assign k v ps)).
Proof.
  intros Hnd. destruct (decide (k ∈ keys ps)) as [Hin|Hin].
  - now rewrite keys_assign_old.
  - rewrite keys_assign_new by exact Hin.
    apply NoDup_app. split; [exact Hnd|]. split.
    + intros x Hx Hx'. apply list_elem_of_singleton in Hx'. now subst.
    + apply NoDup_singleton.
Qed.

Lemma keys_assign k v ps x : x ∈ keys (assign k v ps) -> x = k \/ x ∈ keys ps.
Proof.
  destruct (decide (k ∈ keys ps)) as [Hin|Hin].
  - rewrite keys_assign_old by exact Hin. now right.
  - rewrite keys_assign_new by exact Hin. intros Hx.
    apply elem_of_app in Hx as [Hx|Hx]; [now right|].
    apply list_elem_of_singleton in Hx. now left.
Qed.

Lemma set_property_ordinary (ObjectPrototype : loc) l k v w p ps :
  k <> proto_key ->
  heap w !! l = Some (Object p ps) ->
  p = None \/ p = Some ObjectPrototype ->
  set_property ObjectPrototype l k v w = put l k v w.
Proof.
  intros Hne Hl Hp. unfold set_property. rewrite Hl. simpl.
  destruct (bool_decide _); [reflexivity|].
  destruct (String.eqb_spec k proto_key) as [->|_]; [congruence|]. simpl.
  destruct Hp as [-> | ->]; [reflexivity|].
  now rewrite bool_decide_eq_true_2 by reflexivity.
Qed.

(** Whatever it does, an assignment leaves the other objects alone, and
    the closures, the draws and the console. *)
Lemma set_property_frame ObjectPrototype l k v w :
  let w' := snd (set_property ObjectPrototype l k v w) in
  (forall a, a <> l -> heap w' !! a = heap w !! a) /\
  closures w' = closures w /\ draws w' = draws w /\ console w' = console w.
Proof.
  assert (forall o', let w' := set_heap (insert l o') w in
            (forall a, a <> l -> heap w' !! a = heap w !! a) /\
            closures w' = closures w /\ draws w' = draws w /\
            console w' = console w) as Hwrite.
  { intros o'. simpl. repeat split; auto.
    intros a Ha. now rewrite lookup_insert_ne. }
  assert (forall o,
            let w' := snd (set_prototype l o v w) in
            (forall a, a <> l -> heap w' !! a = heap w !! a) /\
            closures w' = closures w /\ draws w' = draws w /\
            console w' = console w) as Hsetter.
  { intros o. unfold set_prototype.
    destruct v; try (now repeat split); try apply Hwrite.
    destruct (bool_decide _); now repeat split. }
  unfold set_property, put.
  destruct (heap w !! l) as [o|]; [|now repeat split].
  destruct (bool_decide _); [apply Hwrite|].
  destruct (_ && _); [now repeat split|].
  destruct (proto o) as [[q|f]|]; [| |apply Hwrite].
  - destruct (bool_decide _); [|now repeat split].
    destruct (String.eqb k proto_key); [apply Hsetter | apply Hwrite].
  - destruct (String.eqb k proto_key); [apply Hsetter | now repeat split].
Qed.

End PropsFacts.

(** ** combineReducers *)

Module CombineFacts.
Import JS Combine MonadFacts PropsFacts.
Local Open Scope js_scope.

Section CombineFacts.

Variable INIT : string.
Variable REPLACE : string.
Variable PROBE_UNKNOWN_ACTION : nat -> string.
Variable production : bool.
Variable ObjectPrototype : loc.
Variable Get : gmap loc object -> value -> string -> res value.
Variable String_ : value -> M string.
Variable classOf : gmap loc object -> value -> string.
Variable call : fnref -> list value -> M value.
Variable fuel : nat.

Local Abbreviation combineReducers :=
  (combineReducers INIT PROBE_UNKNOWN_ACTION production ObjectPrototype call).
Local Abbreviation combination :=
  (combination INIT REPLACE production ObjectPrototype Get String_ classOf call fuel).
Local Abbreviation assertReducerShape :=
  (assertReducerShape INIT PROBE_UNKNOWN_ACTION ObjectPrototype call).
Local Abbreviation assertOne :=
  (assertOne INIT PROBE_UNKNOWN_ACTION ObjectPrototype call).
Local Abbreviation action_of := (action_of ObjectPrototype).
Local Abbreviation probe_type := (probe_type PROBE_UNKNOWN_ACTION).
Local Abbreviation invoke := (invoke call).
Local Abbreviation collect := (collect production).
Local Abbreviation reduce := (reduce ObjectPrototype Get String_ call).
Local Abbreviation probeError := (probeError INIT).
Local Abbreviation is_action := (is_action ObjectPrototype).
Local Abbreviation answers := (answers ObjectPrototype call).
Local Abbreviation well_behaved :=
  (well_behaved INIT PROBE_UNKNOWN_ACTION ObjectPrototype call).
Local Abbreviation offending :=
  (offending INIT PROBE_UNKNOWN_ACTION ObjectPrototype call).
Local Abbreviation prologue :=
  (prologue INIT REPLACE production ObjectPrototype Get classOf call fuel).
Local Abbreviation slices := (slices ObjectPrototype Get String_ call).
Local Abbreviation with_nextState := (with_nextState ObjectPrototype).
Local Abbreviation type_of_action := (type_of_action Get).
Local Abbreviation untouched := (untouched call).

(** However the first loop ends, it has changed nothing but the console;
    it does not throw, and if it completes, [finalReducers] holds the
    entries retained. *)
Lemma collect_outcome reducers reducerKeys :
  forall finalReducers under_function w,
  exists r w',
    collect reducers reducerKeys finalReducers under_function w = (r, w')
    /\ same_but_console w w'
    /\ (r = Ok (retain reducers reducerKeys finalReducers) \/ r = Stuck).
Proof.
  induction reducerKeys as [|key rest IH];
    intros finalReducers under_function w; simpl.
  - exists (Ok finalReducers), w. repeat split. now left.
  - assert (forall w0, same_but_console w w0 ->
              exists r w',
                (if bool_decide (typeof (own reducers key) = TFunction)
                 then if under_function && negb (String.eqb key proto_key)
                      then stuck
                      else collect reducers rest
                             (set_entry key (own reducers key) finalReducers)
                             (under_function || String.eqb key proto_key)
                 else collect reducers rest finalReducers under_function) w0
                = (r, w')
                /\ same_but_console w w'
                /\ (r = Ok (retain reducers rest
                              (if bool_decide (typeof (own reducers key) = TFunction)
                               then set_entry key (own reducers key) finalReducers
                               else finalReducers))
                    \/ r = Stuck)) as Hstep.
    { intros w0 (Hh & Hc & Hd).
      destruct (bool_decide (typeof (own reducers key) = TFunction)).
      - destruct (under_function && negb (String.eqb key proto_key)).
        + exists Stuck, w0. repeat split; auto.
        + destruct (IH (set_entry key (own reducers key) finalReducers)
                      (under_function || String.eqb key proto_key) w0)
            as (r & w' & -> & (Hh' & Hc' & Hd') & Hr).
          exists r, w'. repeat split; auto; congruence.
      - destruct (IH finalReducers under_function w0)
          as (r & w' & -> & (Hh' & Hc' & Hd') & Hr).
        exists r, w'. repeat split; auto; congruence. }
    unfold bind at 1.
    destruct (negb production); [|apply Hstep; repeat split].
    destruct (bool_decide (typeof (own reducers key) = TUndefined));
      apply Hstep; repeat split.
Qed.

(** The loop completes when it makes no entry after a function has become
    the prototype of [finalReducers]. *)
Lemma collect_not_stuck reducers reducerKeys :
  forall finalReducers under_function w w',
    (under_function = true \/ typeof (own reducers proto_key) = TFunction ->
     forall k, k ∈ reducerKeys -> typeof (own reducers k) = TFunction ->
               k = proto_key) ->
    collect reducers reducerKeys finalReducers under_function w <> (Stuck, w').
Proof.
  induction reducerKeys as [|key rest IH];
    intros finalReducers under_function w w' Hkeys; simpl; [discriminate|].
  unfold bind at 1.
  assert (forall w0,
            (if bool_decide (typeof (own reducers key) = TFunction)
             then if under_function && negb (String.eqb key proto_key)
                  then stuck
                  else collect reducers rest
                         (set_entry key (own reducers key) finalReducers)
                         (under_function || String.eqb key proto_key)
             else collect reducers rest finalReducers under_function) w0
            <> (Stuck, w')) as Hstep.
  { intros w0.
    destruct (bool_decide_reflect (typeof (own reducers key) = TFunction))
      as [Hf|Hf].
    - destruct (String.eqb_spec key proto_key) as [->|Hne].
      + rewrite andb_false_r, orb_true_r. apply IH.
        intros _ k Hk. apply Hkeys; [now right | now right].
      + destruct under_function.
        * destruct Hne. apply Hkeys; [now left | now left | exact Hf].
        * simpl. apply IH.
          intros [Hflag|Hp]; [discriminate|].
          destruct Hne. apply Hkeys; [now right | now left | exact Hf].
    - apply IH. intros Hc k Hk. apply Hkeys; [exact Hc | now right]. }
  destruct (negb production); [|apply Hstep].
  destruct (bool_decide (typeof (own reducers key) = TUndefined)); apply Hstep.
Qed.

Lemma collect_completes reducers reducerKeys finalReducers under_function w :
  (under_function = true \/ typeof (own reducers proto_key) = TFunction ->
   forall k, k ∈ reducerKeys -> typeof (own reducers k) = TFunction ->
             k = proto_key) ->
  exists w',
    collect reducers reducerKeys finalReducers under_function w
    = (Ok (retain reducers reducerKeys finalReducers), w')
    /\ same_but_console w w'.
Proof.
  intros Hkeys.
  destruct (collect_outcome reducers reducerKeys finalReducers under_function w)
    as (r & w' & Hrun & Hsame & [-> | ->]); [now exists w'|].
  now apply collect_not_stuck in Hrun.
Qed.

Lemma collect_next reducers key rest finalReducers :
  no_proto_reducer reducers ->
  (if bool_decide (typeof (own reducers key) = TFunction)
   then collect reducers rest
          (set_entry key (own reducers key) finalReducers)
          (String.eqb key proto_key)
   else collect reducers rest finalReducers false)
  = collect reducers rest
      (if bool_decide (typeof (own reducers key) = TFunction)
       then set_entry key (own reducers key) finalReducers
       else finalReducers) false.
Proof.
  intros Hnp.
  destruct (bool_decide_reflect (typeof (own reducers key) = TFunction))
    as [Hf|_]; [|reflexivity].
  destruct (String.eqb_spec key proto_key) as [->|_]; [|reflexivity].
  now destruct Hnp.
Qed.

(** For a mapping without a function under [__proto__], the first loop
    completes. *)
Lemma collect_retain reducers reducerKeys finalReducers w :
  no_proto_reducer reducers ->
  exists w', collect reducers reducerKeys finalReducers false w
             = (Ok (retain reducers reducerKeys finalReducers), w')
             /\ same_but_console w w'.
Proof.
  intros Hnp. apply collect_completes.
  intros [Hflag|Hp]; [discriminate | now destruct Hnp].
Qed.

Lemma action_of_spec t w :
  exists a w', action_of t w = (Ok a, w') /\ is_action t w' a
               /\ draws w' = draws w.
Proof.
  unfold action_of, Combine.action_of, bind, alloc, ret. simpl.
  eexists _, _. split; [reflexivity|]. split; [|reflexivity].
  eexists. split; [reflexivity|]. simpl. apply lookup_insert_eq.
Qed.

Lemma typeof_undefined v : typeof v = TUndefined <-> v = VUndefined.
Proof. destruct v; simpl; split; congruence. Qed.

Lemma assertOne_pass reducers key w :
  well_behaved (own reducers key) ->
  exists w', assertOne reducers key w = (Ok tt, w').
Proof.
  intros [Hinit Hprobe]. unfold assertOne, Combine.assertOne.
  destruct (action_of_spec INIT w) as (a & w1 & Ha & Hact & _).
  rewrite (bind_ok _ _ _ _ _ Ha).
  destruct (Hinit a w1 Hact) as (v & w2 & Hv & Hdef).
  rewrite (bind_ok _ _ _ _ _ Hv).
  rewrite bool_decide_eq_false_2 by (rewrite typeof_undefined; exact Hdef).
  unfold bind at 1. unfold probe_type, Combine.probe_type.
  match goal with |- exists _, bind _ _ ?w0 = _ =>
    destruct (action_of_spec (PROBE_UNKNOWN_ACTION (draws w2)) w0)
      as (a' & w3 & Ha' & Hact' & _) end.
  rewrite (bind_ok _ _ _ _ _ Ha').
  destruct (Hprobe _ a' w3 Hact') as (v' & w4 & Hv' & Hdef').
  rewrite (bind_ok _ _ _ _ _ Hv').
  rewrite bool_decide_eq_false_2 by (rewrite typeof_undefined; exact Hdef').
  now eexists.
Qed.

Lemma forEach_first_failure (f : string -> M unit) ks1 k ks2 e :
  (forall k' w, k' ∈ ks1 -> exists w', f k' w = (Ok tt, w')) ->
  (forall w, exists w', f k w = (Throw e, w')) ->
  forall w, exists w', forEach f (ks1 ++ k :: ks2)%list w = (Throw e, w').
Proof.
  intros Hok Hfail. induction ks1 as [|k1 ks1 IH]; intros w; simpl.
  - destruct (Hfail w) as (w' & Hw). exists w'. now apply bind_throw.
  - destruct (Hok k1 w) as (w1 & Hw1); [left|].
    rewrite (bind_ok _ _ _ _ _ Hw1). apply IH.
    intros k' w0 Hin. apply Hok. now right.
Qed.

Lemma assertReducerShape_fails finalReducers ks1 key ks2 :
  keys finalReducers = (ks1 ++ key :: ks2)%list ->
  (forall k, k ∈ ks1 -> well_behaved (own finalReducers k)) ->
  offending (own finalReducers key) ->
  forall w, exists e w',
    assertReducerShape finalReducers w = (Throw e, w')
    /\ (e = initError key \/ e = probeError key).
Proof.
  intros Hkeys Hgood Hbad w.
  unfold assertReducerShape, Combine.assertReducerShape. rewrite Hkeys.
  (* the error depends on the world only through the branch taken, which
     the reducer fixes *)
  destruct Hbad as [Hinit | Hprobe].
  - exists (initError key).
    destruct (forEach_first_failure (assertOne finalReducers) ks1 key ks2
                (initError key)) with (w := w) as (w' & Hw).
    + intros k' w0 Hin. now apply assertOne_pass, Hgood.
    + intros w0. unfold assertOne, Combine.assertOne.
      destruct (action_of_spec INIT w0) as (a & w1 & Ha & Hact & _).
      rewrite (bind_ok _ _ _ _ _ Ha).
      destruct (Hinit a w1 Hact) as (v & w2 & Hv & ->).
      rewrite (bind_ok _ _ _ _ _ Hv). simpl. now eexists.
    + exists w'. split; [exact Hw | now left].
  - exists (probeError key).
    destruct (forEach_first_failure (assertOne finalReducers) ks1 key ks2
                (probeError key)) with (w := w) as (w' & Hw).
    + intros k' w0 Hin. now apply assertOne_pass, Hgood.
    + intros w0. unfold assertOne, Combine.assertOne.
      destruct (action_of_spec INIT w0) as (a & w1 & Ha & Hact & _).
      rewrite (bind_ok _ _ _ _ _ Ha).
      destruct Hprobe as [Hinit Hprobe].
      destruct (Hinit a w1 Hact) as (v & w2 & Hv & Hdef).
      rewrite (bind_ok _ _ _ _ _ Hv).
      rewrite bool_decide_eq_false_2 by (rewrite typeof_undefined; exact Hdef).
      unfold bind at 1. unfold probe_type, Combine.probe_type.
      match goal with |- exists _, bind _ _ ?w0 = _ =>
        destruct (action_of_spec (PROBE_UNKNOWN_ACTION (draws w2)) w0)
          as (a' & w3 & Ha' & Hact' & _) end.
      rewrite (bind_ok _ _ _ _ _ Ha').
      destruct (Hprobe _ a' w3 Hact') as (v' & w4 & Hv' & ->).
      rewrite (bind_ok _ _ _ _ _ Hv'). simpl. now eexists.
    + exists w'. split; [exact Hw | now right].
Qed.

(** Whatever the reducers do when probed, [combineReducers] does not
    throw: the [try] block stores what [assertReducerShape] throws. *)
Lemma combineReducers_catches reducers w e w' :
  combineReducers reducers w <> (Throw e, w').
Proof.
  unfold combineReducers, Combine.combineReducers.
  unfold bind at 1. unfold objectKeys.
  destruct (heap w !! reducers) as [o|] eqn:Hheap; [|discriminate].
  cbv beta zeta. rewrite Hheap.
  destruct (collect_outcome (props o) (keys (props o)) [] false w)
    as (r & w1 & Hcollect & _ & [-> | ->]);
    [|rewrite (bind_stuck _ _ _ _ Hcollect); discriminate].
  rewrite (bind_ok _ _ _ _ _ Hcollect).
  unfold bind at 1.
  destruct (negb production).
  - unfold bind at 1. unfold alloc at 1, ret at 1.
    unfold bind, try_catch.
    destruct (Combine.assertReducerShape _ _ _ _ _ _) as [[[]| |] w2];
      discriminate.
  - unfold ret at 1. unfold bind, try_catch.
    destruct (Combine.assertReducerShape _ _ _ _ _ _) as [[[]| |] w2];
      discriminate.
Qed.

(** C3 (as the code has it): for a mapping that holds no function under
    an own key [__proto__], [combineReducers] never throws; and when the
    first reducer of the mapping that breaks the contract does so by
    returning [undefined] on the [INIT] probe or on the random probe, the
    reducers before it returning defined values on both,
    [combineReducers] completes normally and every call of the reducer
    it returns, the first one included, throws the stored error, which
    names that reducer's key. *)
Theorem combineReducers_defers_shape_error reducers o w ks1 key ks2 :
  heap w !! reducers = Some o ->
  no_proto_reducer (props o) ->
  keys (retained (props o)) = (ks1 ++ key :: ks2)%list ->
  (forall k, k ∈ ks1 -> well_behaved (own (retained (props o)) k)) ->
  offending (own (retained (props o)) key) ->
  (forall e w', combineReducers reducers w <> (Throw e, w')) /\
  exists c w' e,
    combineReducers reducers w = (Ok c, w') /\
    (e = initError key \/ e = probeError key) /\
    forall state action w1,
      exists w2, combination c state action w1 = (Throw e, w2).
Proof.
  intros Hheap Hnp Hkeys Hgood Hbad.
  split; [intros e w'; apply combineReducers_catches|].
  unfold combineReducers, Combine.combineReducers.
  unfold bind at 1. unfold objectKeys. rewrite Hheap. cbv beta zeta.
  rewrite Hheap.
  destruct (collect_retain (props o) (keys (props o)) [] w Hnp)
    as (w1 & Hcollect & _).
  fold (retained (props o)) in Hcollect.
  rewrite (bind_ok _ _ _ _ _ Hcollect).
  set (cache := if negb production
                then let! c := alloc (Object (Some ObjectPrototype) []) in
                     ret (VObj c)
                else ret VUndefined).
  assert (exists v w2, cache w1 = (Ok v, w2)) as (v & w2 & Hcache).
  { unfold cache. destruct (negb production); now eexists _, _. }
  rewrite (bind_ok _ _ _ _ _ Hcache).
  destruct (assertReducerShape_fails _ ks1 key ks2 Hkeys Hgood Hbad w2)
    as (e & w3 & Hshape & He).
  unfold bind at 1. unfold try_catch.
  rewrite (bind_throw _ _ _ _ _ Hshape). simpl.
  eexists _, w3, e. split; [reflexivity|]. split; [exact He|].
  intros state action w0.
  unfold combination, Combine.combination. simpl.
  assert (exn_truthy e = true) as ->
    by (destruct He as [-> | ->]; reflexivity).
  destruct (bool_decide (state = VUndefined)).
  - eexists. reflexivity.
  - eexists. reflexivity.
Qed.

Local Abbreviation getUndefinedStateErrorMessage :=
  (getUndefinedStateErrorMessage Get String_).
Local Abbreviation getUnexpectedStateShapeWarningMessage :=
  (getUnexpectedStateShapeWarningMessage INIT REPLACE Get classOf call fuel).
Local Abbreviation get := (get Get).

Lemma combination_prologue c state0 action w :
  combination c state0 action w =
  (let! state := prologue c state0 action in
   let! nextState := alloc (Object (Some ObjectPrototype) []) in
   let! hasChanged :=
     reduce c (finalReducerKeys c) state action nextState false in
   ret (if hasChanged then VObj nextState else state)) w.
Proof.
  unfold combination, Combine.combination, prologue, bind.
  destruct (bool_decide (state0 = VUndefined)); simpl;
    (destruct (shapeAssertionError c) as [e|]; simpl;
     [destruct (exn_truthy e); simpl; [reflexivity|] |]);
    (destruct (negb production); simpl; [|reflexivity]);
    match goal with
    | |- context [getUnexpectedStateShapeWarningMessage ?a ?b ?x ?d ?w0] =>
        destruct (getUnexpectedStateShapeWarningMessage a b x d w0)
          as [[[m|]| |] wb]; reflexivity
    end.
Qed.

Lemma reduce_slices c ks state action nextState hasChanged w :
  reduce c ks state action nextState hasChanged w =
  (let! sl := slices c ks state action nextState in
   ret (hasChanged || existsb changed sl)) w.
Proof.
  revert hasChanged w. induction ks as [|key rest IH]; intros hasChanged w.
  - simpl. unfold bind, ret. now rewrite orb_false_r.
  - simpl. unfold bind in *.
    destruct (get state key w) as [[prev| |] w1]; try reflexivity.
    destruct (invoke _ _ w1) as [[next| |] w2]; try reflexivity.
    destruct (bool_decide (typeof next = TUndefined)).
    + destruct (getUndefinedStateErrorMessage key action w2) as [[m| |] w3];
        reflexivity.
    + destruct (set_property ObjectPrototype nextState key next w2)
        as [[[]| |] w3]; try reflexivity.
      rewrite IH.
      destruct (slices c rest state action nextState w3) as [[sl| |] w4];
        try reflexivity.
      unfold ret. simpl. unfold changed at 2. simpl.
      now rewrite orb_assoc.
Qed.

Lemma reduce_app c ks1 ks2 state action nextState hasChanged w :
  reduce c (ks1 ++ ks2)%list state action nextState hasChanged w =
  (let! h := reduce c ks1 state action nextState hasChanged in
   reduce c ks2 state action nextState h) w.
Proof.
  revert hasChanged w. induction ks1 as [|key rest IH]; intros hasChanged w.
  - reflexivity.
  - simpl. unfold bind in *.
    destruct (get state key w) as [[prev| |] w1]; try reflexivity.
    destruct (invoke _ _ w1) as [[next| |] w2]; try reflexivity.
    destruct (bool_decide (typeof next = TUndefined)).
    + destruct (getUndefinedStateErrorMessage key action w2) as [[m| |] w3];
        reflexivity.
    + destruct (set_property ObjectPrototype nextState key next w2)
        as [[[]| |] w3]; try reflexivity.
      apply IH.
Qed.

(** C8 (as the code has it): in a call of the combined reducer that gets
    past the stored shape error, when the reducers of the keys before
    [key] return defined values and the reducer of [key] returns
    [undefined], the call ends as follows.  When the action or its [type] is falsy ([undefined], [null],
    [false], [0], [NaN], the empty string), it throws an [Error] whose
    message names [key] and calls the action "an action".  When the [type]
    is truthy and [String(type)] returns a text, it throws an [Error]
    whose message names [key] and that text.  When [String(type)] itself
    throws, as it does for an object that cannot be converted, that
    exception is what the call throws, and no message is built. *)
Theorem combination_undefined_output
    c state0 action w state wa ks1 key ks2 sl w1 prev w2 type :
  prologue c state0 action w = (Ok state, wa) ->
  finalReducerKeys c = (ks1 ++ key :: ks2)%list ->
  slices c ks1 state action (nextState_of wa) (with_nextState wa) = (Ok sl, w1) ->
  Get (heap w1) state key = Ok prev ->
  invoke (own (finalReducers c) key) [prev; action] w1 = (Ok VUndefined, w2) ->
  type_of_action (heap w2) action = Ok type ->
  (truthy type = false ->
     combination c state0 action w
     = (Throw (Error (undefined_message "an action" key)), w2)) /\
  (truthy type = true ->
     forall text w3,
       String_ type w2 = (Ok text, w3) ->
       combination c state0 action w
       = (Throw (Error (undefined_message
                          ("action " ++ dq ++ text ++ dq) key)), w3)) /\
  (truthy type = true ->
     forall e w3,
       String_ type w2 = (Throw e, w3) ->
       combination c state0 action w = (Throw e, w3)).
Proof.
  intros Hpro Hkeys Hsl Hprev Hnext Htype.
  assert (forall r w3,
            getUndefinedStateErrorMessage key action w2 = (r, w3) ->
            combination c state0 action w
            = (match r with
               | Ok m => Throw (Error m)
               | Throw e => Throw e
               | Stuck => Stuck
               end, w3)) as Hmsg.
  { intros r w3 Hr.
    rewrite combination_prologue.
    rewrite (bind_ok _ _ _ _ _ Hpro).
    unfold bind at 1. unfold alloc at 1.
    fold (nextState_of wa). fold (with_nextState wa).
    rewrite Hkeys. unfold bind at 1.
    rewrite reduce_app.
    assert (reduce c ks1 state action (nextState_of wa) false
              (with_nextState wa)
            = (Ok (existsb changed sl), w1)) as Hfirst.
    { rewrite reduce_slices. now rewrite (bind_ok _ _ _ _ _ Hsl). }
    rewrite (bind_ok _ _ _ _ _ Hfirst). simpl.
    unfold bind at 1. unfold Combine.get at 1. rewrite Hprev.
    rewrite (bind_ok _ _ _ _ _ Hnext). simpl.
    unfold bind at 1. rewrite Hr. now destruct r. }
  assert (getUndefinedStateErrorMessage key action w2
          = (let! description :=
               (if truthy type
                then let! text := String_ type in
                     ret ("action " ++ dq ++ text ++ dq)
                else ret "an action") in
             ret (undefined_message description key)) w2) as Hshape.
  { unfold Combine.getUndefinedStateErrorMessage, type_of_action in *.
    unfold bind at 1.
    destruct (truthy action).
    - unfold Combine.get. rewrite Htype. reflexivity.
    - injection Htype as <-. reflexivity. }
  split; [|split].
  - intros Hfalsy. rewrite Hfalsy in Hshape.
    exact (Hmsg _ _ Hshape).
  - intros Htruthy text w3 Htext. rewrite Htruthy in Hshape.
    unfold bind in Hshape. rewrite Htext in Hshape.
    exact (Hmsg _ _ Hshape).
  - intros Htruthy e w3 Htext. rewrite Htruthy in Hshape.
    unfold bind in Hshape. rewrite Htext in Hshape.
    exact (Hmsg _ _ Hshape).
Qed.

Lemma NoDup_keys_retain reducers reducerKeys finalReducers :
  NoDup (keys finalReducers) ->
  NoDup (keys (retain reducers reducerKeys finalReducers)).
Proof.
  revert finalReducers.
  induction reducerKeys as [|key rest IH]; intros finalReducers Hnd; simpl.
  - exact Hnd.
  - apply IH. destruct (bool_decide _); [|exact Hnd].
    unfold set_entry. destruct (String.eqb key proto_key);
      [exact Hnd | now apply NoDup_keys_assign].
Qed.

(** The closure [combineReducers] returns iterates over the keys of its
    own [finalReducers], which are pairwise distinct. *)
Lemma retain_no_proto_key reducers reducerKeys finalReducers :
  proto_key ∉ keys finalReducers ->
  proto_key ∉ keys (retain reducers reducerKeys finalReducers).
Proof.
  revert finalReducers.
  induction reducerKeys as [|key rest IH]; intros finalReducers Hno; simpl.
  - exact Hno.
  - apply IH. destruct (bool_decide _); [|exact Hno].
    unfold set_entry.
    destruct (String.eqb_spec key proto_key) as [->|Hne]; [exact Hno|].
    intros Hin. apply keys_assign in Hin as [Hin|Hin]; [congruence|].
    now apply Hno.
Qed.

Lemma combineReducers_closure reducers w c w' :
  combineReducers reducers w = (Ok c, w') ->
  finalReducerKeys c = keys (finalReducers c) /\ NoDup (finalReducerKeys c).
Proof.
  unfold combineReducers, Combine.combineReducers.
  unfold bind at 1. unfold objectKeys.
  destruct (heap w !! reducers) as [o|] eqn:Hheap; [|discriminate].
  cbv beta zeta. rewrite Hheap.
  destruct (collect_outcome (props o) (keys (props o)) [] false w)
    as (r & w1 & Hcollect & _ & [-> | ->]);
    [|rewrite (bind_stuck _ _ _ _ Hcollect); discriminate].
  rewrite (bind_ok _ _ _ _ _ Hcollect).
  intros H. apply bind_ok_inv in H as (cache & w2 & _ & H).
  apply bind_ok_inv in H as (err & w3 & _ & H).
  injection H as <- _. simpl. split; [reflexivity|].
  apply NoDup_keys_retain. constructor.
Qed.

Lemma combineReducers_no_proto_key reducers w c w' :
  combineReducers reducers w = (Ok c, w') ->
  proto_key ∉ finalReducerKeys c.
Proof.
  unfold combineReducers, Combine.combineReducers.
  unfold bind at 1. unfold objectKeys.
  destruct (heap w !! reducers) as [o|] eqn:Hheap; [|discriminate].
  cbv beta zeta. rewrite Hheap.
  destruct (collect_outcome (props o) (keys (props o)) [] false w)
    as (r & w1 & Hcollect & _ & [-> | ->]);
    [|rewrite (bind_stuck _ _ _ _ Hcollect); discriminate].
  rewrite (bind_ok _ _ _ _ _ Hcollect).
  intros H. apply bind_ok_inv in H as (cache & w2 & _ & H).
  apply bind_ok_inv in H as (err & w3 & _ & H).
  injection H as <- _. simpl.
  apply retain_no_proto_key. apply not_elem_of_nil.
Qed.

(** *** The record [combination] builds *)

Lemma slices_record c ks state action l w sl w1 (p : option parent) ps :
  untouched l ->
  proto_key ∉ ks ->
  p = None \/ p = Some ObjectPrototype ->
  heap w !! l = Some (Object p ps) ->
  slices c ks state action l w = (Ok sl, w1) ->
  heap w1 !! l = Some (Object p (record_of sl ps))
  /\ map (fun slice => fst (fst slice)) sl = ks.
Proof.
  intros Hframe Hkey Hp. revert w sl ps.
  induction ks as [|key rest IH]; intros w sl ps Hl Hrun; simpl in Hrun.
  - injection Hrun as <- <-. now split.
  - apply not_elem_of_cons in Hkey as [Hne Hkey].
    apply bind_ok_inv in Hrun as (prev & wg & Hget & Hrun).
    unfold Combine.get in Hget. injection Hget as Hget <-.
    apply bind_ok_inv in Hrun as (next & w2 & Hcall & Hrun).
    destruct (bool_decide (typeof next = TUndefined)).
    { apply bind_ok_inv in Hrun as (m & w3 & _ & Hrun). discriminate. }
    apply bind_ok_inv in Hrun as ([] & w3 & Hput & Hrun).
    apply bind_ok_inv in Hrun as (sl' & w4 & Hrest & Hrun).
    injection Hrun as <- <-.
    assert (heap w2 !! l = Some (Object p ps)) as Hl2.
    { rewrite <- Hl. unfold Combine.invoke in Hcall.
      destruct (own (finalReducers c) key); try (injection Hcall as _ <-; reflexivity).
      specialize (Hframe f [prev; action] w (mk_is_Some _ _ Hl)).
      now rewrite Hcall in Hframe. }
    rewrite (set_property_ordinary _ _ _ _ _ p ps
               (fun E => Hne (eq_sym E)) Hl2 Hp) in Hput.
    unfold put in Hput. rewrite Hl2 in Hput. injection Hput as <-.
    destruct (IH Hkey _ _ (assign key next ps) (lookup_insert_eq _ _ _) Hrest)
      as [Hrec Hkeys].
    split; [exact Hrec | simpl; now f_equal].
Qed.

Lemma record_of_keys sl ps :
  NoDup (keys ps ++ map (fun slice => fst (fst slice)) sl) ->
  keys (record_of sl ps) = (keys ps ++ map (fun slice => fst (fst slice)) sl)%list.
Proof.
  revert ps. induction sl as [|[[k prev] next] sl IH]; intros ps Hnd; simpl.
  - now rewrite app_nil_r.
  - simpl in Hnd.
    assert (k ∉ keys ps) as Hnew.
    { apply NoDup_app in Hnd as (_ & Hdisj & _). intros Hin.
      apply (Hdisj k Hin). left. }
    rewrite IH; rewrite keys_assign_new by exact Hnew;
      rewrite <- app_assoc; [reflexivity | exact Hnd].
Qed.

Lemma record_of_assoc_other sl ps k :
  k ∉ map (fun slice => fst (fst slice)) sl ->
  assoc k (record_of sl ps) = assoc k ps.
Proof.
  revert ps. induction sl as [|[[k' prev] next] sl IH]; intros ps Hk; simpl.
  - reflexivity.
  - simpl in Hk. rewrite IH by (intros H; apply Hk; now right).
    apply assoc_assign_ne. intros ->. apply Hk. left.
Qed.

Lemma record_of_assoc sl ps k prev next :
  NoDup (map (fun slice => fst (fst slice)) sl) ->
  (k, prev, next) ∈ sl ->
  assoc k (record_of sl ps) = Some next.
Proof.
  revert ps. induction sl as [|[[k' prev'] next'] sl IH]; intros ps Hnd Hin.
  - inversion Hin.
  - simpl in Hnd. apply NoDup_cons in Hnd as [Hfresh Hnd].
    apply elem_of_cons in Hin as [Heq|Hin]; simpl.
    + injection Heq as -> -> ->.
      rewrite record_of_assoc_other by exact Hfresh. apply assoc_assign_eq.
    + now apply IH.
Qed.

Lemma prologue_state c state0 action w state wa :
  prologue c state0 action w = (Ok state, wa) ->
  state0 <> VUndefined -> state = state0.
Proof.
  intros H Hdef. unfold prologue in H.
  rewrite bool_decide_eq_false_2 in H by exact Hdef.
  unfold bind at 1 in H. unfold ret at 1 in H.
  destruct (match shapeAssertionError c with
            | Some e => exn_truthy e | None => false end).
  - destruct (shapeAssertionError c); discriminate.
  - apply bind_ok_inv in H as ([] & wb & _ & H). now injection H as <- _.
Qed.

(** C1: in a call of the combined reducer on a state record [s] that
    completes the loop over the reducers, with [sl] the list of each key's
    previous slice and reducer output: if every output is [===] its
    previous slice, the call returns [s] itself; if some output is not, it
    returns the reference of a record allocated by this call (no object
    lived there when it was allocated) which, host calls leaving it alone,
    has [Object.prototype] as prototype, the reducer keys as keys and each
    reducer's output under its key. *)
Theorem combination_referential_stability
    reducers w0 c w0' s action w state wa sl w1 :
  combineReducers reducers w0 = (Ok c, w0') ->
  prologue c (VObj s) action w = (Ok state, wa) ->
  slices c (finalReducerKeys c) state action
         (nextState_of wa) (with_nextState wa) = (Ok sl, w1) ->
  state = VObj s /\
  (existsb changed sl = false ->
     combination c (VObj s) action w = (Ok (VObj s), w1)) /\
  (existsb changed sl = true ->
     combination c (VObj s) action w = (Ok (VObj (nextState_of wa)), w1) /\
     heap wa !! nextState_of wa = None /\
     (untouched (nextState_of wa) ->
      exists o,
        heap w1 !! nextState_of wa = Some o /\
        proto o = Some ObjectPrototype /\
        keys (props o) = finalReducerKeys c /\
        forall k prev next,
          (k, prev, next) ∈ sl -> assoc k (props o) = Some next)).
Proof.
  intros Hc Hpro Hsl.
  assert (state = VObj s) as -> by (eapply prologue_state; eauto; discriminate).
  assert (forall b, existsb changed sl = b ->
            combination c (VObj s) action w =
            (Ok (if b then VObj (nextState_of wa) else VObj s), w1)) as Hrun.
  { intros b Hb. rewrite combination_prologue.
    rewrite (bind_ok _ _ _ _ _ Hpro).
    unfold bind at 1. unfold alloc at 1.
    fold (nextState_of wa). fold (with_nextState wa).
    unfold bind at 1. rewrite reduce_slices.
    rewrite (bind_ok _ _ _ _ _ Hsl). unfold ret. simpl. now rewrite Hb. }
  split; [reflexivity|]. split; [apply (Hrun false)|].
  intros Hchanged. split; [apply (Hrun true Hchanged)|]. split.
  - apply not_elem_of_dom. unfold nextState_of. apply is_fresh.
  - intros Hframe.
    destruct (combineReducers_closure _ _ _ _ Hc) as [Hkeys Hnd].
    destruct (slices_record c _ _ _ _ _ _ _ (Some ObjectPrototype) []
                Hframe (combineReducers_no_proto_key _ _ _ _ Hc)
                (or_intror eq_refl)
                (lookup_insert_eq _ _ _) Hsl) as [Hrec Hmap].
    eexists. split; [exact Hrec|]. split; [reflexivity|]. simpl. split.
    + rewrite record_of_keys; simpl; rewrite Hmap; [reflexivity | exact Hnd].
    + intros k prev next Hin. eapply record_of_assoc; [|exact Hin].
      now rewrite Hmap.
Qed.

(** *** The entries [combineReducers] keeps *)

Local Abbreviation missing_reducer_warnings :=
  (missing_reducer_warnings production).

Lemma assign_fresh k v ps : k ∉ keys ps -> assign k v ps = (ps ++ [(k, v)])%list.
Proof.
  induction ps as [|[k' v'] ps IH]; simpl; intros Hk; [reflexivity|].
  apply not_elem_of_cons in Hk as [Hne Hk].
  destruct (String.eqb_spec k k') as [->|_]; [congruence|].
  now rewrite (IH Hk).
Qed.

Lemma assoc_NoDup ps k v :
  NoDup (keys ps) -> (k, v) ∈ ps -> assoc k ps = Some v.
Proof.
  induction ps as [|[k' v'] ps IH]; simpl; intros Hnd Hin.
  - now apply elem_of_nil in Hin.
  - apply NoDup_cons in Hnd as [Hk' Hnd].
    apply elem_of_cons in Hin as [[= -> ->]|Hin].
    + now rewrite String.eqb_refl.
    + destruct (String.eqb_spec k k') as [->|_]; [|now apply IH].
      exfalso. apply Hk'. apply list_elem_of_fmap. now exists (k', v).
Qed.

Lemma retain_filter reducers qs acc :
  (forall k v, (k, v) ∈ qs -> own reducers k = v) ->
  NoDup (keys acc ++ keys qs) ->
  retain reducers (keys qs) acc = (acc ++ functions_of qs)%list.
Proof.
  revert acc. induction qs as [|[k v] qs IH]; intros acc Hown Hnd; simpl.
  - now rewrite app_nil_r.
  - assert (own reducers k = v) as Hv by (apply Hown, elem_of_cons; now left).
    assert (forall k' v', (k', v') ∈ qs -> own reducers k' = v') as Hown'
      by (intros; apply Hown, elem_of_cons; now right).
    rewrite Hv. unfold functions_of. rewrite filter_cons. simpl.
    apply NoDup_app in Hnd as (Hacc & Hdisj & Hqs). simpl in Hqs.
    apply NoDup_cons in Hqs as [Hk Hqs].
    assert (NoDup (keys acc ++ keys qs)) as Hnd'.
    { apply NoDup_app. split; [exact Hacc|]. split; [|exact Hqs].
      intros x Hx Hx'. apply (Hdisj x Hx). simpl. apply elem_of_cons.
      now right. }
    destruct (decide (typeof v = TFunction /\ k <> proto_key))
      as [[Hf Hne]|Hno].
    + rewrite bool_decide_eq_true_2 by exact Hf.
      unfold set_entry.
      destruct (String.eqb_spec k proto_key) as [->|_]; [congruence|].
      assert (k ∉ keys acc) as Hfresh.
      { intros Hin. apply (Hdisj _ Hin). simpl. apply elem_of_cons. now left. }
      rewrite (assign_fresh _ _ _ Hfresh).
      rewrite IH; [now rewrite <- app_assoc | exact Hown' |].
      unfold keys. rewrite fmap_app. simpl.
      rewrite <- app_assoc. simpl.
      apply NoDup_app. split; [exact Hacc|]. split.
      * intros x Hx. exact (Hdisj x Hx).
      * now apply NoDup_cons.
    + assert ((if bool_decide (typeof v = TFunction)
               then set_entry k v acc else acc) = acc) as ->.
      { destruct (bool_decide_reflect (typeof v = TFunction)) as [Hf|];
          [|reflexivity].
        unfold set_entry.
        destruct (String.eqb_spec k proto_key) as [->|Hne]; [reflexivity|].
        exfalso. apply Hno. now split. }
      now apply IH.
Qed.

Lemma retained_functions reducers :
  NoDup (keys reducers) -> retained reducers = functions_of reducers.
Proof.
  intros Hnd. unfold retained.
  rewrite (retain_filter reducers reducers []); [reflexivity | | exact Hnd].
  intros k v Hin. unfold own. now rewrite (assoc_NoDup _ _ _ Hnd Hin).
Qed.

Lemma collect_console reducers reducerKeys finalReducers w :
  no_proto_reducer reducers ->
  snd (collect reducers reducerKeys finalReducers false w)
  = World (heap w) (closures w) (draws w)
      (console w ++ reducer_warnings production reducers reducerKeys)%list.
Proof.
  intros Hnp. revert finalReducers w. unfold reducer_warnings.
  induction reducerKeys as [|key rest IH]; intros finalReducers w; simpl.
  - destruct w, production; simpl; now rewrite app_nil_r.
  - rewrite (collect_next _ _ _ _ Hnp).
    unfold bind at 1. rewrite filter_cons.
    destruct production; simpl.
    + rewrite IH. reflexivity.
    + destruct (decide (typeof (own reducers key) = TUndefined)) as [Hu|Hu].
      * rewrite bool_decide_eq_true_2 by exact Hu. unfold warning. simpl.
        rewrite IH. simpl. now rewrite <- app_assoc.
      * rewrite bool_decide_eq_false_2 by exact Hu. simpl.
        rewrite IH. reflexivity.
Qed.

Lemma assoc_keys ps k v : assoc k ps = Some v -> k ∈ keys ps.
Proof.
  induction ps as [|[k' v'] ps IH]; simpl; [discriminate|].
  destruct (String.eqb_spec k k') as [->|_]; intros H; apply elem_of_cons;
    [now left | right; now apply IH].
Qed.

Lemma assoc_functions_of ps k v :
  NoDup (keys ps) ->
  assoc k (functions_of ps) = Some v
  <-> assoc k ps = Some v /\ typeof v = TFunction /\ k <> proto_key.
Proof.
  unfold functions_of.
  induction ps as [|[k' v'] ps IH]; simpl; intros Hnd.
  - split; [discriminate | now intros [? _]].
  - apply NoDup_cons in Hnd as [Hk' Hnd]. rewrite filter_cons. simpl.
    destruct (decide (typeof v' = TFunction /\ k' <> proto_key))
      as [[Hf Hne]|Hno]; simpl.
    + destruct (String.eqb_spec k k') as [->|_]; [|now apply IH].
      split; [intros [= <-]; now repeat split | now intros [? _]].
    + destruct (String.eqb_spec k k') as [->|_]; [|now apply IH].
      split.
      * intros H. apply (IH Hnd) in H as [H _].
        exfalso. apply Hk'. eapply assoc_keys, H.
      * intros [[= <-] H]. contradiction.
Qed.

(** X12: the first loop of [combineReducers] keeps the entries of
    [reducers] whose value is a function, in the order of [Object.keys]
    and with their values, and skips the others.  For a mapping that
    holds no function under an own key [__proto__], the loop completes
    and changes nothing of the world but the console, to which, outside
    production, it writes one warning for each key whose value is
    [undefined] (none for other non-functions).  Whenever
    [combineReducers] returns, the [finalReducers] of the closure it
    returns are exactly the entries of [reducers] whose value is a
    function and whose key is not [__proto__]: a function under that key
    is lost to the setter that [finalReducers] inherits. *)
Theorem combineReducers_keeps_functions reducers o w :
  heap w !! reducers = Some o ->
  NoDup (keys (props o)) ->
  (no_proto_reducer (props o) ->
   collect (props o) (keys (props o)) [] false w
   = (Ok (functions_of (props o)),
      World (heap w) (closures w) (draws w)
            (console w ++ missing_reducer_warnings (props o))%list)) /\
  forall c w',
    combineReducers reducers w = (Ok c, w') ->
    finalReducers c = functions_of (props o) /\
    finalReducerKeys c = keys (functions_of (props o)) /\
    forall k v,
      assoc k (finalReducers c) = Some v
      <-> assoc k (props o) = Some v /\ typeof v = TFunction /\
          k <> proto_key.
Proof.
  intros Hheap Hnd. split.
  { intros Hnp.
    destruct (collect_retain (props o) (keys (props o)) [] w Hnp)
      as (w1 & Hcollect & _).
    pose proof (collect_console (props o) (keys (props o)) [] w Hnp) as Hw.
    rewrite Hcollect in Hw. simpl in Hw. subst w1.
    fold (retained (props o)) in Hcollect.
    now rewrite (retained_functions _ Hnd) in Hcollect. }
  intros c w'. unfold combineReducers, Combine.combineReducers.
  unfold bind at 1. unfold objectKeys. rewrite Hheap.
  cbv beta zeta. rewrite Hheap.
  destruct (collect_outcome (props o) (keys (props o)) [] false w)
    as (r & w1 & Hcollect & _ & [-> | ->]);
    [|rewrite (bind_stuck _ _ _ _ Hcollect); discriminate].
  fold (retained (props o)) in Hcollect.
  rewrite (retained_functions _ Hnd) in Hcollect.
  rewrite (bind_ok _ _ _ _ _ Hcollect).
  intros H. apply bind_ok_inv in H as (cache & w2 & _ & H).
  apply bind_ok_inv in H as (err & w3 & _ & H).
  injection H as <- _. simpl. split; [reflexivity|]. split; [reflexivity|].
  intros k v. now apply assoc_functions_of.
Qed.

Lemma forEach_all_pass (f : string -> M unit) ks :
  (forall k w, k ∈ ks -> exists w', f k w = (Ok tt, w')) ->
  forall w, exists w', forEach f ks w = (Ok tt, w').
Proof.
  induction ks as [|k ks IH]; intros Hf w; simpl.
  - now exists w.
  - destruct (Hf k w) as (w1 & H1); [apply elem_of_cons; now left|].
    rewrite (bind_ok _ _ _ _ _ H1).
    apply IH. intros k' w0 Hin. apply Hf, elem_of_cons. now right.
Qed.

(** X13: if every function in [reducers] honours the contract on the two
    probes (it returns something other than [undefined] for the INIT
    action and for a random action type, when called with an undefined
    state), [combineReducers] records no shape error, so that the reducer
    it returns never throws the deferred validation error.  This is for
    a mapping that holds no function under an own key [__proto__], so
    that every assignment of the first loop makes an entry. *)
Theorem combineReducers_accepts reducers o w :
  heap w !! reducers = Some o ->
  no_proto_reducer (props o) ->
  (forall k, k ∈ keys (retained (props o)) ->
     well_behaved (own (retained (props o)) k)) ->
  exists c w',
    combineReducers reducers w = (Ok c, w') /\
    shapeAssertionError c = None /\
    finalReducers c = retained (props o) /\
    finalReducerKeys c = keys (retained (props o)).
Proof.
  intros Hheap Hnp Hgood.
  unfold combineReducers, Combine.combineReducers.
  unfold bind at 1. unfold objectKeys. rewrite Hheap.
  cbv beta zeta. rewrite Hheap.
  destruct (collect_retain (props o) (keys (props o)) [] w Hnp)
    as (w1 & Hcollect & _).
  fold (retained (props o)) in Hcollect.
  rewrite (bind_ok _ _ _ _ _ Hcollect).
  assert (forall w0, exists w0',
            assertReducerShape (retained (props o)) w0 = (Ok tt, w0')) as Hpass.
  { intros w0. apply forEach_all_pass. intros k w2 Hin.
    apply assertOne_pass, Hgood, Hin. }
  unfold bind at 1.
  destruct (negb production).
  - unfold bind at 1. unfold alloc at 1, ret at 1.
    unfold bind, try_catch.
    match goal with
    | |- context [Combine.assertReducerShape _ _ _ _ _ ?w0] =>
        destruct (Hpass w0) as (w2 & ->)
    end.
    simpl. eauto 10.
  - unfold ret at 1. unfold bind, try_catch.
    match goal with
    | |- context [Combine.assertReducerShape _ _ _ _ _ ?w0] =>
        destruct (Hpass w0) as (w2 & ->)
    end.
    simpl. eauto 10.
Qed.

(** *** A mapping without reducers *)

Local Abbreviation no_valid_reducer_warnings :=
  (no_valid_reducer_warnings production).

Lemma combination_empty c state0 action w :
  finalReducers c = [] ->
  finalReducerKeys c = [] ->
  shapeAssertionError c = None ->
  state0 <> VUndefined ->
  (production = false -> exists t, type_of_action (heap w) action = Ok t) ->
  combination c state0 action w
  = (Ok state0,
     with_nextState
       (World (heap w) (closures w) (draws w)
              (console w ++ no_valid_reducer_warnings)%list)).
Proof.
  intros Hfr Hks Herr Hdef Htype.
  unfold combination, Combine.combination.
  rewrite bool_decide_eq_false_2 by exact Hdef.
  rewrite Herr, Hks, Hfr. unfold Combine.no_valid_reducer_warnings.
  destruct production; simpl.
  - unfold bind, ret, alloc, with_nextState, nextState_of. simpl.
    destruct w; simpl. now rewrite app_nil_r.
  - destruct (Htype eq_refl) as [t Ht]. unfold type_of_action in Ht.
    unfold Combine.getUnexpectedStateShapeWarningMessage, has_type.
    unfold bind, ret, alloc, warning, with_nextState, nextState_of,
      Combine.get.
    destruct (truthy action); simpl.
    + rewrite Ht. reflexivity.
    + reflexivity.
Qed.

Lemma retain_grows reducers reducerKeys finalReducers :
  finalReducers <> [] -> retain reducers reducerKeys finalReducers <> [].
Proof.
  revert finalReducers.
  induction reducerKeys as [|key rest IH]; intros finalReducers Hne; simpl;
    [exact Hne|].
  apply IH. destruct (bool_decide _); [|exact Hne].
  unfold set_entry. destruct (String.eqb key proto_key); [exact Hne|].
  destruct finalReducers as [|[k v] ps]; [now destruct Hne|].
  simpl. now destruct (String.eqb key k).
Qed.

Lemma retain_nil reducers reducerKeys finalReducers :
  retain reducers reducerKeys finalReducers = [] ->
  forall k, k ∈ reducerKeys -> typeof (own reducers k) = TFunction ->
            k = proto_key.
Proof.
  revert finalReducers.
  induction reducerKeys as [|key rest IH]; intros finalReducers Hnil k Hk Hf;
    [now apply elem_of_nil in Hk|].
  simpl in Hnil. apply elem_of_cons in Hk as [->|Hk];
    [|exact (IH _ Hnil k Hk Hf)].
  rewrite bool_decide_eq_true_2 in Hnil by exact Hf.
  destruct (String.eqb_spec key proto_key) as [E|Hne]; [exact E|].
  exfalso. revert Hnil. apply retain_grows.
  unfold set_entry. rewrite (proj2 (String.eqb_neq _ _) Hne).
  destruct finalReducers as [|[k v] ps]; [discriminate|].
  simpl. now destruct (String.eqb key k).
Qed.

(** X14: for a mapping none of whose values is a function,
    [combineReducers] returns a reducer that gives back the state it is
    passed, whatever the action, after allocating an empty [nextState]
    that it drops; outside production every such call writes the warning
    that the store has no valid reducer. *)
Theorem combineReducers_without_reducers reducers o w :
  heap w !! reducers = Some o ->
  retained (props o) = [] ->
  exists c w',
    combineReducers reducers w = (Ok c, w') /\
    forall state0 action w1,
      state0 <> VUndefined ->
      (production = false ->
       exists t, type_of_action (heap w1) action = Ok t) ->
      combination c state0 action w1
      = (Ok state0,
         with_nextState
           (World (heap w1) (closures w1) (draws w1)
                  (console w1 ++ no_valid_reducer_warnings)%list)).
Proof.
  intros Hheap Hnone.
  unfold combineReducers, Combine.combineReducers.
  unfold bind at 1. unfold objectKeys. rewrite Hheap.
  cbv beta zeta. rewrite Hheap.
  destruct (collect_completes (props o) (keys (props o)) [] false w)
    as (w1 & Hcollect & _).
  { intros _. exact (retain_nil _ _ [] Hnone). }
  fold (retained (props o)) in Hcollect. rewrite Hnone in Hcollect.
  rewrite (bind_ok _ _ _ _ _ Hcollect).
  unfold bind at 1.
  destruct (negb production).
  - unfold bind at 1. unfold alloc at 1, ret at 1.
    unfold bind, try_catch. simpl.
    eexists _, _. split; [reflexivity|].
    intros. now apply combination_empty.
  - unfold ret at 1. unfold bind, try_catch. simpl.
    eexists _, _. split; [reflexivity|].
    intros. now apply combination_empty.
Qed.

(** *** What [combination] writes to *)

Section Frame.

Variable l : loc.
Hypothesis call_untouched : untouched l.
Hypothesis String_untouched : forall v, keeps l (String_ v).

Lemma keeps_pure {A} (m : M A) :
  (forall w r w', m w = (r, w') -> heap w' = heap w) -> keeps l m.
Proof. intros Hm w r w' _ H. now rewrite (Hm _ _ _ H). Qed.

Lemma keeps_ret {A} (a : A) : keeps l (ret a).
Proof. apply keeps_pure. now intros w r w' [= _ <-]. Qed.

Lemma keeps_throw {A} e : keeps l (@throw world A e).
Proof. apply keeps_pure. now intros w r w' [= _ <-]. Qed.

Lemma keeps_bind {A B} (m : M A) (k : A -> M B) :
  keeps l m -> (forall a, keeps l (k a)) -> keeps l (bind m k).
Proof.
  intros Hm Hk w r w' Hl. unfold bind.
  destruct (m w) as [[a|e|] w1] eqn:E; intros H.
  - pose proof (Hm _ _ _ Hl E) as H1.
    rewrite <- H1. eapply Hk; [|exact H]. now rewrite H1.
  - injection H as _ <-. eapply Hm; eauto.
  - injection H as _ <-. eapply Hm; eauto.
Qed.

Lemma keeps_alloc_bind {B} o (k : loc -> M B) :
  (forall a, a <> l -> keeps l (k a)) -> keeps l (bind (alloc o) k).
Proof.
  intros Hk w r w' Hl. unfold bind, alloc.
  assert (fresh (dom (heap w)) <> l) as Hne.
  { intros E. apply (is_fresh (dom (heap w))). rewrite E.
    now apply elem_of_dom. }
  intros H. apply (Hk _ Hne) in H; simpl in *.
  - now rewrite H, lookup_insert_ne.
  - now rewrite lookup_insert_ne.
Qed.

Lemma keeps_get v k : keeps l (get v k).
Proof. apply keeps_pure. now intros w r w' [= _ <-]. Qed.

Lemma keeps_invoke f args : keeps l (invoke f args).
Proof.
  destruct f; try apply keeps_throw.
  intros w r w' Hl H. simpl in H.
  pose proof (call_untouched f args w Hl) as Hc. now rewrite H in Hc.
Qed.

Lemma keeps_put a k v : a <> l -> keeps l (put a k v).
Proof.
  intros Hne w r w' _. unfold put.
  destruct (heap w !! a); intros [= _ <-]; simpl; [|reflexivity].
  now rewrite lookup_insert_ne.
Qed.

Lemma keeps_set_property a k v :
  a <> l -> keeps l (set_property ObjectPrototype a k v).
Proof.
  intros Hne w r w' _ H.
  pose proof (set_property_frame ObjectPrototype a k v w) as [Hf _].
  rewrite H in Hf. simpl in Hf. apply Hf. congruence.
Qed.

Lemma keeps_warning m : keeps l (warning m).
Proof. apply keeps_pure. now intros w r w' [= _ <-]. Qed.

Lemma keeps_has_type action t : keeps l (Combine.has_type Get action t).
Proof.
  unfold has_type. destruct (truthy action); [|apply keeps_ret].
  apply keeps_bind; [apply keeps_get | intros; apply keeps_ret].
Qed.

Lemma keeps_forEach f ks :
  (forall k, keeps l (f k)) -> keeps l (forEach f ks).
Proof.
  intros Hf. induction ks as [|k ks IH]; simpl; [apply keeps_ret|].
  apply keeps_bind; [apply Hf | intros _; exact IH].
Qed.

Lemma keeps_filterM f ks :
  (forall k, keeps l (f k)) -> keeps l (filterM f ks).
Proof.
  intros Hf. induction ks as [|k ks IH]; simpl; [apply keeps_ret|].
  apply keeps_bind; [apply Hf|]. intros b.
  apply keeps_bind; [exact IH | intros; apply keeps_ret].
Qed.

Lemma keeps_diagnostics state reducers action cache :
  cache <> VObj l ->
  keeps l (getUnexpectedStateShapeWarningMessage state reducers action cache).
Proof.
  intros Hcache. unfold Combine.getUnexpectedStateShapeWarningMessage.
  apply keeps_bind; [apply keeps_has_type|]. intros isInit.
  destruct (bool_decide _); [apply keeps_ret|].
  apply keeps_bind.
  { apply keeps_pure. intros w r w'. unfold isPlain.
    destruct (PlainObject.isPlainObject _ _ _); now intros [= _ <-]. }
  intros plain. destruct (negb plain).
  { apply keeps_pure. now intros w r w' [= _ <-]. }
  apply keeps_bind.
  { apply keeps_pure. intros w r w'. unfold objectKeys.
    destruct state; try now intros [= _ <-].
    destruct (heap w !! _); now intros [= _ <-]. }
  intros stateKeys. apply keeps_bind.
  { apply keeps_filterM. intros k. apply keeps_bind.
    - unfold hasOwnProperty. destruct (assoc _ reducers).
      + apply keeps_bind; [apply keeps_invoke | intros; apply keeps_ret].
      + apply keeps_ret.
    - intros has. destruct (negb has); [|apply keeps_ret].
      apply keeps_bind; [apply keeps_get | intros; apply keeps_ret]. }
  intros unexpectedKeys. apply keeps_bind.
  { apply keeps_forEach. intros k. destruct cache;
      try (apply keeps_pure; now intros w r w' [= _ <-]).
    apply keeps_put. congruence. }
  intros _. apply keeps_bind; [apply keeps_has_type|]. intros isReplace.
  destruct isReplace; [apply keeps_ret|].
  destruct (bool_decide _); apply keeps_ret.
Qed.

Lemma keeps_reduce c ks state action nextState hasChanged :
  nextState <> l -> keeps l (reduce c ks state action nextState hasChanged).
Proof.
  intros Hne. revert hasChanged.
  induction ks as [|k ks IH]; intros hasChanged; simpl; [apply keeps_ret|].
  apply keeps_bind; [apply keeps_get|]. intros prev.
  apply keeps_bind; [apply keeps_invoke|]. intros next.
  destruct (bool_decide _).
  - apply keeps_bind; [|intros; apply keeps_throw].
    unfold Combine.getUndefinedStateErrorMessage.
    apply keeps_bind.
    + destruct (truthy action); [apply keeps_get | apply keeps_ret].
    + intros t. apply keeps_bind; [|intros; apply keeps_ret].
      destruct (truthy t); [|apply keeps_ret].
      apply keeps_bind; [apply String_untouched | intros; apply keeps_ret].
  - apply keeps_bind; [now apply keeps_set_property | intros _; apply IH].
Qed.

Lemma keeps_combination c state0 action :
  unexpectedKeyCache c <> VObj l -> keeps l (combination c state0 action).
Proof.
  intros Hcache. unfold combination, Combine.combination.
  apply keeps_bind.
  { destruct (bool_decide _); [|apply keeps_ret].
    apply keeps_alloc_bind. intros; apply keeps_ret. }
  intros state.
  destruct (shapeAssertionError c) as [e|].
  - destruct (exn_truthy e); [apply keeps_throw|].
    apply keeps_bind.
    { destruct (negb production); [|apply keeps_ret].
      apply keeps_bind; [now apply keeps_diagnostics|].
      intros [m|]; [apply keeps_warning | apply keeps_ret]. }
    intros _. apply keeps_alloc_bind. intros a Ha.
    apply keeps_bind; [now apply keeps_reduce | intros; apply keeps_ret].
  - apply keeps_bind.
    { destruct (negb production); [|apply keeps_ret].
      apply keeps_bind; [now apply keeps_diagnostics|].
      intros [m|]; [apply keeps_warning | apply keeps_ret]. }
    intros _. apply keeps_alloc_bind. intros a Ha.
    apply keeps_bind; [now apply keeps_reduce | intros; apply keeps_ret].
Qed.

End Frame.

(** X15: the combined reducer writes to no object that existed before the
    call, apart from its private cache of reported keys: whatever the call
    does and however it ends, every object that the host code it runs
    (the sub-reducers, and the conversion to a string of the action's
    type for the error message) leaves alone once it exists is the same
    after the call as before.  The host code is free to allocate.  In
    particular the state object it is passed is never modified. *)
Theorem combination_writes_nothing c state0 action l w :
  untouched l ->
  (forall v, keeps l (String_ v)) ->
  unexpectedKeyCache c <> VObj l ->
  is_Some (heap w !! l) ->
  heap (snd (combination c state0 action w)) !! l = heap w !! l.
Proof.
  intros Hcall Hstring Hcache Hl.
  destruct (combination c state0 action w) as [r w'] eqn:E.
  exact (keeps_combination l Hcall Hstring c state0 action Hcache w r w' Hl E).
Qed.

(** *** The diagnostics about unexpected keys *)

Lemma has_type_spec action t w ty :
  type_of_action (heap w) action = Ok ty ->
  Combine.has_type Get action t w
  = (Ok (truthy action && strict_eq ty (VStr t)), w).
Proof.
  unfold type_of_action, has_type, bind, Combine.get, ret.
  destruct (truthy action); simpl; [now intros ->|reflexivity].
Qed.

Lemma filterM_pure (f : string -> M bool) (p : string -> bool) w ks :
  (forall k, k ∈ ks -> f k w = (Ok (p k), w)) ->
  filterM f ks w = (Ok (List.filter p ks), w).
Proof.
  induction ks as [|k ks IH]; intros Hf; simpl; [reflexivity|].
  unfold bind at 1. rewrite (Hf k) by (apply elem_of_cons; now left).
  unfold bind at 1. rewrite IH by (intros; apply Hf, elem_of_cons; now right).
  reflexivity.
Qed.

Lemma forEach_put cl ks :
  forall w p ps,
    heap w !! cl = Some (Object p ps) ->
    forEach (fun key => put cl key (VBool true)) ks w
    = (Ok tt, set_heap (insert cl (Object p (cached ks ps))) w).
Proof.
  induction ks as [|k ks IH]; intros w p ps Hcl; simpl.
  - unfold ret, set_heap. rewrite (insert_id _ _ _ Hcl). now destruct w.
  - unfold bind at 1. unfold put at 1. rewrite Hcl. simpl.
    rewrite (IH _ p (assign k (VBool true) ps)).
    + unfold set_heap. simpl. now rewrite insert_insert_eq.
    + simpl. apply lookup_insert_eq.
Qed.

Lemma cached_assoc_other ks ps k :
  k ∉ ks -> assoc k (cached ks ps) = assoc k ps.
Proof.
  unfold cached. revert ps.
  induction ks as [|k' ks IH]; intros ps Hk; simpl; [reflexivity|].
  apply not_elem_of_cons in Hk as [Hne Hk].
  rewrite IH by exact Hk. apply assoc_assign_ne. congruence.
Qed.

Lemma cached_assoc ks ps k :
  k ∈ ks -> assoc k (cached ks ps) = Some (VBool true).
Proof.
  revert ps.
  induction ks as [|k' ks IH]; intros ps Hin.
  - now apply elem_of_nil in Hin.
  - change (cached (k' :: ks) ps) with (cached ks (assign k' (VBool true) ps)).
    destruct (decide (k ∈ ks)) as [Hk|Hk]; [now apply IH|].
    apply elem_of_cons in Hin as [->|Hin]; [|contradiction].
    rewrite cached_assoc_other by exact Hk. apply assoc_assign_eq.
Qed.

(** X16: what the diagnostics do with a plain state object, for a
    non-empty [reducers] without a key [hasOwnProperty].  The unexpected
    keys are the keys of the state, in their order, that are no key of
    [reducers] and that the cache does not read as truthy; each of them
    is then stored in the cache with the value [true], also when the
    action is the REPLACE action, for which no message is returned.
    Otherwise the message lists exactly these keys, and there is none when
    there are no such keys. *)
Theorem unexpected_keys_cached state cl reducers action w os oc seen t t' :
  keys reducers <> [] ->
  assoc "hasOwnProperty" reducers = None ->
  PlainObject.isPlainObject fuel (heap w) (VObj state) = Some true ->
  heap w !! state = Some os ->
  heap w !! cl = Some oc ->
  (forall k, k ∈ keys (props os) -> Get (heap w) (VObj cl) k = Ok (seen k)) ->
  let uks := unexpected_keys reducers seen (keys (props os)) in
  let w1 := set_heap (insert cl (Object (proto oc) (cached uks (props oc)))) w in
  type_of_action (heap w) action = Ok t ->
  type_of_action (heap w1) action = Ok t' ->
  getUnexpectedStateShapeWarningMessage (VObj state) reducers action (VObj cl) w
  = (Ok (if truthy action && strict_eq t' (VStr REPLACE) then None
         else if bool_decide (0 < length uks)
              then Some (unexpected_keys_message uks (keys reducers)
                           (truthy action && strict_eq t (VStr INIT)))
              else None),
     w1) /\
  forall k, k ∈ uks ->
    exists oc', heap w1 !! cl = Some oc' /\
                assoc k (props oc') = Some (VBool true).
Proof.
  intros Hne Hhas Hplain Hstate Hcl Hseen uks w1 Ht Ht'.
  split.
  - unfold Combine.getUnexpectedStateShapeWarningMessage.
    rewrite (bind_ok _ _ _ _ _ (has_type_spec action INIT w t Ht)).
    rewrite bool_decide_eq_false_2
      by (destruct (keys reducers); [congruence | discriminate]).
    unfold bind at 1. unfold isPlain at 1. rewrite Hplain.
    change (negb true) with false. cbv iota.
    unfold bind at 1. unfold objectKeys at 1. rewrite Hstate.
    assert (filterM
              (fun key =>
                 let! has := hasOwnProperty call reducers key in
                 if negb has
                 then let! seen := get (VObj cl) key in ret (negb (truthy seen))
                 else ret false)
              (keys (props os)) w
            = (Ok uks, w)) as Hfilter.
    { apply filterM_pure. intros k Hk.
      unfold hasOwnProperty. rewrite Hhas. unfold bind, ret.
      destruct (bool_decide (is_Some (assoc k reducers))); simpl;
        [reflexivity|].
      unfold Combine.get. now rewrite (Hseen k Hk). }
    rewrite (bind_ok _ _ _ _ _ Hfilter).
    destruct oc as [p ps].
    rewrite (bind_ok _ _ _ _ _ (forEach_put cl uks w p ps Hcl)).
    rewrite (bind_ok _ _ _ _ _ (has_type_spec action REPLACE _ t' Ht')).
    destruct (truthy action && strict_eq t' (VStr REPLACE)); [reflexivity|].
    destruct (bool_decide (0 < length uks)); reflexivity.
  - intros k Hk. eexists. split; [apply lookup_insert_eq|].
    simpl. now apply cached_assoc.
Qed.

(** *** A reducer that throws while it is probed *)

Local Abbreviation throws := (throws ObjectPrototype call).

Lemma bind_cong {S A B} (m m' : SM S A) (k k' : A -> SM S B) s :
  m s = m' s -> (forall a s', k a s' = k' a s') ->
  bind m k s = bind m' k' s.
Proof.
  unfold bind. intros -> Hk. destruct (m' s) as [[a| |] s']; auto.
Qed.

Lemma reduce_same_reducers c c' state action nextState :
  finalReducers c = finalReducers c' ->
  forall ks hasChanged w,
    reduce c ks state action nextState hasChanged w
    = reduce c' ks state action nextState hasChanged w.
Proof.
  intros Heq ks. induction ks as [|k ks IH]; intros hasChanged w; simpl;
    [reflexivity|].
  unfold bind. rewrite Heq.
  destruct (get state k w) as [[prev| |] w1]; try reflexivity.
  destruct (invoke _ _ w1) as [[next| |] w2]; try reflexivity.
  destruct (bool_decide _); [reflexivity|].
  destruct (set_property ObjectPrototype nextState k next w2)
    as [[[]| |] w3]; try reflexivity.
  apply IH.
Qed.

(** X19: when a reducer throws [e] as [combineReducers] probes it with
    the INIT action (the reducers before it passing both probes, and the
    mapping holding no function under an own key [__proto__]),
    [combineReducers] still returns normally and keeps [e].  If [e] is
    truthy, as every [Error] is, each call of the returned reducer throws
    [e] before it does anything else.  If [e] is a falsy value
    ([throw null], [throw 0], ...), the test [if (shapeAssertionError)]
    fails and the returned reducer runs as if the validation had
    passed. *)
Theorem combineReducers_defers_exception reducers o w ks1 key ks2 e :
  heap w !! reducers = Some o ->
  no_proto_reducer (props o) ->
  keys (retained (props o)) = (ks1 ++ key :: ks2)%list ->
  (forall k, k ∈ ks1 -> well_behaved (own (retained (props o)) k)) ->
  throws (own (retained (props o)) key) INIT e ->
  exists c w',
    combineReducers reducers w = (Ok c, w') /\
    shapeAssertionError c = Some e /\
    (exn_truthy e = true ->
     forall state action w1,
       exists w2, combination c state action w1 = (Throw e, w2)) /\
    (exn_truthy e = false ->
     forall state action w1,
       combination c state action w1
       = combination (without_shape_error c) state action w1).
Proof.
  intros Hheap Hnp Hkeys Hgood Hbad.
  unfold combineReducers, Combine.combineReducers.
  unfold bind at 1. unfold objectKeys. rewrite Hheap. cbv beta zeta.
  rewrite Hheap.
  destruct (collect_retain (props o) (keys (props o)) [] w Hnp)
    as (w1 & Hcollect & _).
  fold (retained (props o)) in Hcollect.
  rewrite (bind_ok _ _ _ _ _ Hcollect).
  set (cache := if negb production
                then let! c := alloc (Object (Some ObjectPrototype) []) in
                     ret (VObj c)
                else ret VUndefined).
  assert (exists v w2, cache w1 = (Ok v, w2)) as (v & w2 & Hcache).
  { unfold cache. destruct (negb production); now eexists _, _. }
  rewrite (bind_ok _ _ _ _ _ Hcache).
  assert (exists w3, assertReducerShape (retained (props o)) w2 = (Throw e, w3))
    as (w3 & Hshape).
  { unfold assertReducerShape, Combine.assertReducerShape. rewrite Hkeys.
    apply forEach_first_failure.
    - intros k' w0 Hin. now apply assertOne_pass, Hgood.
    - intros w0. unfold assertOne, Combine.assertOne.
      destruct (action_of_spec INIT w0) as (a & w4 & Ha & Hact & _).
      rewrite (bind_ok _ _ _ _ _ Ha).
      destruct (Hbad a w4 Hact) as (w5 & Hv).
      rewrite (bind_throw _ _ _ _ _ Hv). now eexists. }
  unfold bind at 1. unfold try_catch.
  rewrite (bind_throw _ _ _ _ _ Hshape). simpl.
  eexists _, w3. split; [reflexivity|]. split; [reflexivity|]. split.
  - intros Htruthy state action w0.
    unfold combination, Combine.combination. simpl. rewrite Htruthy.
    destruct (bool_decide (state = VUndefined)); eexists; reflexivity.
  - intros Hfalsy state action w0.
    rewrite !combination_prologue. unfold without_shape_error. simpl.
    apply bind_cong.
    { unfold prologue, Combine.prologue. simpl. now rewrite Hfalsy. }
    intros state1 wa. apply bind_cong; [reflexivity|].
    intros nextState wb. apply bind_cong; [|reflexivity].
    now apply reduce_same_reducers.
Qed.

(** *** Production mode *)

Section Silent.

Hypothesis call_silent :
  forall f args w, console (snd (call f args w)) = console w.
Hypothesis String_silent :
  forall v w, console (snd (String_ v w)) = console w.
Hypothesis in_production : production = true.

Lemma silent_ret {A} (a : A) : silent (ret a).
Proof. now intros w r w' [= _ <-]. Qed.

Lemma silent_throw {A} e : silent (@throw world A e).
Proof. now intros w r w' [= _ <-]. Qed.

Lemma silent_bind {A B} (m : M A) (k : A -> M B) :
  silent m -> (forall a, silent (k a)) -> silent (bind m k).
Proof.
  intros Hm Hk w r w'. unfold bind.
  destruct (m w) as [[a|e|] w1] eqn:E; intros H.
  - rewrite <- (Hm _ _ _ E). eapply Hk, H.
  - injection H as _ <-. eapply Hm, E.
  - injection H as _ <-. eapply Hm, E.
Qed.

Lemma silent_alloc o : silent (alloc o).
Proof. now intros w r w' [= _ <-]. Qed.

Lemma silent_put a k v : silent (put a k v).
Proof.
  intros w r w'. unfold put. destruct (heap w !! a); now intros [= _ <-].
Qed.

Lemma silent_set_property a k v : silent (set_property ObjectPrototype a k v).
Proof.
  intros w r w' H.
  pose proof (set_property_frame ObjectPrototype a k v w) as (_ & _ & _ & Hc).
  now rewrite H in Hc.
Qed.

Lemma silent_get v k : silent (get v k).
Proof. now intros w r w' [= _ <-]. Qed.

Lemma silent_invoke f args : silent (invoke f args).
Proof.
  destruct f; try apply silent_throw.
  intros w r w' H. simpl in H.
  pose proof (call_silent f args w) as Hc. now rewrite H in Hc.
Qed.

Lemma silent_action_of t : silent (action_of t).
Proof.
  apply silent_bind; [apply silent_alloc | intros; apply silent_ret].
Qed.

Lemma silent_forEach f ks : (forall k, silent (f k)) -> silent (forEach f ks).
Proof.
  intros Hf. induction ks as [|k ks IH]; simpl; [apply silent_ret|].
  apply silent_bind; [apply Hf | intros _; exact IH].
Qed.

Lemma silent_assertReducerShape reducers :
  silent (assertReducerShape reducers).
Proof.
  apply silent_forEach. intros k. unfold Combine.assertOne.
  apply silent_bind; [apply silent_action_of|]. intros a.
  apply silent_bind; [apply silent_invoke|]. intros v.
  destruct (bool_decide _); [apply silent_throw|].
  apply silent_bind; [now intros w r w' [= _ <-]|]. intros t.
  apply silent_bind; [apply silent_action_of|]. intros a'.
  apply silent_bind; [apply silent_invoke|]. intros v'.
  destruct (bool_decide _); [apply silent_throw | apply silent_ret].
Qed.

Lemma silent_collect reducers reducerKeys finalReducers under_function :
  silent (collect reducers reducerKeys finalReducers under_function).
Proof.
  revert finalReducers under_function. induction reducerKeys as [|k ks IH];
    intros finalReducers under_function; simpl; [apply silent_ret|].
  assert (negb production = false) as -> by now rewrite in_production.
  apply silent_bind; [apply silent_ret | intros _].
  destruct (bool_decide _); [|apply IH].
  destruct (_ && _); [|apply IH].
  now intros w r w' [= _ <-].
Qed.

Lemma silent_combineReducers reducers : silent (combineReducers reducers).
Proof.
  unfold Combine.combineReducers.
  intros w r w'. unfold bind at 1. unfold objectKeys.
  destruct (heap w !! reducers) as [o|] eqn:Hheap; [|now intros [= _ <-]].
  cbv beta zeta. rewrite Hheap. clear Hheap. revert w r w'.
  change (silent
            (let! finalReducers :=
               collect (props o) (keys (props o)) [] false in
             let! unexpectedKeyCache :=
               (if negb production
                then let! c := alloc (Object (Some ObjectPrototype) []) in
                     ret (VObj c)
                else ret VUndefined) in
             let! shapeAssertionError :=
               try_catch (assertReducerShape finalReducers ;; ret None)
                         (fun e => ret (Some e)) in
             ret (Combined finalReducers (keys finalReducers)
                           unexpectedKeyCache shapeAssertionError))).
  apply silent_bind; [apply silent_collect|]. intros finalReducers.
  apply silent_bind.
  { assert (negb production = false) as -> by now rewrite in_production.
    apply silent_ret. }
  intros cache. apply silent_bind; [|intros; apply silent_ret].
  intros w r w'. unfold try_catch, bind.
  pose proof (silent_assertReducerShape finalReducers w) as Hs.
  destruct (assertReducerShape finalReducers w) as [[[]| |] w1];
    intros [= _ <-]; eapply Hs; reflexivity.
Qed.

Lemma silent_reduce c ks state action nextState hasChanged :
  silent (reduce c ks state action nextState hasChanged).
Proof.
  revert hasChanged.
  induction ks as [|k ks IH]; intros hasChanged; simpl; [apply silent_ret|].
  apply silent_bind; [apply silent_get|]. intros prev.
  apply silent_bind; [apply silent_invoke|]. intros next.
  destruct (bool_decide _).
  - apply silent_bind; [|intros; apply silent_throw].
    unfold Combine.getUndefinedStateErrorMessage.
    apply silent_bind.
    + destruct (truthy action); [apply silent_get | apply silent_ret].
    + intros t. apply silent_bind; [|intros; apply silent_ret].
      destruct (truthy t); [|apply silent_ret].
      apply silent_bind; [|intros; apply silent_ret].
      intros w r w' H. pose proof (String_silent t w) as Hs.
      now rewrite H in Hs.
  - apply silent_bind; [apply silent_set_property | intros _; apply IH].
Qed.

Lemma silent_combination c state0 action :
  silent (combination c state0 action).
Proof.
  unfold Combine.combination.
  apply silent_bind.
  { destruct (bool_decide _); [|apply silent_ret].
    apply silent_bind; [apply silent_alloc | intros; apply silent_ret]. }
  intros state.
  assert (negb production = false) as -> by now rewrite in_production.
  assert (silent
            (ret tt ;;
             let! nextState := alloc (Object (Some ObjectPrototype) []) in
             let! hasChanged :=
               reduce c (finalReducerKeys c) state action nextState false in
             ret (if hasChanged then VObj nextState else state))) as Hrest.
  { apply silent_bind; [apply silent_ret|]. intros _.
    apply silent_bind; [apply silent_alloc|]. intros nextState.
    apply silent_bind; [apply silent_reduce | intros; apply silent_ret]. }
  destruct (shapeAssertionError c) as [e|]; [|exact Hrest].
  destruct (exn_truthy e); [apply silent_throw | exact Hrest].
Qed.

End Silent.

(** X21: in production, neither [combineReducers] nor the reducer it
    returns writes to the console: when the reducers they call write
    nothing, the console is the same after the call as before, whatever
    the arguments and the outcome.  No warning is given for a missing
    reducer, for a mapping without reducers or for unexpected keys.  (The
    reducer returned also runs [String] on the type of an action for
    which a reducer returns [undefined]; that conversion is host code as
    well, and must write nothing either.) *)
Theorem production_is_silent :
  production = true ->
  (forall f args w, console (snd (call f args w)) = console w) ->
  (forall reducers w,
     console (snd (combineReducers reducers w)) = console w) /\
  ((forall v w, console (snd (String_ v w)) = console w) ->
   forall c state action w,
     console (snd (combination c state action w)) = console w).
Proof.
  intros Hprod Hcall. split.
  - intros reducers w.
    destruct (combineReducers reducers w) as [r w'] eqn:E.
    exact (silent_combineReducers Hcall Hprod reducers w r w' E).
  - intros Hstring c state action w.
    destruct (combination c state action w) as [r w'] eqn:E.
    exact (silent_combination Hcall Hstring Hprod c state action w r w' E).
Qed.

End CombineFacts.
End CombineFacts.


Module CombineWitnesses.
Import JS Combine CombineFacts CombineSample.

Local Abbreviation combination :=
  (Combine.combination Sample.INIT Sample.REPLACE false Sample.ObjectPrototype
     Sample.Get Sample.String_ Sample.classOf Sample.call 4).

Example combine_sample :
  fst (combineReducers 3%positive Sample.world0)
  = Ok (Combined [("a", VFun (Native 0)); ("c", VFun (Native 2))] ["a"; "c"]
                 (VObj 9%positive) None).
Proof. vm_compute. reflexivity. Qed.

Lemma counter_well_behaved :
  well_behaved Sample.INIT Sample.PROBE_UNKNOWN_ACTION Sample.ObjectPrototype
    Sample.call (VFun (Native 0)).
Proof.
  split; [|intros n]; intros a w _; simpl; unfold Sample.call; simpl;
    destruct (strict_eq _ _); eexists _, _; (split; [reflexivity | discriminate]).
Qed.

(** A host whose functions allocate, as a reducer that returns a new
    object does, leaves alone every object that is allocated already. *)
Example allocating_call_untouched l :
  untouched
    (fun _ _ => bind (alloc (Object (Some Sample.ObjectPrototype) []))
                     (fun a => ret (VObj a)))
    l.
Proof.
  intros f args w [o Ho]. unfold bind, alloc. simpl.
  apply lookup_insert_ne. intros E.
  apply (is_fresh (dom (heap w))). rewrite E. apply elem_of_dom. now exists o.
Qed.

Lemma combineReducers_defers_shape_error_witness :
  (forall e w', combineReducers 2%positive Sample.world0 <> (Throw e, w')) /\
  exists c w' e,
    combineReducers 2%positive Sample.world0 = (Ok c, w') /\
    (e = Combine.initError "b" \/ e = Combine.probeError Sample.INIT "b") /\
    forall state action w1,
      exists w2, combination c state action w1 = (Throw e, w2).
Proof.
  apply (combineReducers_defers_shape_error
           Sample.INIT Sample.REPLACE Sample.PROBE_UNKNOWN_ACTION false
           Sample.ObjectPrototype Sample.Get Sample.String_ Sample.classOf
           Sample.call 4 2%positive
           (Object (Some 1%positive)
                   [("a", VFun (Native 0)); ("b", VFun (Native 1))])
           Sample.world0 ["a"] "b" []).
  - vm_compute. reflexivity.
  - discriminate.
  - reflexivity.
  - intros k Hk. apply list_elem_of_singleton in Hk as ->.
    exact counter_well_behaved.
  - left. intros a w _. eexists _, _. split; reflexivity.
Defined.

(** C3, the part that fails: in the mapping [{ x, b }], the reducer [b]
    returns [undefined] on every probe, but [x], which comes before it,
    throws when it is probed.  [assertReducerShape] stops there: it is the
    exception of [x] that is stored and that every call of the combined
    reducer throws, and no error names [b]. *)
Lemma shape_error_of_an_earlier_reducer :
  let w := MixedSample.shadowed_world in
  heap w !! 15%positive
  = Some (Object (Some 1%positive)
                 [("x", VFun (Native 7)); ("b", VFun (Native 1))]) /\
  offending Sample.INIT Sample.PROBE_UNKNOWN_ACTION Sample.ObjectPrototype
    Sample.call (VFun (Native 1)) /\
  exists c w',
    combineReducers 15%positive w = (Ok c, w') /\
    (forall state action w1,
       exists w2,
         combination c state action w1
         = (Throw (TypeError "is not a function"), w2)) /\
    ~ (exists e,
         (e = Combine.initError "b" \/ e = Combine.probeError Sample.INIT "b") /\
         forall state action w1,
           exists w2, combination c state action w1 = (Throw e, w2)).
Proof.
  split; [vm_compute; reflexivity|]. split.
  { left. intros a w _. eexists _, _. split; reflexivity. }
  eexists _, _. split; [vm_compute; reflexivity|].
  assert (forall state action w1,
            exists w2,
              combination
                (Combined [("x", VFun (Native 7)); ("b", VFun (Native 1))]
                          ["x"; "b"] (VObj 16%positive)
                          (Some (TypeError "is not a function")))
                state action w1
              = (Throw (TypeError "is not a function"), w2)) as Hthrows.
  { intros state action w1. unfold Combine.combination. simpl.
    destruct (bool_decide (state = VUndefined)); eexists; reflexivity. }
  split; [exact Hthrows|].
  intros (e & He & Hall).
  destruct (Hall VUndefined VUndefined Sample.world0) as (w2 & H2).
  destruct (Hthrows VUndefined VUndefined Sample.world0) as (w3 & H3).
  rewrite H3 in H2. destruct He as [-> | ->]; discriminate.
Qed.

Lemma picky_combineReducers :
  combineReducers 3%positive Sample.world0 = (Ok picky_combined, picky_world).
Proof. vm_compute. reflexivity. Qed.

Lemma combination_undefined_output_witness :
  exists w2,
    combination picky_combined (VObj 4%positive) (VObj 7%positive) picky_world
    = (Throw (Error (undefined_message
                       ("action " ++ dq ++ "BAD" ++ dq) "c")), w2).
Proof.
  eexists.
  refine (proj1 (proj2 (combination_undefined_output
            Sample.INIT Sample.REPLACE false Sample.ObjectPrototype
            Sample.Get Sample.String_ Sample.classOf Sample.call 4
            picky_combined (VObj 4%positive) (VObj 7%positive) picky_world
            (VObj 4%positive) picky_world ["a"] "c" []
            [("a", VNum 5, VNum 5)] _ (VNum 7) _ (VStr "BAD")
            _ _ _ _ _ _)) eq_refl "BAD" _ _).
  - vm_compute. reflexivity.
  - reflexivity.
  - vm_compute. reflexivity.
  - vm_compute. reflexivity.
  - vm_compute. reflexivity.
  - vm_compute. reflexivity.
  - vm_compute. reflexivity.
Defined.

(** C8, the part that fails: the [type] of the action at 21 is an object
    without prototype, which [String] cannot convert.  The reducer [d]
    returns [undefined] for that action, and the call of the combined
    reducer throws the [TypeError] of the conversion: no [Error] whose
    message names [d] or describes the action. *)
Lemma undefined_output_without_message :
  let w := ExoticSample.exotic_world in
  let combine :=
    Combine.combineReducers Sample.INIT Sample.PROBE_UNKNOWN_ACTION false
      Sample.ObjectPrototype ExoticSample.call in
  let combined :=
    Combine.combination Sample.INIT Sample.REPLACE false Sample.ObjectPrototype
      Sample.Get Sample.String_ Sample.classOf ExoticSample.call 4 in
  Sample.Get (heap w) (VObj 21%positive) "type" = Ok (VObj 20%positive) /\
  heap w !! 20%positive = Some (Object None []) /\
  exists c w1,
    combine 22%positive w = (Ok c, w1) /\
    shapeAssertionError c = None /\
    fst (ExoticSample.call (Native 3) [VNum 7; VObj 21%positive] w1)
    = Ok VUndefined /\
    fst (combined c (VObj 23%positive) (VObj 21%positive) w1)
    = Throw (TypeError "Cannot convert object to primitive value") /\
    ~ (exists description,
         fst (combined c (VObj 23%positive) (VObj 21%positive) w1)
         = Throw (Error (undefined_message description "d"))).
Proof.
  split; [vm_compute; reflexivity|]. split; [vm_compute; reflexivity|].
  eexists _, _. split; [vm_compute; reflexivity|].
  split; [reflexivity|]. split; [vm_compute; reflexivity|].
  split; [vm_compute; reflexivity|].
  intros (description & H). vm_compute in H. discriminate.
Qed.

Lemma sample_call_untouched l : untouched Sample.call l.
Proof.
  intros f args w _. unfold Sample.call.
  destruct f as [[|[|[|n]]]|]; simpl; try reflexivity;
    destruct (strict_eq _ _); reflexivity.
Qed.

Lemma combination_referential_stability_witness :
  (exists w1,
     combination picky_combined (VObj 4%positive) (VObj 5%positive) picky_world
     = (Ok (VObj 4%positive), w1)) /\
  (exists l w1 o,
     combination picky_combined (VObj 4%positive) (VObj 6%positive) picky_world
     = (Ok (VObj l), w1) /\
     heap picky_world !! l = None /\
     heap w1 !! l = Some o /\
     keys (props o) = ["a"; "c"] /\
     assoc "a" (props o) = Some (VNum 6) /\
     assoc "c" (props o) = Some (VNum 7)).
Proof.
  split.
  - eexists.
    refine (proj1 (proj2 (combination_referential_stability
              Sample.INIT Sample.REPLACE Sample.PROBE_UNKNOWN_ACTION false
              Sample.ObjectPrototype Sample.Get Sample.String_ Sample.classOf
              Sample.call 4 3%positive Sample.world0 picky_combined picky_world
              4%positive (VObj 5%positive) picky_world (VObj 4%positive)
              picky_world [("a", VNum 5, VNum 5); ("c", VNum 7, VNum 7)] _
              picky_combineReducers _ _)) _).
    + vm_compute. reflexivity.
    + vm_compute. reflexivity.
    + reflexivity.
  - destruct (combination_referential_stability
              Sample.INIT Sample.REPLACE Sample.PROBE_UNKNOWN_ACTION false
              Sample.ObjectPrototype Sample.Get Sample.String_ Sample.classOf
              Sample.call 4 3%positive Sample.world0 picky_combined picky_world
              4%positive (VObj 6%positive) picky_world (VObj 4%positive)
              picky_world [("a", VNum 5, VNum 6); ("c", VNum 7, VNum 7)]
              (snd (combination picky_combined (VObj 4%positive)
                      (VObj 6%positive) picky_world))
              picky_combineReducers)
      as (_ & _ & Hnew).
    + vm_compute. reflexivity.
    + vm_compute. reflexivity.
    + destruct (Hnew eq_refl) as (Hrun & Hfresh & Hrecord).
      destruct (Hrecord (sample_call_untouched _)) as (o & Ho & _ & Hkeys & Hget).
      eexists _, _, o. split; [exact Hrun|]. split; [exact Hfresh|].
      split; [exact Ho|]. split; [exact Hkeys|]. split.
      * apply (Hget "a" (VNum 5)). left.
      * apply (Hget "c" (VNum 7)). right. left.
Defined.

Lemma combineReducers_keeps_functions_witness :
  functions_of MixedSample.mixed = [("a", VFun (Native 0))] /\
  Combine.collect false MixedSample.mixed (keys MixedSample.mixed) [] false
    MixedSample.mixed_world
  = (Ok (functions_of MixedSample.mixed),
     World (heap MixedSample.mixed_world) (closures MixedSample.mixed_world)
           (draws MixedSample.mixed_world)
           (console MixedSample.mixed_world
            ++ missing_reducer_warnings false MixedSample.mixed)%list) /\
  missing_reducer_warnings false MixedSample.mixed
  = ["No reducer provided for key " ++ dq ++ "u" ++ dq] /\
  exists c w',
    combineReducers 17%positive MixedSample.own_proto_world = (Ok c, w') /\
    finalReducers c = [("a", VFun (Native 0))].
Proof.
  split; [vm_compute; reflexivity|]. split; [|split; [vm_compute; reflexivity|]].
  - refine (proj1 (combineReducers_keeps_functions
                     Sample.INIT Sample.PROBE_UNKNOWN_ACTION false
                     Sample.ObjectPrototype Sample.call 10%positive
                     (Object (Some 1%positive) MixedSample.mixed)
                     MixedSample.mixed_world _ _) _).
    + vm_compute. reflexivity.
    + simpl. repeat (apply NoDup_cons; split;
        [intros H; repeat (apply elem_of_cons in H as [H|H]; [discriminate|]);
         now apply elem_of_nil in H|]).
      apply NoDup_nil_2.
    + discriminate.
  - eexists _, _. split; [vm_compute; reflexivity|].
    refine (proj1 (proj2 (combineReducers_keeps_functions
                     Sample.INIT Sample.PROBE_UNKNOWN_ACTION false
                     Sample.ObjectPrototype Sample.call 17%positive
                     (Object (Some 1%positive)
                             [("a", VFun (Native 0));
                              ("__proto__", VFun (Native 0))])
                     MixedSample.own_proto_world _ _) _ _ _)).
    + vm_compute. reflexivity.
    + simpl. repeat (apply NoDup_cons; split;
        [intros H; repeat (apply elem_of_cons in H as [H|H]; [discriminate|]);
         now apply elem_of_nil in H|]).
      apply NoDup_nil_2.
    + vm_compute. reflexivity.
Defined.

Lemma combineReducers_accepts_witness :
  exists c w',
    Combine.combineReducers Sample.INIT Sample.PROBE_UNKNOWN_ACTION false
      Sample.ObjectPrototype Sample.call 10%positive MixedSample.mixed_world
    = (Ok c, w') /\
    shapeAssertionError c = None /\
    finalReducers c = [("a", VFun (Native 0))] /\
    finalReducerKeys c = ["a"].
Proof.
  refine (combineReducers_accepts
            Sample.INIT Sample.PROBE_UNKNOWN_ACTION false
            Sample.ObjectPrototype Sample.call 10%positive
            (Object (Some 1%positive) MixedSample.mixed)
            MixedSample.mixed_world _ _ _).
  - vm_compute. reflexivity.
  - discriminate.
  - intros k Hk. apply list_elem_of_singleton in Hk as ->.
    exact counter_well_behaved.
Defined.

Lemma combineReducers_without_reducers_witness :
  exists c w',
    Combine.combineReducers Sample.INIT Sample.PROBE_UNKNOWN_ACTION false
      Sample.ObjectPrototype Sample.call 11%positive MixedSample.mixed_world
    = (Ok c, w') /\
    fst (combination c (VObj 4%positive) (VObj 6%positive) w')
    = Ok (VObj 4%positive).
Proof.
  destruct (combineReducers_without_reducers
              Sample.INIT Sample.REPLACE Sample.PROBE_UNKNOWN_ACTION false
              Sample.ObjectPrototype Sample.Get Sample.String_ Sample.classOf
              Sample.call 4 11%positive
              (Object (Some 1%positive) [("v", VNum 3)])
              MixedSample.mixed_world)
    as (c & w' & Hc & Hrun).
  - vm_compute. reflexivity.
  - reflexivity.
  - exists c, w'. split; [exact Hc|].
    rewrite (Hrun (VObj 4%positive) (VObj 6%positive) w');
      [reflexivity | discriminate |].
    intros _. vm_compute in Hc. injection Hc as _ <-.
    eexists. vm_compute. reflexivity.
Defined.

Lemma sample_String_same_world v w : snd (Sample.String_ v w) = w.
Proof.
  unfold Sample.String_. destruct v; try reflexivity.
  destruct (heap w !! l) as [[[[q|f]|] ps]|]; reflexivity.
Qed.

Lemma combination_writes_nothing_witness :
  heap (snd (combination picky_combined (VObj 4%positive) (VObj 6%positive)
               picky_world)) !! 4%positive
  = heap picky_world !! 4%positive.
Proof.
  apply (combination_writes_nothing
           Sample.INIT Sample.REPLACE false Sample.ObjectPrototype Sample.Get
           Sample.String_ Sample.classOf Sample.call 4 picky_combined
           (VObj 4%positive) (VObj 6%positive) 4%positive picky_world).
  - apply sample_call_untouched.
  - intros v w r w' _ H. pose proof (sample_String_same_world v w) as Hs.
    rewrite H in Hs. simpl in Hs. now subst.
  - discriminate.
  - vm_compute. eexists. reflexivity.
Defined.

Lemma unexpected_keys_cached_witness :
  fst (Combine.getUnexpectedStateShapeWarningMessage
         Sample.INIT Sample.REPLACE Sample.Get Sample.classOf Sample.call 4
         (VObj 12%positive) [("a", VFun (Native 0))] (VObj 5%positive)
         (VObj 13%positive) MixedSample.mixed_world)
  = Ok (Some (unexpected_keys_message ["zzz"] ["a"] false)).
Proof.
  destruct (unexpected_keys_cached
              Sample.INIT Sample.REPLACE Sample.Get Sample.classOf Sample.call
              4 12%positive 13%positive [("a", VFun (Native 0))]
              (VObj 5%positive) MixedSample.mixed_world
              (Object (Some 1%positive)
                      [("a", VNum 5); ("zzz", VNum 1); ("yyy", VNum 2)])
              (Object (Some 1%positive) [("yyy", VBool true)])
              MixedSample.seen (VStr "NOP") (VStr "NOP"))
    as [H _].
  - discriminate.
  - reflexivity.
  - vm_compute. reflexivity.
  - vm_compute. reflexivity.
  - vm_compute. reflexivity.
  - intros k _. vm_compute. reflexivity.
  - vm_compute. reflexivity.
  - vm_compute. reflexivity.
  - rewrite H. vm_compute. reflexivity.
Defined.

Lemma combineReducers_defers_exception_witness :
  exists c w',
    Combine.combineReducers Sample.INIT Sample.PROBE_UNKNOWN_ACTION false
      Sample.ObjectPrototype Sample.call 14%positive MixedSample.mixed_world
    = (Ok c, w') /\
    shapeAssertionError c = Some (TypeError "is not a function") /\
    forall state action w1,
      exists w2,
        combination c state action w1
        = (Throw (TypeError "is not a function"), w2).
Proof.
  destruct (combineReducers_defers_exception
              Sample.INIT Sample.REPLACE Sample.PROBE_UNKNOWN_ACTION false
              Sample.ObjectPrototype Sample.Get Sample.String_ Sample.classOf
              Sample.call 4 14%positive
              (Object (Some 1%positive) [("x", VFun (Native 7))])
              MixedSample.mixed_world [] "x" []
              (TypeError "is not a function"))
    as (c & w' & H1 & H2 & H3 & _).
  - vm_compute. reflexivity.
  - discriminate.
  - reflexivity.
  - intros k Hk. now apply elem_of_nil in Hk.
  - intros a w _. eexists. reflexivity.
  - exists c, w'. split; [exact H1|]. split; [exact H2|]. now apply H3.
Defined.

Lemma sample_call_silent f args w :
  console (snd (Sample.call f args w)) = console w.
Proof.
  unfold Sample.call.
  destruct f as [[|[|[|n]]]|]; simpl; try reflexivity;
    destruct (strict_eq _ _); reflexivity.
Qed.

Lemma production_is_silent_witness :
  console (snd (Combine.combineReducers Sample.INIT Sample.PROBE_UNKNOWN_ACTION
                  true Sample.ObjectPrototype Sample.call 10%positive
                  MixedSample.mixed_world))
  = console MixedSample.mixed_world /\
  console (snd (Combine.combination Sample.INIT Sample.REPLACE true
                  Sample.ObjectPrototype Sample.Get Sample.String_
                  Sample.classOf Sample.call 4 picky_combined
                  (VObj 4%positive) (VObj 7%positive) picky_world))
  = console picky_world.
Proof.
  pose proof (production_is_silent
                Sample.INIT Sample.REPLACE Sample.PROBE_UNKNOWN_ACTION true
                Sample.ObjectPrototype Sample.Get Sample.String_
                Sample.classOf Sample.call 4 eq_refl sample_call_silent)
    as [H1 H2].
  split; [apply H1|].
  apply H2. intros v w. exact (f_equal console (sample_String_same_world v w)).
Defined.

End CombineWitnesses.

(** ** createStore *)

Module StoreFacts.
Import JS Store MonadFacts.
Local Open Scope js_scope.

(** C7: while [isDispatching] is set, that is, while the reducer runs,
    [getState], [subscribe] of a callable listener and the first call of an
    [unsubscribe] closure throw their re-entrancy error and leave the
    store as it is; while it is clear, they complete normally. *)
Theorem reentrancy_guard (s : sys) :
  (isDispatching (the_store s) = true ->
     getState s = (Throw getState_while_dispatching, s) /\
     (forall listener, typeof listener = TFunction ->
        subscribe listener s = (Throw subscribe_while_dispatching, s)) /\
     (forall u listener,
        unsubscribers (the_store s) !! u = Some (listener, true) ->
        unsubscribe u s = (Throw unsubscribe_while_dispatching, s))) /\
  (isDispatching (the_store s) = false ->
     getState s = (Ok (currentState (the_store s)), s) /\
     (forall listener, typeof listener = TFunction ->
        exists s',
          subscribe listener s = (Ok (length (unsubscribers (the_store s))), s')) /\
     (forall u listener b,
        unsubscribers (the_store s) !! u = Some (listener, b) ->
        exists s', unsubscribe u s = (Ok tt, s'))).
Proof.
  split; intros Hflag.
  - split; [|split].
    + unfold getState. now rewrite Hflag.
    + intros listener Hfun. unfold subscribe.
      rewrite bool_decide_eq_false_2 by (intros H; now apply H).
      now rewrite Hflag.
    + intros u listener Hu. unfold unsubscribe. rewrite Hu. simpl.
      now rewrite Hflag.
  - split; [|split].
    + unfold getState. now rewrite Hflag.
    + intros listener Hfun. unfold subscribe.
      rewrite bool_decide_eq_false_2 by (intros H; now apply H).
      rewrite Hflag. eexists. f_equal. f_equal.
      unfold ensureCanMutateNextListeners.
      destruct (bool_decide _); reflexivity.
    + intros u listener b Hu. unfold unsubscribe. rewrite Hu.
      destruct b; simpl; [rewrite Hflag|]; now eexists.
Qed.

(** *** The listener arrays *)

Lemma extends_refl t : wf t -> extends t t.
Proof. intros Hwf. split; [exact Hwf|]. intros a Ha. now split. Qed.

Lemma extends_trans t1 t2 t3 : extends t1 t2 -> extends t2 t3 -> extends t1 t3.
Proof.
  intros [_ H12] [Hwf H23]. split; [exact Hwf|].
  intros a Ha. destruct (H12 a Ha) as [Ha2 E12].
  destruct (H23 a Ha2) as [Ha3 E23]. split; [exact Ha3 | congruence].
Qed.

Lemma stable_ret {A} (a : A) : stable (ret a).
Proof. intros s r s' Hwf [= _ <-]. now apply extends_refl. Qed.

Lemma stable_throw {A} e : stable (@throw sys A e).
Proof. intros s r s' Hwf [= _ <-]. now apply extends_refl. Qed.

Lemma stable_stuck {A} : stable (@stuck sys A).
Proof. intros s r s' Hwf [= _ <-]. now apply extends_refl. Qed.

Lemma stable_bind {A B} (m : SM sys A) (k : A -> SM sys B) :
  stable m -> (forall a, stable (k a)) -> stable (bind m k).
Proof.
  intros Hm Hk s r s' Hwf. unfold bind.
  destruct (m s) as [[a|e|] s1] eqn:E; intros H.
  - pose proof (Hm _ _ _ Hwf E) as H1.
    eapply extends_trans; [exact H1|]. eapply Hk; [apply H1 | exact H].
  - injection H as _ <-. eapply Hm; eauto.
  - injection H as _ <-. eapply Hm; eauto.
Qed.

Lemma stable_observe {A B} (m : SM sys A) (k : res A -> SM sys B) :
  stable m -> (forall r, stable (k r)) -> stable (observe m k).
Proof.
  intros Hm Hk s r s' Hwf. unfold observe.
  destruct (m s) as [[a|e|] s1] eqn:E; intros H.
  - pose proof (Hm _ _ _ Hwf E) as H1.
    eapply extends_trans; [exact H1|]. eapply Hk; [apply H1 | exact H].
  - pose proof (Hm _ _ _ Hwf E) as H1.
    eapply extends_trans; [exact H1|]. eapply Hk; [apply H1 | exact H].
  - injection H as _ <-. eapply Hm; eauto.
Qed.

Lemma stable_in_world {A} (m : M A) : stable (in_world m).
Proof.
  intros s r s' Hwf. unfold in_world.
  destruct (m (the_world s)) as [r0 w']. intros [= _ <-]. now apply extends_refl.
Qed.

Lemma stable_getState : stable getState.
Proof.
  intros s r s' Hwf. unfold getState.
  destruct (isDispatching (the_store s)); intros [= _ <-]; now apply extends_refl.
Qed.

(** What [ensureCanMutateNextListeners] achieves. *)
Lemma ensure_spec t :
  wf t ->
  let t1 := ensureCanMutateNextListeners t in
  wf t1 /\
  nextListeners t1 <> currentListeners t1 /\
  currentListeners t1 = currentListeners t /\
  contents t1 (nextListeners t1) = contents t (nextListeners t) /\
  length (arrays t) <= length (arrays t1) /\
  (forall a, a < length (arrays t) -> arrays t1 !! a = arrays t !! a) /\
  (forall a, frozen t a -> a <> nextListeners t1).
Proof.
  intros [Hn Hc]. unfold ensureCanMutateNextListeners.
  destruct (bool_decide_reflect (nextListeners t = currentListeners t)) as [E|E];
    destruct t as [r st cl nl d arrs us]; simpl in *.
  - subst nl. unfold wf, contents; simpl. rewrite length_app. simpl.
    repeat split; try lia.
    + rewrite lookup_app_r by lia. now rewrite Nat.sub_diag.
    + intros a Ha. now apply lookup_app_l.
    + intros a [Ha _]. simpl in Ha. lia.
  - unfold wf; simpl. repeat split; auto.
    intros a [_ [Ha|Ha]]; simpl in *; congruence.
Qed.

Lemma stable_subscribe listener : stable (subscribe listener).
Proof.
  intros s r s' Hwf. unfold subscribe.
  destruct (bool_decide _); [intros [= _ <-]; now apply extends_refl|].
  destruct (isDispatching (the_store s));
    [intros [= _ <-]; now apply extends_refl|].
  intros [= _ <-]. simpl.
  destruct (ensure_spec (the_store s) Hwf)
    as ([Hn1 Hc1] & Hne & Hcur & _ & Hlen & Hsame & Hfrozen).
  set (t1 := ensureCanMutateNextListeners (the_store s)) in *.
  destruct t1 as [r1 st1 cl1 nl1 d1 arrs1 us1] eqn:Ht1; simpl in *.
  split.
  - unfold wf; simpl. now rewrite length_insert.
  - intros a Ha. pose proof (Hfrozen a Ha) as Hna. destruct Ha as [Ha _].
    split.
    + split; simpl; [rewrite length_insert; lia | now left].
    + simpl. rewrite list_lookup_insert_ne by congruence. now apply Hsame.
Qed.

Lemma stable_unsubscribe u : stable (unsubscribe u).
Proof.
  intros s r s' Hwf. unfold unsubscribe.
  destruct (unsubscribers (the_store s) !! u) as [[listener b]|];
    [|intros [= _ <-]; now apply extends_refl].
  destruct b; simpl; [|intros [= _ <-]; now apply extends_refl].
  destruct (isDispatching (the_store s));
    [intros [= _ <-]; now apply extends_refl|].
  intros [= _ <-]. simpl.
  set (t0 := set_unsubscribers _ (the_store s)).
  assert (wf t0) as Hwf0 by (destruct (the_store s); exact Hwf).
  assert (forall a, frozen (the_store s) a -> frozen t0 a) as H0
    by (destruct (the_store s); auto).
  assert (arrays t0 = arrays (the_store s)) as Harr0
    by (destruct (the_store s); reflexivity).
  destruct (ensure_spec t0 Hwf0)
    as ([Hn1 Hc1] & Hne & Hcur & _ & Hlen & Hsame & Hfrozen).
  set (t1 := ensureCanMutateNextListeners t0) in *.
  destruct t1 as [r1 st1 cl1 nl1 d1 arrs1 us1] eqn:Ht1;
    simpl in Hn1, Hc1, Hne, Hcur, Hlen, Hsame, Hfrozen |- *.
  split.
  - unfold wf; simpl. now rewrite length_insert.
  - intros a Ha. pose proof (Hfrozen a (H0 a Ha)) as Hna.
    destruct Ha as [Ha _].
    split.
    + split; simpl; [rewrite length_insert; lia | now left].
    + simpl. rewrite list_lookup_insert_ne by congruence. now apply Hsame.
Qed.

(** A step that leaves the listener references and arrays alone. *)
Lemma extends_fields t t' :
  wf t ->
  arrays t' = arrays t ->
  nextListeners t' = nextListeners t ->
  currentListeners t' = currentListeners t ->
  extends t t'.
Proof.
  intros Hwf Ha Hn Hc. unfold extends, wf, frozen.
  rewrite Ha, Hn, Hc. split; [exact Hwf|]. intros a H. now split.
Qed.

(** The snapshot [currentListeners = nextListeners]. *)
Lemma extends_snapshot t :
  wf t -> extends t (set_currentListeners (nextListeners t) t).
Proof.
  intros [Hn Hc]. destruct t as [r st cl nl d arrs us]; simpl in *.
  split; [split; assumption|].
  intros a [Ha _]; simpl in *. split; [|reflexivity].
  split; simpl; [exact Ha | now right].
Qed.

Lemma frozen_snapshot t :
  wf t -> frozen (set_currentListeners (nextListeners t) t) (nextListeners t).
Proof.
  intros [Hn _]. destruct t; simpl in *. split; simpl; [exact Hn | now right].
Qed.

Lemma stable_same_store {A} (m : SM sys A) :
  (forall s r s', m s = (r, s') -> the_store s' = the_store s) -> stable m.
Proof.
  intros Hm s r s' Hwf H. rewrite (Hm _ _ _ H). now apply extends_refl.
Qed.

Section StoreRuns.

Variable INIT : string.
Variable REPLACE : string.
Variable ObjectPrototype : loc.
Variable Get : gmap loc object -> value -> string -> res value.
Variable body : fnref -> list value -> prog.
Variable enhance : value -> value -> value -> M value.

Local Abbreviation dispatch := (dispatch REPLACE ObjectPrototype Get body).
Local Abbreviation dispatch_with := (dispatch_with Get).
Local Abbreviation exec := (exec REPLACE ObjectPrototype).
Local Abbreviation run_with := (run_with REPLACE ObjectPrototype body).
Local Abbreviation replaceReducer_with :=
  (replaceReducer_with REPLACE ObjectPrototype).
Local Abbreviation createStore :=
  (createStore INIT REPLACE ObjectPrototype Get body enhance).
Local Abbreviation get := (get Get).
Local Abbreviation dispatch_over := (dispatch_over Get).
Local Abbreviation reads_own_properties := (reads_own_properties Get).

Lemma dispatch_with_phases gas run action :
  dispatch_with gas run action =
  (let! plain := isPlain gas action in
   if negb plain then throw action_not_plain
   else
     let! type := get action "type" in
     if bool_decide (typeof type = TUndefined)
     then throw action_type_undefined
     else fun s =>
       if isDispatching (the_store s)
       then (Throw dispatch_while_dispatching, s)
       else (reducing run action ;; notifying gas run action) s).
Proof. reflexivity. Qed.

Lemma isPlain_same gas v s r s' : isPlain gas v s = (r, s') -> s' = s.
Proof.
  unfold isPlain. destruct (PlainObject.isPlainObject _ _ _); now intros [= _ <-].
Qed.

Lemma get_same v k s r s' : get v k s = (r, s') -> s' = s.
Proof. unfold get, Store.get. now intros [= _ <-]. Qed.

Lemma stable_notify run :
  (forall f args, stable (run f args)) ->
  forall gas listeners i, stable (notify gas run listeners i).
Proof.
  intros Hrun gas. induction gas as [|gas IH]; intros listeners i s r s' Hwf;
    simpl; destruct (bool_decide _);
    try (intros [= _ <-]; now apply extends_refl).
  apply stable_bind; auto.
Qed.

Lemma stable_reducing run action :
  (forall f args, stable (run f args)) -> stable (reducing run action).
Proof.
  intros Hrun s r s' Hwf. unfold reducing, try_finally.
  match goal with |- context [bind ?m ?k ?s0] =>
    destruct (bind m k s0) as [r1 s1] eqn:E end.
  intros [= _ <-].
  assert (extends (the_store s) (the_store (with_store (set_isDispatching true) s)))
    as H0 by (apply extends_fields; [assumption | reflexivity ..]).
  assert (extends (the_store (with_store (set_isDispatching true) s)) (the_store s1))
    as H1.
  { revert E. apply stable_bind; [apply Hrun| |apply H0].
    intros next s2 r2 s2' Hwf2 [= _ <-].
    apply extends_fields; [assumption | reflexivity ..]. }
  eapply extends_trans; [exact H0|]. eapply extends_trans; [exact H1|].
  apply extends_fields; [apply H1 | reflexivity ..].
Qed.

Lemma stable_notifying gas run action :
  (forall f args, stable (run f args)) -> stable (notifying gas run action).
Proof.
  intros Hrun s r s' Hwf. unfold notifying. cbv zeta. intros H.
  eapply extends_trans; [apply (extends_snapshot _ Hwf)|].
  revert H. apply stable_bind.
  - now apply stable_notify.
  - intros _. apply stable_ret.
  - apply (extends_snapshot _ Hwf).
Qed.

Lemma stable_dispatch_with gas run action :
  (forall f args, stable (run f args)) -> stable (dispatch_with gas run action).
Proof.
  intros Hrun. rewrite dispatch_with_phases.
  apply stable_bind.
  { apply stable_same_store. intros s r s' H. now rewrite (isPlain_same _ _ _ _ _ H). }
  intros plain. destruct (negb plain); [apply stable_throw|].
  apply stable_bind.
  { apply stable_same_store. intros s r s' H. now rewrite (get_same _ _ _ _ _ H). }
  intros type. destruct (bool_decide _); [apply stable_throw|].
  intros s r s' Hwf.
  destruct (isDispatching (the_store s)).
  - intros [= _ <-]. now apply extends_refl.
  - revert s r s' Hwf. apply stable_bind.
    + now apply stable_reducing.
    + intros _. now apply stable_notifying.
Qed.

Lemma stable_replaceReducer_with d nextReducer :
  (forall a, stable (d a)) -> stable (replaceReducer_with d nextReducer).
Proof.
  intros Hd. unfold replaceReducer_with, Store.replaceReducer_with.
  destruct (bool_decide _); [apply stable_throw|].
  intros s r s' Hwf H.
  assert (extends (the_store s)
            (the_store (with_store (set_currentReducer nextReducer) s))) as H0
    by (apply extends_fields; [assumption | reflexivity ..]).
  eapply extends_trans; [exact H0|].
  revert H. apply stable_bind.
  - apply stable_in_world.
  - intros a. apply stable_bind; [apply Hd | intros _; apply stable_ret].
  - apply H0.
Qed.

Lemma stable_exec d :
  (forall a, stable (d a)) -> forall p, stable (exec d p).
Proof.
  intros Hd p. induction p as [v|e|m k IH|k IH|l k IH|u k IH|a k IH|n k IH]; simpl.
  - apply stable_ret.
  - apply stable_throw.
  - apply stable_observe; [apply stable_in_world | exact IH].
  - apply stable_observe; [apply stable_getState | exact IH].
  - apply stable_observe; [apply stable_subscribe | exact IH].
  - apply stable_observe; [apply stable_unsubscribe | exact IH].
  - apply stable_observe; [apply Hd | exact IH].
  - apply stable_observe; [now apply stable_replaceReducer_with | exact IH].
Qed.

Lemma stable_run_with d f args :
  (forall a, stable (d a)) -> stable (run_with d f args).
Proof.
  intros Hd. unfold run_with, Store.run_with.
  destruct f; try apply stable_throw. now apply stable_exec.
Qed.

Lemma stable_dispatch fuel action : stable (dispatch fuel action).
Proof.
  revert action. induction fuel as [|fuel IH]; intros action; simpl.
  - apply stable_stuck.
  - apply stable_dispatch_with. intros f args. now apply stable_run_with.
Qed.

(** *** What the reducer can do to the store *)

Lemma quiet_refl t : quiet t t.
Proof. now destruct t. Qed.

Lemma quiet_trans t1 t2 t3 : quiet t1 t2 -> quiet t2 t3 -> quiet t1 t3.
Proof. unfold quiet. intros -> ->. now destruct t1. Qed.

Lemma quiet_flag t t' : quiet t t' -> isDispatching t' = isDispatching t.
Proof. intros ->. now destruct t. Qed.

Lemma hushed_same_store {A} (m : SM sys A) :
  (forall s r s', isDispatching (the_store s) = true -> m s = (r, s') ->
     the_store s' = the_store s) ->
  hushed m.
Proof. intros Hm s r s' Hflag H. rewrite (Hm _ _ _ Hflag H). apply quiet_refl. Qed.

Lemma hushed_observe {A B} (m : SM sys A) (k : res A -> SM sys B) :
  hushed m -> (forall r, hushed (k r)) -> hushed (observe m k).
Proof.
  intros Hm Hk s r s' Hflag. unfold observe.
  destruct (m s) as [[a|e|] s1] eqn:E; intros H;
    pose proof (Hm _ _ _ Hflag E) as H1.
  - eapply quiet_trans; [exact H1|]. eapply Hk; [|exact H].
    now rewrite (quiet_flag _ _ H1).
  - eapply quiet_trans; [exact H1|]. eapply Hk; [|exact H].
    now rewrite (quiet_flag _ _ H1).
  - now injection H as _ <-.
Qed.

Lemma hushed_bind {A B} (m : SM sys A) (k : A -> SM sys B) :
  hushed m -> (forall a, hushed (k a)) -> hushed (bind m k).
Proof.
  intros Hm Hk s r s' Hflag. unfold bind.
  destruct (m s) as [[a|e|] s1] eqn:E; intros H;
    pose proof (Hm _ _ _ Hflag E) as H1.
  - eapply quiet_trans; [exact H1|]. eapply Hk; [|exact H].
    now rewrite (quiet_flag _ _ H1).
  - now injection H as _ <-.
  - now injection H as _ <-.
Qed.

Lemma hushed_getState : hushed getState.
Proof.
  apply hushed_same_store. intros s r s' Hflag. unfold getState.
  rewrite Hflag. now intros [= _ <-].
Qed.

Lemma hushed_subscribe listener : hushed (subscribe listener).
Proof.
  apply hushed_same_store. intros s r s' Hflag. unfold subscribe.
  rewrite Hflag. destruct (bool_decide _); now intros [= _ <-].
Qed.

Lemma hushed_unsubscribe u : hushed (unsubscribe u).
Proof.
  apply hushed_same_store. intros s r s' Hflag. unfold unsubscribe.
  rewrite Hflag. destruct (unsubscribers (the_store s) !! u) as [[l [|]]|];
    simpl; now intros [= _ <-].
Qed.

Lemma hushed_in_world {A} (m : M A) : hushed (in_world m).
Proof.
  apply hushed_same_store. intros s r s' _. unfold in_world.
  destruct (m (the_world s)). now intros [= _ <-].
Qed.

(** A nested [dispatch] is turned down before it touches anything. *)
Lemma dispatch_nested fuel action s r s' :
  isDispatching (the_store s) = true ->
  dispatch fuel action s = (r, s') ->
  s' = s /\ forall v, r <> Ok v.
Proof.
  intros Hflag. destruct fuel as [|fuel]; simpl.
  - intros [= <- <-]. split; [reflexivity | discriminate].
  - rewrite dispatch_with_phases. unfold bind, isPlain.
    destruct (PlainObject.isPlainObject _ _ _) as [[|]|]; simpl;
      try (intros [= <- <-]; split; [reflexivity | discriminate]).
    unfold get, Store.get.
    destruct (Get _ _ _) as [type| |];
      try (intros [= <- <-]; split; [reflexivity | discriminate]).
    destruct (bool_decide _);
      try (intros [= <- <-]; split; [reflexivity | discriminate]).
    rewrite Hflag. intros [= <- <-]. split; [reflexivity | discriminate].
Qed.

Lemma hushed_dispatch fuel action : hushed (dispatch fuel action).
Proof.
  apply hushed_same_store. intros s r s' Hflag H.
  now destruct (dispatch_nested _ _ _ _ _ Hflag H) as [-> _].
Qed.

Lemma hushed_replaceReducer_with d nextReducer :
  (forall a, hushed (d a)) -> hushed (replaceReducer_with d nextReducer).
Proof.
  intros Hd. unfold replaceReducer_with, Store.replaceReducer_with.
  destruct (bool_decide _).
  { apply hushed_same_store. now intros s r s' _ [= _ <-]. }
  intros s r s' Hflag H.
  assert (quiet (the_store s)
            (the_store (with_store (set_currentReducer nextReducer) s))) as H0
    by (unfold quiet; simpl; now destruct (the_store s)).
  eapply quiet_trans; [exact H0|].
  revert H. apply hushed_bind.
  - apply hushed_in_world.
  - intros a. apply hushed_bind; [apply Hd|].
    intros _. apply hushed_same_store. now intros s0 r0 s0' _ [= _ <-].
  - now rewrite (quiet_flag _ _ H0).
Qed.

Lemma hushed_exec d :
  (forall a, hushed (d a)) -> forall p, hushed (exec d p).
Proof.
  intros Hd p. induction p as [v|e|m k IH|k IH|l k IH|u k IH|a k IH|n k IH]; simpl.
  - apply hushed_same_store. now intros s r s' _ [= _ <-].
  - apply hushed_same_store. now intros s r s' _ [= _ <-].
  - apply hushed_observe; [apply hushed_in_world | exact IH].
  - apply hushed_observe; [apply hushed_getState | exact IH].
  - apply hushed_observe; [apply hushed_subscribe | exact IH].
  - apply hushed_observe; [apply hushed_unsubscribe | exact IH].
  - apply hushed_observe; [apply Hd | exact IH].
  - apply hushed_observe; [now apply hushed_replaceReducer_with | exact IH].
Qed.

Lemma hushed_run_with fuel f args : hushed (run_with (dispatch fuel) f args).
Proof.
  unfold run_with, Store.run_with.
  destruct f; try (apply hushed_same_store; now intros ? ? ? _ [= _ <-]).
  apply hushed_exec. intros a. apply hushed_dispatch.
Qed.

(** The reducer phase: whatever its outcome, it leaves [isDispatching]
    clear and the listeners as they were; [currentState] changes only on
    a normal completion. *)
Lemma reducing_effect fuel action s r s1 :
  reducing (run_with (dispatch fuel)) action s = (r, s1) ->
  exists r0 s0,
    run_with (dispatch fuel) (currentReducer (the_store s))
      [currentState (the_store s); action]
      (with_store (set_isDispatching true) s) = (r0, s0) /\
    quiet (set_isDispatching true (the_store s)) (the_store s0) /\
    match r0 with
    | Ok next =>
        r = Ok tt /\
        s1 = with_store (set_isDispatching false)
               (with_store (set_currentState next) s0)
    | Throw e => r = Throw e /\ s1 = with_store (set_isDispatching false) s0
    | Stuck => r = Stuck /\ s1 = with_store (set_isDispatching false) s0
    end.
Proof.
  unfold reducing, try_finally. cbv zeta. unfold bind.
  destruct (run_with _ _ _ _) as [r0 s0] eqn:E.
  pose proof (hushed_run_with _ _ _ _ _ _ (eq_refl : isDispatching
                (the_store (with_store (set_isDispatching true) s)) = true) E)
    as Hq.
  intros H. exists r0, s0. split; [reflexivity|]. split; [exact Hq|].
  destruct r0; injection H as <- <-; now split.
Qed.

(** *** The listener loop runs over a snapshot *)

Lemma contents_extends t t' a :
  extends t t' -> frozen t a -> contents t' a = contents t a.
Proof.
  intros [_ H] Ha. unfold contents. now rewrite (proj2 (H a Ha)).
Qed.

Lemma notify_snapshot run :
  (forall f args, stable (run f args)) ->
  forall gas listeners i s ls,
    wf (the_store s) ->
    frozen (the_store s) listeners ->
    contents (the_store s) listeners = ls ->
    length ls <= i + gas ->
    notify gas run listeners i s = call_each run (drop i ls) s.
Proof.
  intros Hrun gas. induction gas as [|gas IH];
    intros listeners i s ls Hwf Hfrozen Hls Hlen; simpl; rewrite Hls.
  - rewrite bool_decide_eq_false_2 by lia.
    now rewrite drop_ge by lia.
  - destruct (bool_decide_reflect (i < length ls)) as [Hi|Hi].
    + destruct (lookup_lt_is_Some_2 ls i Hi) as [x Hx].
      rewrite (drop_S _ _ _ Hx), Hx. simpl. unfold bind.
      destruct (run x [] s) as [[v|e|] s1] eqn:E; try reflexivity.
      pose proof (Hrun _ _ _ _ _ Hwf E) as Hext.
      apply IH; [apply Hext | now apply Hext | | lia].
      rewrite (contents_extends _ _ _ Hext Hfrozen). exact Hls.
    + now rewrite drop_ge by lia.
Qed.

Lemma reducing_listeners fuel action s r s1 :
  reducing (run_with (dispatch fuel)) action s = (r, s1) ->
  arrays (the_store s1) = arrays (the_store s) /\
  nextListeners (the_store s1) = nextListeners (the_store s) /\
  currentListeners (the_store s1) = currentListeners (the_store s) /\
  unsubscribers (the_store s1) = unsubscribers (the_store s) /\
  isDispatching (the_store s1) = false.
Proof.
  intros H. apply reducing_effect in H as (r0 & s0 & _ & Hq & H).
  unfold quiet in Hq.
  destruct r0; destruct H as [_ ->]; simpl; rewrite Hq;
    destruct (the_store s); repeat split.
Qed.

Lemma pending_subscribe listener s n s' :
  wf (the_store s) ->
  subscribe listener s = (Ok n, s') ->
  pending s' = (pending s ++ [listener])%list.
Proof.
  intros Hwf. unfold subscribe.
  destruct (bool_decide _); [discriminate|].
  destruct (isDispatching (the_store s)); [discriminate|].
  intros [= _ <-]. unfold pending. simpl.
  destruct (ensure_spec (the_store s) Hwf) as ([Hn1 _] & _ & _ & Hc & _).
  set (t1 := ensureCanMutateNextListeners (the_store s)) in *.
  rewrite <- Hc. destruct t1 as [r1 st1 cl1 nl1 d1 arrs1 us1]; simpl in *.
  unfold contents at 1. simpl. now rewrite list_lookup_insert_eq.
Qed.

Lemma pending_unsubscribe u listener s s' :
  wf (the_store s) ->
  unsubscribers (the_store s) !! u = Some (listener, true) ->
  unsubscribe u s = (Ok tt, s') ->
  pending s' = splice1 (indexOf listener (pending s)) (pending s).
Proof.
  intros Hwf Hu. unfold unsubscribe. rewrite Hu. simpl.
  destruct (isDispatching (the_store s)); [discriminate|].
  intros [= <-]. unfold pending. simpl.
  set (t0 := set_unsubscribers _ (the_store s)).
  assert (wf t0) as Hwf0 by (destruct (the_store s); exact Hwf).
  assert (contents t0 (nextListeners t0)
          = contents (the_store s) (nextListeners (the_store s))) as H0
    by (destruct (the_store s); reflexivity).
  destruct (ensure_spec t0 Hwf0) as ([Hn1 _] & _ & _ & Hc & _).
  set (t1 := ensureCanMutateNextListeners t0) in *.
  rewrite <- H0, <- Hc. destruct t1 as [r1 st1 cl1 nl1 d1 arrs1 us1].
  simpl in Hn1 |- *.
  unfold contents at 1. simpl. now rewrite list_lookup_insert_eq.
Qed.

(** *** The pending list and the subscriptions *)

Lemma live_of_app us listener :
  live_of (us ++ [(listener, true)]) = (live_of us ++ [listener])%list.
Proof.
  induction us as [|[l [|]] us IH]; simpl; now rewrite ?IH.
Qed.

Lemma strict_eq_function x listener :
  typeof listener = TFunction ->
  strict_eq x listener = bool_decide (x = listener).
Proof. destruct listener; try discriminate. now destruct x. Qed.

(** Withdrawing the earliest live subscription of a function removes, from
    the live listeners, the entry [indexOf] finds. *)
Lemma live_of_withdraw us :
  forall u listener,
    us !! u = Some (listener, true) ->
    typeof listener = TFunction ->
    (forall u', u' < u -> us !! u' <> Some (listener, true)) ->
    exists i,
      indexOf listener (live_of us) = Some i /\
      delete i (live_of us) = live_of (<[u := (listener, false)]> us).
Proof.
  induction us as [|[l0 b0] us IH]; intros u listener Hu Hfun Hfirst.
  - discriminate.
  - destruct u as [|u]; simpl in Hu.
    + injection Hu as -> ->. exists 0. simpl.
      rewrite (strict_eq_function _ _ Hfun).
      now rewrite bool_decide_eq_true_2.
    + destruct (IH u listener Hu Hfun) as (i & Hi & Hdel).
      { intros u' Hlt. apply (Hfirst (S u')). lia. }
      destruct b0; simpl.
      * assert (l0 <> listener) as Hne
          by (intros ->; now apply (Hfirst 0); [lia|]).
        rewrite (strict_eq_function _ _ Hfun).
        rewrite bool_decide_eq_false_2 by exact Hne.
        rewrite Hi. exists (S i). simpl. split; [reflexivity|]. now f_equal.
      * exists i. now split.
Qed.

Lemma live_subscribe listener s n s' :
  subscribe listener s = (Ok n, s') ->
  live s' = (live s ++ [listener])%list.
Proof.
  unfold subscribe.
  destruct (bool_decide _); [discriminate|].
  destruct (isDispatching (the_store s)); [discriminate|].
  intros [= _ <-]. unfold live. simpl.
  assert (unsubscribers (ensureCanMutateNextListeners (the_store s))
          = unsubscribers (the_store s)) as E.
  { unfold ensureCanMutateNextListeners. now destruct (bool_decide _). }
  destruct (ensureCanMutateNextListeners (the_store s)); simpl in *.
  rewrite E. apply live_of_app.
Qed.

Lemma live_unsubscribe u listener s s' :
  unsubscribers (the_store s) !! u = Some (listener, true) ->
  unsubscribe u s = (Ok tt, s') ->
  live s' = live_of (<[u := (listener, false)]> (unsubscribers (the_store s))).
Proof.
  intros Hu. unfold unsubscribe. rewrite Hu. simpl.
  destruct (isDispatching (the_store s)); [discriminate|].
  intros [= <-]. unfold live. simpl.
  set (t0 := set_unsubscribers _ (the_store s)).
  assert (unsubscribers (ensureCanMutateNextListeners t0) = unsubscribers t0) as E.
  { unfold ensureCanMutateNextListeners. now destruct (bool_decide _). }
  destruct (ensureCanMutateNextListeners t0); simpl in *.
  rewrite E. unfold t0. now destruct (the_store s).
Qed.

(** C2 (as the code has it): the listener loop of a [dispatch] calls the
    entries of the pending listener list as it stood when the dispatch
    began, once each and in the order of the list, whatever the callbacks
    subscribe or unsubscribe, and stops only when a callback throws.  A
    [subscribe] appends to the pending list, a first [unsubscribe] removes
    from it the first entry that is [===] its listener, and the next
    dispatch takes the list as these have left it.  The pending list is
    the list of the live subscriptions in the order they were made, and
    stays so as long as the subscription withdrawn is the earliest live one
    of its function. *)
Theorem dispatch_runs_snapshot fuel action s :
  wf (the_store s) ->
  length (pending s) <= fuel ->
  dispatch (S fuel) action s
  = dispatch_over (pending s) fuel (run_with (dispatch fuel)) action s
  /\ (forall listener n s',
        subscribe listener s = (Ok n, s') ->
        pending s' = (pending s ++ [listener])%list /\
        (pending s = live s -> pending s' = live s'))
  /\ (forall u listener s',
        unsubscribers (the_store s) !! u = Some (listener, true) ->
        unsubscribe u s = (Ok tt, s') ->
        pending s' = splice1 (indexOf listener (pending s)) (pending s) /\
        (pending s = live s ->
         typeof listener = TFunction ->
         (forall u', u' < u ->
            unsubscribers (the_store s) !! u' <> Some (listener, true)) ->
         pending s' = live s')).
Proof.
  intros Hwf Hlen. split; [|split].
  - simpl. rewrite dispatch_with_phases. unfold dispatch_over, bind.
    destruct (isPlain fuel action s) as [[plain| |] s1] eqn:Eplain;
      try reflexivity.
    apply isPlain_same in Eplain as ->.
    destruct (negb plain); [reflexivity|].
    destruct (get action "type" s) as [[type| |] s1] eqn:Etype; try reflexivity.
    apply get_same in Etype as ->.
    destruct (bool_decide _); [reflexivity|].
    destruct (isDispatching (the_store s)); [reflexivity|].
    destruct (reducing _ action s) as [[[]| |] s1] eqn:Ered; try reflexivity.
    destruct (reducing_listeners _ _ _ _ _ Ered) as (Ha & Hn & Hc & _ & _).
    unfold notifying, notifying_over. cbv zeta. unfold bind.
    assert (wf (the_store s1)) as Hwf1
      by (unfold wf; rewrite Ha, Hn, Hc; exact Hwf).
    assert (pending s1 = pending s) as Hp
      by (unfold pending, contents; now rewrite Ha, Hn).
    rewrite (notify_snapshot (run_with (dispatch fuel))
               (fun f args => stable_run_with _ f args (stable_dispatch fuel))
               fuel _ 0 _ (pending s)).
    + reflexivity.
    + apply (extends_snapshot _ Hwf1).
    + exact (frozen_snapshot _ Hwf1).
    + exact Hp.
    + simpl. exact Hlen.
  - intros listener n s' Hsub.
    pose proof (pending_subscribe _ _ _ _ Hwf Hsub) as Hp.
    split; [exact Hp|]. intros Hlive.
    now rewrite Hp, Hlive, (live_subscribe _ _ _ _ Hsub).
  - intros u listener s' Hu Hunsub.
    pose proof (pending_unsubscribe _ _ _ _ Hwf Hu Hunsub) as Hp.
    split; [exact Hp|]. intros Hlive Hfun Hfirst.
    rewrite Hp, Hlive, (live_unsubscribe _ _ _ _ Hu Hunsub).
    destruct (live_of_withdraw _ _ _ Hu Hfun Hfirst) as (i & Hi & Hdel).
    unfold live. now rewrite Hi.
Qed.

(** *** Outcomes of [dispatch] *)

Lemma dispatch_validated fuel action s type :
  PlainObject.isPlainObject fuel (heap (the_world s)) action = Some true ->
  Get (heap (the_world s)) action "type" = Ok type ->
  type <> VUndefined ->
  isDispatching (the_store s) = false ->
  dispatch (S fuel) action s
  = (reducing (run_with (dispatch fuel)) action ;;
     notifying fuel (run_with (dispatch fuel)) action) s.
Proof.
  intros Hplain Htype Hdef Hflag. simpl. rewrite dispatch_with_phases.
  unfold bind at 1. unfold isPlain. rewrite Hplain. simpl.
  unfold bind at 1. unfold get, Store.get. rewrite Htype.
  rewrite bool_decide_eq_false_2
    by (intros H; apply Hdef; now destruct type).
  now rewrite Hflag.
Qed.

Lemma dispatch_reduced fuel action s type next s0 :
  isDispatching (the_store s) = false ->
  PlainObject.isPlainObject fuel (heap (the_world s)) action = Some true ->
  Get (heap (the_world s)) action "type" = Ok type ->
  type <> VUndefined ->
  run_with (dispatch fuel) (currentReducer (the_store s))
    [currentState (the_store s); action]
    (with_store (set_isDispatching true) s) = (Ok next, s0) ->
  dispatch (S fuel) action s
  = notifying fuel (run_with (dispatch fuel)) action
      (Sys (the_world s0)
           (set_currentState next
              (set_currentReducer (currentReducer (the_store s0)) (the_store s)))).
Proof.
  intros Hflag Hplain Htype Hdef Hrun.
  rewrite (dispatch_validated fuel action s type); auto.
  unfold bind at 1.
  destruct (reducing _ action s) as [r1 s1] eqn:Hphase.
  destruct (reducing_effect _ _ _ _ _ Hphase) as (r0 & s0' & Hrun' & Hq & H).
  rewrite Hrun in Hrun'. injection Hrun' as <- <-.
  destruct H as [-> ->]. f_equal.
  unfold quiet in Hq. unfold with_store. simpl. rewrite Hq.
  destruct (the_store s). simpl in *. now subst.
Qed.

Lemma dispatch_reducer_raises fuel action s type e s0 :
  isDispatching (the_store s) = false ->
  PlainObject.isPlainObject fuel (heap (the_world s)) action = Some true ->
  Get (heap (the_world s)) action "type" = Ok type ->
  type <> VUndefined ->
  run_with (dispatch fuel) (currentReducer (the_store s))
    [currentState (the_store s); action]
    (with_store (set_isDispatching true) s) = (Throw e, s0) ->
  dispatch (S fuel) action s
  = (Throw e,
     Sys (the_world s0)
         (set_currentReducer (currentReducer (the_store s0)) (the_store s))).
Proof.
  intros Hflag Hplain Htype Hdef Hrun.
  rewrite (dispatch_validated fuel action s type); auto.
  unfold bind at 1.
  destruct (reducing _ action s) as [r1 s1] eqn:Hphase.
  destruct (reducing_effect _ _ _ _ _ Hphase) as (r0 & s0' & Hrun' & Hq & H).
  rewrite Hrun in Hrun'. injection Hrun' as <- <-.
  destruct H as [-> ->]. f_equal.
  unfold quiet in Hq. unfold with_store. simpl. rewrite Hq.
  destruct (the_store s). simpl in *. now subst.
Qed.

(** *** Where the listener loop stops *)

(** The store in which the loop starts, given the store [t] of before the
    dispatch: it has the arrays of [t], and the snapshot is frozen. *)
Lemma wf_snapshot t reducer next w :
  wf t ->
  wf (the_store
        (Sys w (set_currentListeners (nextListeners t)
                  (set_currentState next (set_currentReducer reducer t))))).
Proof. intros [Hn _]. destruct t. split; exact Hn. Qed.

Lemma frozen_after_snapshot t reducer next w :
  wf t ->
  frozen (the_store
            (Sys w (set_currentListeners (nextListeners t)
                      (set_currentState next (set_currentReducer reducer t)))))
         (nextListeners t).
Proof. intros [Hn _]. destruct t. split; simpl in *; [exact Hn | now right]. Qed.

Lemma drop_cons_inv {A} (ls : list A) i y rest :
  drop i ls = y :: rest -> ls !! i = Some y /\ drop (S i) ls = rest.
Proof.
  revert i. induction ls as [|a ls IH]; intros [|i]; simpl; try discriminate.
  - intros [= -> ->]. split; [reflexivity | apply drop_0].
  - apply IH.
Qed.

(** A loop that throws has called the listeners of the snapshot in order,
    all of them have returned up to the one that threw, and what it threw
    is what the loop throws. *)
Lemma notify_raised run :
  (forall f args, stable (run f args)) ->
  forall gas listeners i s ls e s',
    wf (the_store s) ->
    frozen (the_store s) listeners ->
    contents (the_store s) listeners = ls ->
    notify gas run listeners i s = (Throw e, s') ->
    exists before listener rest sa,
      drop i ls = (before ++ listener :: rest)%list /\
      call_each run before s = (Ok tt, sa) /\
      run listener [] sa = (Throw e, s').
Proof.
  intros Hrun gas. induction gas as [|gas IH];
    intros listeners i s ls e s' Hwf Hfrozen Hls; simpl; rewrite Hls.
  - destruct (bool_decide _); discriminate.
  - destruct (bool_decide_reflect (i < length ls)) as [Hi|Hi]; [|discriminate].
    destruct (lookup_lt_is_Some_2 ls i Hi) as [x Hx].
    rewrite Hx. simpl. unfold bind.
    destruct (run x [] s) as [[v|e0|] s1] eqn:E; try discriminate.
    + intros H. pose proof (Hrun _ _ _ _ _ Hwf E) as Hext.
      destruct (IH listeners (S i) s1 ls e s')
        as (before & listener & rest & sa & Hd & Hc & Ht).
      * apply Hext.
      * now apply Hext.
      * rewrite (contents_extends _ _ _ Hext Hfrozen). exact Hls.
      * exact H.
      * exists (x :: before), listener, rest, sa.
        split; [rewrite (drop_S _ _ _ Hx), Hd; reflexivity|].
        split; [|exact Ht]. simpl. unfold bind. now rewrite E.
    + intros [= <- <-]. exists [], x, (drop (S i) ls), s.
      split; [now rewrite (drop_S _ _ _ Hx)|]. split; [reflexivity | exact E].
Qed.

(** Conversely: when the listeners before one of the snapshot return and
    that one throws, the loop throws the same and calls no other. *)
Lemma notify_stops run :
  (forall f args, stable (run f args)) ->
  forall before gas listeners i s ls listener rest sa e s',
    wf (the_store s) ->
    frozen (the_store s) listeners ->
    contents (the_store s) listeners = ls ->
    drop i ls = (before ++ listener :: rest)%list ->
    length before < gas ->
    call_each run before s = (Ok tt, sa) ->
    run listener [] sa = (Throw e, s') ->
    notify gas run listeners i s = (Throw e, s').
Proof.
  intros Hrun before. induction before as [|x before IH];
    intros gas listeners i s ls listener rest sa e s' Hwf Hfrozen Hls Hd Hgas
           Hc Ht;
    (destruct gas as [|gas]; [simpl in Hgas; lia|]);
    apply drop_cons_inv in Hd as [Hx Hd];
    pose proof (lookup_lt_Some _ _ _ Hx) as Hi;
    simpl; rewrite Hls, Hx; rewrite bool_decide_eq_true_2 by exact Hi;
    simpl; unfold bind.
  - injection Hc as <-. now rewrite Ht.
  - simpl in Hc. unfold bind in Hc.
    destruct (run x [] s) as [[v|e0|] s1] eqn:E; try discriminate.
    pose proof (Hrun _ _ _ _ _ Hwf E) as Hext.
    apply (IH gas listeners (S i) s1 ls listener rest sa e s').
    + apply Hext.
    + now apply Hext.
    + rewrite (contents_extends _ _ _ Hext Hfrozen). exact Hls.
    + exact Hd.
    + simpl in Hgas. lia.
    + exact Hc.
    + exact Ht.
Qed.

(** C6: when the reducer throws while a valid action is dispatched to an
    idle store, [dispatch] throws the same value; the state it leaves is
    the one the reducer call left with [isDispatching] cleared (the listener
    loop is not reached), in which [currentState] and the listener lists
    are those of before the dispatch, and in which [getState] and
    [subscribe] complete normally. *)
Theorem dispatch_reducer_throws fuel action s type e s0 :
  isDispatching (the_store s) = false ->
  PlainObject.isPlainObject fuel (heap (the_world s)) action = Some true ->
  Get (heap (the_world s)) action "type" = Ok type ->
  type <> VUndefined ->
  run_with (dispatch fuel) (currentReducer (the_store s))
    [currentState (the_store s); action]
    (with_store (set_isDispatching true) s) = (Throw e, s0) ->
  let s' := with_store (set_isDispatching false) s0 in
  dispatch (S fuel) action s = (Throw e, s') /\
  the_store s' = set_currentReducer (currentReducer (the_store s0)) (the_store s) /\
  currentState (the_store s') = currentState (the_store s) /\
  isDispatching (the_store s') = false /\
  pending s' = pending s /\
  unsubscribers (the_store s') = unsubscribers (the_store s) /\
  getState s' = (Ok (currentState (the_store s)), s') /\
  (forall listener, typeof listener = TFunction ->
     exists s'', subscribe listener s'
                 = (Ok (length (unsubscribers (the_store s))), s'')).
Proof.
  intros Hflag Hplain Htype Hdef Hrun s'.
  assert (the_store s'
          = set_currentReducer (currentReducer (the_store s0)) (the_store s))
    as Hstore.
  { pose proof (hushed_run_with _ _ _ _ _ _
                  (eq_refl : isDispatching (the_store
                     (with_store (set_isDispatching true) s)) = true) Hrun) as Hq.
    unfold quiet in Hq. unfold s'. simpl. rewrite Hq. simpl.
    destruct (the_store s); simpl in *. now subst. }
  split; [|split; [exact Hstore|]].
  - rewrite (dispatch_validated _ _ _ _ Hplain Htype Hdef Hflag).
    apply bind_throw. unfold reducing, try_finally. cbv zeta.
    now rewrite (bind_throw _ _ _ _ _ Hrun).
  - assert (isDispatching (the_store s') = false) as Hidle
      by (rewrite Hstore; now destruct (the_store s)).
    assert (currentState (the_store s') = currentState (the_store s)) as Hstate
      by (rewrite Hstore; now destruct (the_store s)).
    assert (unsubscribers (the_store s') = unsubscribers (the_store s)) as Hsubs
      by (rewrite Hstore; now destruct (the_store s)).
    split; [exact Hstate|]. split; [exact Hidle|]. split; [|split; [exact Hsubs|]].
    + unfold pending. rewrite Hstore. now destruct (the_store s).
    + split.
      * unfold getState. now rewrite Hidle, Hstate.
      * intros listener Hfun. unfold subscribe.
        rewrite bool_decide_eq_false_2 by (intros H; now apply H).
        rewrite Hidle. eexists. f_equal. f_equal.
        rewrite <- Hsubs. unfold ensureCanMutateNextListeners.
        destruct (bool_decide _); reflexivity.
Qed.


(** *** Construction *)

(** C9: [createStore(reducer)], with no preloaded state and no enhancer,
    dispatches [{ type: INIT }] once; when the reducer, called on
    [undefined] and that action, returns [next], the store that is returned
    has [next] as its state, and [getState()] returns [next]. *)
Theorem createStore_initial_state fuel reducer w root next s0 :
  typeof reducer = TFunction ->
  heap w !! ObjectPrototype = Some root ->
  proto root = None ->
  reads_own_properties ->
  let a := fresh (dom (heap w)) in
  let w1 := set_heap
              (insert a (Object (Some ObjectPrototype) [("type", VStr INIT)])) w in
  run_with (dispatch (S fuel)) reducer [VUndefined; VObj a]
    (Sys w1 (Store_ reducer VUndefined 0 0 true [[]] [])) = (Ok next, s0) ->
  let t := Store_ (currentReducer (the_store s0)) next 0 0 false [[]] [] in
  createStore (S (S fuel)) reducer VUndefined VUndefined w
  = (Ok (Created t), the_world s0) /\
  currentState t = next /\
  getState (Sys (the_world s0) t) = (Ok next, Sys (the_world s0) t).
Proof.
  intros Hfun Hroot Hnull Hown a w1 Hrun t.
  split; [|split; reflexivity].
  unfold createStore, Store.createStore. simpl.
  rewrite bool_decide_eq_false_2 by (intros H; now apply H).
  set (t0 := Store_ reducer VUndefined 0 0 false [[]] []).
  unfold bind at 1. unfold in_world, alloc. simpl.
  fold a. fold w1.
  assert (a <> ObjectPrototype) as Hne.
  { intros E. apply (is_fresh (dom (heap w))). fold a. rewrite E.
    apply elem_of_dom. now exists root. }
  assert (heap w1 !! a
          = Some (Object (Some ObjectPrototype) [("type", VStr INIT)])) as Ha
    by apply lookup_insert_eq.
  assert (heap w1 !! ObjectPrototype = Some root) as Hroot1.
  { unfold w1. simpl. rewrite lookup_insert_ne by exact Hne. exact Hroot. }
  match goal with |- context [?d (VObj a) (Sys w1 t0)] =>
    change (d (VObj a) (Sys w1 t0))
      with (dispatch (S (S fuel)) (VObj a) (Sys w1 t0)) end.
  assert (dispatch (S (S fuel)) (VObj a) (Sys w1 t0)
          = (Ok (VObj a), Sys (the_world s0) t)) as ->; [|reflexivity].
  rewrite (dispatch_validated (S fuel) (VObj a) (Sys w1 t0) (VStr INIT)).
  - assert (reducing (run_with (dispatch (S fuel))) (VObj a) (Sys w1 t0)
            = (Ok tt, Sys (the_world s0) t)) as Hred.
    { unfold reducing, try_finally. cbv zeta.
      change (with_store (set_isDispatching true) (Sys w1 t0))
        with (Sys w1 (Store_ reducer VUndefined 0 0 true [[]] [])).
      simpl. rewrite (bind_ok _ _ _ _ _ Hrun).
      pose proof (hushed_run_with (S fuel) reducer [VUndefined; VObj a]
                    (Sys w1 (Store_ reducer VUndefined 0 0 true [[]] []))
                    (Ok next) s0 eq_refl Hrun) as Hq.
      unfold quiet in Hq. simpl in Hq. unfold with_store. simpl.
      rewrite Hq. reflexivity. }
    rewrite (bind_ok _ _ _ _ _ Hred). reflexivity.
  - simpl.
    change (Some true) with (Some (bool_decide (1 = 1))).
    apply PlainObjectFacts.isPlainObject_depth; [|lia].
    eapply PlainObject.depth_link; [exact Ha | reflexivity |].
    eapply PlainObject.depth_root; [exact Hroot1 | exact Hnull].
  - simpl. eapply Hown; [exact Ha | reflexivity].
  - discriminate.
  - reflexivity.
Qed.

(** *** A principle for invariants of the store

    A relation [R] between the store before and after, under a
    precondition [Pre] that it re-establishes, holds of every [dispatch],
    [replaceReducer] and run of a host function as soon as it holds of the
    writes [dispatch] and [replaceReducer] make outside the reducer call
    and of [subscribe] and [unsubscribe]. *)

Section Principle.

Variable Pre : store -> Prop.
Variable R : store -> store -> Prop.
Hypothesis R_refl : forall t, Pre t -> R t t.
Hypothesis R_trans : forall t1 t2 t3, R t1 t2 -> R t2 t3 -> R t1 t3.
Hypothesis R_post : forall t t', R t t' -> Pre t'.
Hypothesis R_reducer : forall v t, Pre t -> R t (set_currentReducer v t).
Hypothesis R_state : forall v t, Pre t -> R t (set_currentState v t).
Hypothesis R_snapshot :
  forall t, Pre t -> R t (set_currentListeners (nextListeners t) t).
Hypothesis R_subscribe : forall listener, respects Pre R (subscribe listener).
Hypothesis R_unsubscribe : forall u, respects Pre R (unsubscribe u).

Lemma respects_same_store {A} (m : SM sys A) :
  (forall s r s', m s = (r, s') -> the_store s' = the_store s) ->
  respects Pre R m.
Proof. intros Hm s r s' HP H. rewrite (Hm _ _ _ H). now apply R_refl. Qed.

Lemma respects_bind {A B} (m : SM sys A) (k : A -> SM sys B) :
  respects Pre R m -> (forall a, respects Pre R (k a)) ->
  respects Pre R (bind m k).
Proof.
  intros Hm Hk s r s' HP. unfold bind.
  destruct (m s) as [[a|e|] s1] eqn:E; intros H.
  - pose proof (Hm _ _ _ HP E) as H1.
    eapply R_trans; [exact H1|]. eapply Hk; [eapply R_post, H1 | exact H].
  - injection H as _ <-. eapply Hm; eauto.
  - injection H as _ <-. eapply Hm; eauto.
Qed.

Lemma respects_observe {A B} (m : SM sys A) (k : res A -> SM sys B) :
  respects Pre R m -> (forall r, respects Pre R (k r)) ->
  respects Pre R (observe m k).
Proof.
  intros Hm Hk s r s' HP. unfold observe.
  destruct (m s) as [[a|e|] s1] eqn:E; intros H.
  - pose proof (Hm _ _ _ HP E) as H1.
    eapply R_trans; [exact H1|]. eapply Hk; [eapply R_post, H1 | exact H].
  - pose proof (Hm _ _ _ HP E) as H1.
    eapply R_trans; [exact H1|]. eapply Hk; [eapply R_post, H1 | exact H].
  - injection H as _ <-. eapply Hm; eauto.
Qed.

Lemma respects_notify run :
  (forall f args, respects Pre R (run f args)) ->
  forall gas listeners i, respects Pre R (notify gas run listeners i).
Proof.
  intros Hrun gas. induction gas as [|gas IH]; intros listeners i s r s' HP;
    simpl; destruct (bool_decide _);
    try (intros [= _ <-]; now apply R_refl).
  apply respects_bind; auto.
Qed.

Lemma respects_exec d :
  (forall a, respects Pre R (d a)) -> forall p, respects Pre R (exec d p).
Proof.
  intros Hd p. induction p as [v|e|m k IH|k IH|l k IH|u k IH|a k IH|n k IH]; simpl.
  - apply respects_same_store. now intros s r s' [= _ <-].
  - apply respects_same_store. now intros s r s' [= _ <-].
  - apply respects_observe; [|exact IH].
    apply respects_same_store. intros s r s'. unfold in_world.
    destruct (m (the_world s)). now intros [= _ <-].
  - apply respects_observe; [|exact IH].
    apply respects_same_store. intros s r s'. unfold getState.
    destruct (isDispatching (the_store s)); now intros [= _ <-].
  - apply respects_observe; [apply R_subscribe | exact IH].
  - apply respects_observe; [apply R_unsubscribe | exact IH].
  - apply respects_observe; [apply Hd | exact IH].
  - apply respects_observe; [|exact IH].
    unfold replaceReducer_with, Store.replaceReducer_with.
    destruct (bool_decide _).
    { apply respects_same_store. now intros s r s' [= _ <-]. }
    intros s r s' HP H.
    eapply R_trans; [apply (R_reducer n _ HP)|].
    revert H. apply respects_bind.
    + apply respects_same_store. intros s0 r0 s0'. unfold in_world.
      destruct (alloc _ _). now intros [= _ <-].
    + intros a. apply respects_bind; [apply Hd|].
      intros _. apply respects_same_store. now intros s0 r0 s0' [= _ <-].
    + eapply R_post, R_reducer, HP.
Qed.

Lemma respects_run_with d f args :
  (forall a, respects Pre R (d a)) -> respects Pre R (run_with d f args).
Proof.
  intros Hd. unfold run_with, Store.run_with.
  destruct f; try (apply respects_same_store; now intros ? ? ? [= _ <-]).
  now apply respects_exec.
Qed.

(** After the reducer phase on an idle store, the store is the one before
    with [currentReducer] and, on a normal completion, [currentState]
    rewritten. *)
Lemma reducing_idle fuel action s r s1 :
  isDispatching (the_store s) = false ->
  reducing (run_with (dispatch fuel)) action s = (r, s1) ->
  exists v,
    the_store s1 = set_currentReducer v (the_store s) \/
    exists next,
      r = Ok tt /\
      the_store s1 = set_currentState next (set_currentReducer v (the_store s)).
Proof.
  intros Hflag H. apply reducing_effect in H as (r0 & s0 & _ & Hq & H).
  unfold quiet in Hq. exists (currentReducer (the_store s0)).
  destruct r0 as [next| |]; destruct H as [Hr ->]; simpl; rewrite Hq.
  - right. exists next. split; [exact Hr|].
    destruct (the_store s); simpl in *. now subst.
  - left. destruct (the_store s); simpl in *. now subst.
  - left. destruct (the_store s); simpl in *. now subst.
Qed.

Lemma respects_dispatch fuel action : respects Pre R (dispatch fuel action).
Proof.
  revert action. induction fuel as [|fuel IH]; intros action; simpl.
  - apply respects_same_store. now intros s r s' [= _ <-].
  - rewrite dispatch_with_phases.
    apply respects_bind.
    { apply respects_same_store. intros s r s' H.
      now rewrite (isPlain_same _ _ _ _ _ H). }
    intros plain. destruct (negb plain).
    { apply respects_same_store. now intros s r s' [= _ <-]. }
    apply respects_bind.
    { apply respects_same_store. intros s r s' H.
      now rewrite (get_same _ _ _ _ _ H). }
    intros type. destruct (bool_decide _).
    { apply respects_same_store. now intros s r s' [= _ <-]. }
    intros s r s' HP.
    destruct (isDispatching (the_store s)) eqn:Hflag.
    { intros [= _ <-]. now apply R_refl. }
    revert s r s' HP Hflag.
    assert (forall s r s', Pre (the_store s) ->
              isDispatching (the_store s) = false ->
              reducing (run_with (dispatch fuel)) action s = (r, s') ->
              R (the_store s) (the_store s')) as Hred.
    { intros s r s' HP Hflag H.
      destruct (reducing_idle _ _ _ _ _ Hflag H) as (v & [-> | (next & _ & ->)]).
      - now apply R_reducer.
      - eapply R_trans; [apply (R_reducer v _ HP)|].
        apply R_state. eapply R_post, R_reducer, HP. }
    intros s r s' HP Hflag. unfold bind.
    destruct (reducing _ action s) as [[[]|e|] s1] eqn:E; intros H;
      pose proof (Hred _ _ _ HP Hflag E) as H1;
      try (injection H as _ <-; exact H1).
    eapply R_trans; [exact H1|].
    revert H. unfold notifying. cbv zeta. intros H.
    eapply R_trans; [apply R_snapshot; eapply R_post, H1|].
    revert H. apply respects_bind.
    + apply respects_notify. intros f args. apply respects_run_with, IH.
    + intros _. apply respects_same_store. now intros s0 r0 s0' [= _ <-].
    + eapply R_post, R_snapshot, R_post, H1.
Qed.

Lemma respects_host fuel f args :
  respects Pre R (run_with (dispatch fuel) f args).
Proof. apply respects_run_with. intros a. apply respects_dispatch. Qed.

Lemma respects_replaceReducer fuel nextReducer :
  respects Pre R
    (Store.replaceReducer REPLACE ObjectPrototype Get body fuel nextReducer).
Proof.
  intros s r s' HP H.
  pose proof (respects_exec (dispatch fuel) (respects_dispatch fuel)
                (ReplaceReducer nextReducer (fun _ => Return VUndefined)) s)
    as Hexec.
  simpl in Hexec. unfold observe in Hexec.
  unfold Store.replaceReducer in H.
  change (Store.replaceReducer_with REPLACE ObjectPrototype)
    with replaceReducer_with in H.
  rewrite H in Hexec.
  destruct r; simpl in Hexec; eapply Hexec; eauto.
Qed.

End Principle.

(** *** The pending list tallies with the live subscriptions *)

Lemma indexOf_found listener :
  typeof listener = TFunction ->
  forall xs, listener ∈ xs ->
    exists i, indexOf listener xs = Some i /\ xs !! i = Some listener.
Proof.
  intros Hfun xs. induction xs as [|x xs IH]; intros Hin.
  - now apply elem_of_nil in Hin.
  - simpl. rewrite (strict_eq_function _ _ Hfun).
    destruct (bool_decide_reflect (x = listener)) as [->|Hne].
    + now exists 0.
    + apply elem_of_cons in Hin as [->|Hin]; [congruence|].
      destruct (IH Hin) as (i & -> & Hi). now exists (S i).
Qed.

Lemma live_of_elem us u listener :
  us !! u = Some (listener, true) -> listener ∈ live_of us.
Proof.
  revert u. induction us as [|[x b] us IH]; intros [|u] H; simpl in *;
    try discriminate.
  - injection H as -> ->. apply elem_of_cons. now left.
  - destruct b; [apply elem_of_cons; right|]; eapply IH, H.
Qed.

Lemma live_of_withdrawn us u listener :
  us !! u = Some (listener, true) ->
  live_of us ≡ₚ listener :: live_of (<[u := (listener, false)]> us).
Proof.
  revert u. induction us as [|[x b] us IH]; intros [|u] H; simpl in *;
    try discriminate.
  - now injection H as -> ->.
  - destruct b.
    + rewrite (IH _ H) at 1. apply Permutation_swap.
    + apply (IH _ H).
Qed.

Lemma tallied_subscribe listener :
  respects tallied (fun _ => tallied) (subscribe listener).
Proof.
  intros s n s' (Hwf & Hfun & Hperm) H.
  destruct n as [n|e|]; cycle 1.
  - revert H. unfold subscribe.
    destruct (bool_decide _); [|destruct (isDispatching _)];
      intros H; try discriminate; injection H as _ <-;
      exact (conj Hwf (conj Hfun Hperm)).
  - revert H. unfold subscribe.
    destruct (bool_decide _); [|destruct (isDispatching _)]; discriminate.
  - pose proof (pending_subscribe _ _ _ _ Hwf H) as Hp.
    pose proof (live_subscribe _ _ _ _ H) as Hl.
    pose proof (stable_subscribe _ _ _ _ Hwf H) as [Hwf' _].
    split; [exact Hwf'|]. split.
    + revert H. unfold subscribe.
      destruct (bool_decide_reflect (typeof listener <> TFunction)) as [|Hf];
        [discriminate|].
      destruct (isDispatching _); [discriminate|]. intros [= _ <-]. simpl.
      apply Forall_app. split.
      * unfold ensureCanMutateNextListeners. now destruct (bool_decide _).
      * apply Forall_singleton. simpl.
        destruct (decide (typeof listener = TFunction)) as [E|E];
          [exact E | exfalso; exact (Hf E)].
    + change (pending s' ≡ₚ live s'). rewrite Hp, Hl.
      now apply Permutation_app_tail.
Qed.

Lemma tallied_unsubscribe u :
  respects tallied (fun _ => tallied) (unsubscribe u).
Proof.
  intros s r s' (Hwf & Hfun & Hperm) H.
  destruct (unsubscribers (the_store s) !! u) as [[listener []]|] eqn:Hu;
    cycle 1.
  - revert H. unfold unsubscribe. rewrite Hu. intros [= _ <-].
    exact (conj Hwf (conj Hfun Hperm)).
  - revert H. unfold unsubscribe. rewrite Hu. intros [= _ <-].
    exact (conj Hwf (conj Hfun Hperm)).
  - destruct (isDispatching (the_store s)) eqn:Hflag.
    { revert H. unfold unsubscribe. rewrite Hu, Hflag. intros [= _ <-].
      exact (conj Hwf (conj Hfun Hperm)). }
    assert (r = Ok tt) as ->.
    { revert H. unfold unsubscribe. rewrite Hu, Hflag. now intros [= <- _]. }
    pose proof (pending_unsubscribe _ _ _ _ Hwf Hu H) as Hp.
    pose proof (live_unsubscribe _ _ _ _ Hu H) as Hl.
    pose proof (stable_unsubscribe _ _ _ _ Hwf H) as [Hwf' _].
    assert (typeof listener = TFunction) as Hf.
    { apply (proj1 (Forall_lookup _ _) Hfun _ _ Hu). }
    split; [exact Hwf'|]. split.
    + revert H. unfold unsubscribe. rewrite Hu, Hflag. intros [= <-]. simpl.
      assert (Forall (fun entry => typeof (fst entry) = TFunction)
                (<[u := (listener, false)]> (unsubscribers (the_store s)))).
      { apply Forall_insert; [exact Hfun | exact Hf]. }
      unfold ensureCanMutateNextListeners. now destruct (bool_decide _).
    + change (pending s' ≡ₚ live s'). rewrite Hp, Hl.
      assert (listener ∈ pending s) as Hin.
      { unfold pending. rewrite Hperm. eapply live_of_elem, Hu. }
      destruct (indexOf_found _ Hf _ Hin) as (i & -> & Hi). simpl.
      apply (Permutation_cons_inv (a := listener)).
      rewrite <- (delete_Permutation _ _ _ Hi).
      rewrite <- (live_of_withdrawn _ _ _ Hu). exact Hperm.
Qed.

Lemma tallied_reducer v t : tallied t -> tallied (set_currentReducer v t).
Proof. now destruct t. Qed.

Lemma tallied_state v t : tallied t -> tallied (set_currentState v t).
Proof. now destruct t. Qed.

Lemma tallied_snapshot t :
  tallied t -> tallied (set_currentListeners (nextListeners t) t).
Proof.
  destruct t. unfold tallied, wf, contents. simpl. intros ((? & ?) & ? & ?).
  now repeat split.
Qed.

Lemma tallied_dispatch fuel action :
  respects tallied (fun _ => tallied) (dispatch fuel action).
Proof.
  apply respects_dispatch; auto using tallied_reducer, tallied_state,
    tallied_snapshot, tallied_subscribe, tallied_unsubscribe.
Qed.

Lemma tallied_host fuel f args :
  respects tallied (fun _ => tallied) (run_with (dispatch fuel) f args).
Proof.
  apply respects_host; auto using tallied_reducer, tallied_state,
    tallied_snapshot, tallied_subscribe, tallied_unsubscribe.
Qed.

Lemma tallied_replaceReducer fuel nextReducer :
  respects tallied (fun _ => tallied)
    (Store.replaceReducer REPLACE ObjectPrototype Get body fuel nextReducer).
Proof.
  apply respects_replaceReducer; auto using tallied_reducer, tallied_state,
    tallied_snapshot, tallied_subscribe, tallied_unsubscribe.
Qed.

Lemma tallied_initial reducer preloadedState :
  tallied (Store_ reducer preloadedState 0 0 false [[]] []).
Proof. repeat split; simpl; auto. Qed.

(** X1: the pending list of a store always holds the listeners of its
    live subscriptions, each as many times as it has live subscriptions.
    This holds of the store [createStore] returns and is kept by
    [dispatch], [subscribe], every call of an [unsubscribe] closure,
    [replaceReducer] and every run of a reducer or listener, whatever these
    do and however they end. *)
Theorem subscriptions_tally fuel :
  (forall reducer preloadedState enhancer w t w',
     createStore fuel reducer preloadedState enhancer w = (Ok (Created t), w') ->
     tallied t) /\
  (forall s,
     tallied (the_store s) ->
     (forall action, tallied (the_store (snd (dispatch fuel action s)))) /\
     (forall listener, tallied (the_store (snd (subscribe listener s)))) /\
     (forall u, tallied (the_store (snd (unsubscribe u s)))) /\
     (forall nextReducer,
        tallied (the_store
                   (snd (Store.replaceReducer REPLACE ObjectPrototype Get body
                           fuel nextReducer s)))) /\
     (forall f args,
        tallied (the_store (snd (run_with (dispatch fuel) f args s))))).
Proof.
  split.
  - intros reducer preloadedState enhancer w t w'.
    unfold createStore, Store.createStore.
    destruct (_ && _);
      (destruct (bool_decide (typeof _ <> TUndefined));
       [destruct (bool_decide _); [discriminate|]; unfold bind;
        destruct (enhance _ _ _ _) as [[result| |] w1]; discriminate|]);
      (destruct (bool_decide _); [discriminate|]).
    all: unfold bind, in_world, alloc; simpl the_store; simpl the_world.
    all: match goal with
      | |- context [Store.dispatch _ _ _ _ ?n ?a ?s0] =>
          destruct (Store.dispatch REPLACE ObjectPrototype Get body n a s0)
            as [[v|e|] s1] eqn:Hd
      end; try discriminate;
      intros [= <- _]; refine (tallied_dispatch _ _ _ _ _ _ Hd); apply tallied_initial.
  - intros s HP. split; [|split; [|split; [|split]]].
    + intros action. destruct (dispatch fuel action s) eqn:E.
      eapply tallied_dispatch; eauto.
    + intros listener. destruct (subscribe listener s) eqn:E.
      eapply tallied_subscribe; eauto.
    + intros u. destruct (unsubscribe u s) eqn:E.
      eapply tallied_unsubscribe; eauto.
    + intros nextReducer.
      destruct (Store.replaceReducer _ _ _ _ fuel nextReducer s) eqn:E.
      eapply tallied_replaceReducer; eauto.
    + intros f args. destruct (run_with (dispatch fuel) f args s) eqn:E.
      eapply tallied_host; eauto.
Qed.

(** X2: in a store whose pending list tallies with its subscriptions, the
    first call of an [unsubscribe] closure on an idle store always finds
    its listener in the pending list ([indexOf] never gives -1, so
    [splice] never removes the last listener instead) and removes exactly
    that one entry. *)
Theorem unsubscribe_removes_one s u listener :
  tallied (the_store s) ->
  unsubscribers (the_store s) !! u = Some (listener, true) ->
  isDispatching (the_store s) = false ->
  exists i s',
    indexOf listener (pending s) = Some i /\
    pending s !! i = Some listener /\
    unsubscribe u s = (Ok tt, s') /\
    pending s' = delete i (pending s) /\
    pending s ≡ₚ listener :: pending s'.
Proof.
  intros (Hwf & Hfun & Hperm) Hu Hflag.
  assert (typeof listener = TFunction) as Hf.
  { apply (proj1 (Forall_lookup _ _) Hfun _ _ Hu). }
  assert (listener ∈ pending s) as Hin.
  { unfold pending. rewrite Hperm. eapply live_of_elem, Hu. }
  destruct (indexOf_found _ Hf _ Hin) as (i & Hi & Hl).
  destruct (unsubscribe u s) as [r s'] eqn:H.
  assert (r = Ok tt) as ->.
  { revert H. unfold unsubscribe. rewrite Hu, Hflag. now intros [= <- _]. }
  pose proof (pending_unsubscribe _ _ _ _ Hwf Hu H) as Hp.
  rewrite Hi in Hp. simpl in Hp.
  exists i, s'. repeat split; try assumption.
  rewrite Hp. now apply delete_Permutation.
Qed.

(** X3: [isDispatching] is the same after a call as before it, for
    [dispatch], [replaceReducer], [subscribe], an [unsubscribe] closure and
    any run of a reducer or listener, however the call ends: the flag
    [dispatch] sets is always cleared again, also when the reducer
    throws, and a call made while the reducer runs never clears it. *)
Theorem isDispatching_restored fuel s :
  (forall action,
     isDispatching (the_store (snd (dispatch fuel action s)))
     = isDispatching (the_store s)) /\
  (forall nextReducer,
     isDispatching
       (the_store (snd (Store.replaceReducer REPLACE ObjectPrototype Get body
                          fuel nextReducer s)))
     = isDispatching (the_store s)) /\
  (forall listener,
     isDispatching (the_store (snd (subscribe listener s)))
     = isDispatching (the_store s)) /\
  (forall u,
     isDispatching (the_store (snd (unsubscribe u s)))
     = isDispatching (the_store s)) /\
  (forall f args,
     isDispatching (the_store (snd (run_with (dispatch fuel) f args s)))
     = isDispatching (the_store s)).
Proof.
  set (R := fun t t' : store => isDispatching t' = isDispatching t).
  assert (forall listener, respects (fun _ => True) R (subscribe listener))
    as Hsub.
  { intros listener s0 r s0' _. unfold subscribe, R.
    destruct (bool_decide _); [now intros [= _ <-]|].
    destruct (isDispatching (the_store s0)) eqn:E; [now intros [= _ <-]|].
    intros [= _ <-]. simpl. unfold ensureCanMutateNextListeners.
    now destruct (bool_decide _). }
  assert (forall u, respects (fun _ => True) R (unsubscribe u)) as Hunsub.
  { intros u s0 r s0' _. unfold unsubscribe, R.
    destruct (_ !! u) as [[l []]|]; simpl; try now intros [= _ <-].
    destruct (isDispatching (the_store s0)) eqn:E; [now intros [= _ <-]|].
    intros [= _ <-]. simpl. unfold ensureCanMutateNextListeners.
    now destruct (bool_decide _). }
  assert (forall t1 t2 t3, R t1 t2 -> R t2 t3 -> R t1 t3) as Htrans.
  { unfold R. intros. congruence. }
  split; [|split; [|split; [|split]]].
  - intros action. destruct (dispatch fuel action s) eqn:E.
    refine (respects_dispatch (fun _ => True) R _ Htrans _ _ _ _ Hsub Hunsub
              fuel action _ _ _ I E); now unfold R.
  - intros nextReducer.
    destruct (Store.replaceReducer _ _ _ _ fuel nextReducer s) eqn:E.
    refine (respects_replaceReducer (fun _ => True) R _ Htrans _ _ _ _ Hsub
              Hunsub fuel nextReducer _ _ _ I E); now unfold R.
  - intros listener. destruct (subscribe listener s) eqn:E.
    exact (Hsub _ _ _ _ I E).
  - intros u. destruct (unsubscribe u s) eqn:E.
    exact (Hunsub _ _ _ _ I E).
  - intros f args. destruct (run_with (dispatch fuel) f args s) eqn:E.
    refine (respects_host (fun _ => True) R _ Htrans _ _ _ _ Hsub Hunsub
              fuel f args _ _ _ I E); now unfold R.
Qed.

Lemma withdrawn_subscribe u listener :
  respects (withdrawn u) (fun _ => withdrawn u) (subscribe listener).
Proof.
  intros s r s' [l Hl]. unfold subscribe, withdrawn.
  destruct (bool_decide _); [intros [= _ <-]; eauto|].
  destruct (isDispatching (the_store s)); [intros [= _ <-]; eauto|].
  intros [= _ <-]. simpl. exists l.
  apply lookup_app_l_Some.
  unfold ensureCanMutateNextListeners. now destruct (bool_decide _).
Qed.

Lemma withdrawn_unsubscribe u u' :
  respects (withdrawn u) (fun _ => withdrawn u) (unsubscribe u').
Proof.
  intros s r s' [l Hl]. unfold unsubscribe, withdrawn.
  destruct (_ !! u') as [[l' []]|] eqn:Hu'; simpl;
    try (intros [= _ <-]; eauto).
  destruct (isDispatching (the_store s)); [intros [= _ <-]; eauto|].
  intros [= _ <-]. simpl. exists l.
  assert (u' <> u) by congruence.
  assert (<[u' := (l', false)]> (unsubscribers (the_store s)) !! u
          = Some (l, false)) as Hins.
  { now rewrite list_lookup_insert_ne. }
  unfold ensureCanMutateNextListeners. now destruct (bool_decide _).
Qed.

(** X4: an [unsubscribe] closure works once.  Its first call on an idle
    store clears its [isSubscribed]; from then on every call of it returns
    at once and changes nothing, also while the reducer runs, and nothing
    the store or the host functions do sets [isSubscribed] again. *)
Theorem unsubscribe_once fuel s u :
  (forall listener,
     unsubscribers (the_store s) !! u = Some (listener, true) ->
     isDispatching (the_store s) = false ->
     withdrawn u (the_store (snd (unsubscribe u s)))) /\
  (withdrawn u (the_store s) ->
     unsubscribe u s = (Ok tt, s) /\
     (forall action, withdrawn u (the_store (snd (dispatch fuel action s)))) /\
     (forall nextReducer,
        withdrawn u
          (the_store (snd (Store.replaceReducer REPLACE ObjectPrototype Get body
                             fuel nextReducer s)))) /\
     (forall listener, withdrawn u (the_store (snd (subscribe listener s)))) /\
     (forall u', withdrawn u (the_store (snd (unsubscribe u' s)))) /\
     (forall f args,
        withdrawn u (the_store (snd (run_with (dispatch fuel) f args s))))).
Proof.
  assert (forall v t, withdrawn u t -> withdrawn u (set_currentReducer v t))
    as Hr by now intros v [].
  assert (forall v t, withdrawn u t -> withdrawn u (set_currentState v t))
    as Hs by now intros v [].
  assert (forall t, withdrawn u t ->
            withdrawn u (set_currentListeners (nextListeners t) t))
    as Hl by now intros [].
  split.
  - intros listener Hu Hflag. unfold unsubscribe. rewrite Hu, Hflag. simpl.
    exists listener.
    assert (<[u := (listener, false)]> (unsubscribers (the_store s)) !! u
            = Some (listener, false)) as Hins.
    { apply list_lookup_insert_eq. eapply lookup_lt_Some, Hu. }
    unfold ensureCanMutateNextListeners. now destruct (bool_decide _).
  - intros HP. split; [|split; [|split; [|split; [|split]]]].
    + destruct HP as [l Hu]. unfold unsubscribe. now rewrite Hu.
    + intros action. destruct (dispatch fuel action s) eqn:E.
      refine (respects_dispatch (withdrawn u) (fun _ => withdrawn u) _ _ _
                Hr Hs Hl (withdrawn_subscribe u) (withdrawn_unsubscribe u)
                fuel action _ _ _ HP E); auto.
    + intros nextReducer.
      destruct (Store.replaceReducer _ _ _ _ fuel nextReducer s) eqn:E.
      refine (respects_replaceReducer (withdrawn u) (fun _ => withdrawn u) _ _ _
                Hr Hs Hl (withdrawn_subscribe u) (withdrawn_unsubscribe u)
                fuel nextReducer _ _ _ HP E); auto.
    + intros listener. destruct (subscribe listener s) eqn:E.
      exact (withdrawn_subscribe u listener _ _ _ HP E).
    + intros u'. destruct (unsubscribe u' s) eqn:E.
      exact (withdrawn_unsubscribe u u' _ _ _ HP E).
    + intros f args. destruct (run_with (dispatch fuel) f args s) eqn:E.
      refine (respects_host (withdrawn u) (fun _ => withdrawn u) _ _ _
                Hr Hs Hl (withdrawn_subscribe u) (withdrawn_unsubscribe u)
                fuel f args _ _ _ HP E); auto.
Qed.

(** *** Subscribing and unsubscribing *)

Lemma indexOf_last listener xs :
  typeof listener = TFunction ->
  listener ∉ xs ->
  indexOf listener (xs ++ [listener])%list = Some (length xs).
Proof.
  intros Hf. induction xs as [|x xs IH]; intros Hin; simpl;
    rewrite (strict_eq_function _ _ Hf).
  - now rewrite bool_decide_eq_true_2.
  - apply not_elem_of_cons in Hin as [Hne Hin].
    rewrite bool_decide_eq_false_2 by congruence.
    now rewrite (IH Hin).
Qed.

Lemma delete_last {A} (xs : list A) x :
  delete (length xs) (xs ++ [x])%list = xs.
Proof. induction xs as [|y xs IH]; simpl; [reflexivity | now rewrite IH]. Qed.

(** X5: subscribing a function that is not in the pending list and calling
    the [unsubscribe] closure this returns restores the pending list and
    the live subscriptions; the list a running dispatch iterates is
    untouched by both calls. *)
Theorem subscribe_unsubscribe s listener :
  wf (the_store s) ->
  isDispatching (the_store s) = false ->
  typeof listener = TFunction ->
  listener ∉ pending s ->
  exists u s1 s2,
    subscribe listener s = (Ok u, s1) /\
    unsubscribe u s1 = (Ok tt, s2) /\
    pending s1 = (pending s ++ [listener])%list /\
    pending s2 = pending s /\
    live s2 = live s /\
    contents (the_store s2) (currentListeners (the_store s))
    = contents (the_store s) (currentListeners (the_store s)).
Proof.
  intros Hwf Hflag Hf Hin.
  destruct (subscribe listener s) as [r s1] eqn:H1.
  assert (r = Ok (length (unsubscribers (the_store s))) /\
          unsubscribers (the_store s1)
          = (unsubscribers (the_store s) ++ [(listener, true)])%list /\
          isDispatching (the_store s1) = false) as (-> & Hus & Hflag1).
  { revert H1. unfold subscribe.
    rewrite bool_decide_eq_false_2 by (intros H; now apply H). rewrite Hflag.
    intros [= <- <-]. simpl. unfold ensureCanMutateNextListeners.
    now destruct (bool_decide _). }
  set (u := length (unsubscribers (the_store s))) in *.
  assert (unsubscribers (the_store s1) !! u = Some (listener, true)) as Hu.
  { rewrite Hus. unfold u. now rewrite lookup_app_r, Nat.sub_diag. }
  destruct (unsubscribe u s1) as [r s2] eqn:H2.
  assert (r = Ok tt) as ->.
  { revert H2. unfold unsubscribe. rewrite Hu, Hflag1. now intros [= <- _]. }
  pose proof (pending_subscribe _ _ _ _ Hwf H1) as Hp1.
  pose proof (stable_subscribe _ _ _ _ Hwf H1) as Hext1.
  pose proof (stable_unsubscribe _ _ _ _ (proj1 Hext1) H2) as Hext2.
  pose proof (pending_unsubscribe _ _ _ _ (proj1 Hext1) Hu H2) as Hp2.
  pose proof (live_subscribe _ _ _ _ H1) as Hl1.
  pose proof (live_unsubscribe _ _ _ _ Hu H2) as Hl2.
  exists u, s1, s2. repeat split; try assumption.
  - rewrite Hp2, Hp1, (indexOf_last _ _ Hf Hin). simpl. apply delete_last.
  - rewrite Hl2, Hus. unfold u, live.
    rewrite insert_app_r_alt, Nat.sub_diag by lia. simpl.
    generalize (unsubscribers (the_store s)) as us.
    induction us as [|[x []] us IH]; simpl; congruence.
  - assert (frozen (the_store s) (currentListeners (the_store s))) as Hfr.
    { destruct Hwf as [Hn Hc]. split; [exact Hc|].
      destruct (decide (currentListeners (the_store s)
                        = nextListeners (the_store s))); [right|left]; congruence. }
    apply contents_extends; [|exact Hfr].
    eapply extends_trans; eassumption.
Qed.

(** *** Calls made by the reducer *)

Lemma dispatch_rejected fuel action s type :
  PlainObject.isPlainObject fuel (heap (the_world s)) action = Some true ->
  Get (heap (the_world s)) action "type" = Ok type ->
  type <> VUndefined ->
  isDispatching (the_store s) = true ->
  dispatch (S fuel) action s = (Throw dispatch_while_dispatching, s).
Proof.
  intros Hplain Htype Hdef Hflag. simpl. rewrite dispatch_with_phases.
  unfold bind at 1. unfold isPlain at 1. rewrite Hplain. simpl.
  unfold bind at 1. unfold get at 1, Store.get. rewrite Htype.
  rewrite bool_decide_eq_false_2 by (destruct type; simpl; congruence).
  now rewrite Hflag.
Qed.

Lemma clear_isDispatching s :
  isDispatching (the_store s) = false ->
  with_store (set_isDispatching false) (with_store (set_isDispatching true) s)
  = s.
Proof. destruct s as [w []]. simpl. now intros ->. Qed.

(** X6: a valid [dispatch] made by the reducer has no effect but the error
    "Reducers may not dispatch actions." it gives the reducer, which goes
    on from there.  If the reducer lets the error escape, the outer
    [dispatch] throws it and leaves the store and the world as they were;
    if it catches the error and returns a state, the outer [dispatch]
    stores that state and notifies the listeners as usual. *)
Theorem dispatch_from_reducer fuel action inner r k s type type' :
  isDispatching (the_store s) = false ->
  PlainObject.isPlainObject (S fuel) (heap (the_world s)) action = Some true ->
  Get (heap (the_world s)) action "type" = Ok type ->
  type <> VUndefined ->
  PlainObject.isPlainObject fuel (heap (the_world s)) inner = Some true ->
  Get (heap (the_world s)) inner "type" = Ok type' ->
  type' <> VUndefined ->
  currentReducer (the_store s) = VFun r ->
  body r [currentState (the_store s); action] = Dispatch inner k ->
  run_with (dispatch (S fuel)) (VFun r) [currentState (the_store s); action]
    (with_store (set_isDispatching true) s)
  = exec (dispatch (S fuel)) (k (Throw dispatch_while_dispatching))
      (with_store (set_isDispatching true) s) /\
  (k (Throw dispatch_while_dispatching) = Raise dispatch_while_dispatching ->
     dispatch (S (S fuel)) action s = (Throw dispatch_while_dispatching, s)) /\
  (forall v,
     k (Throw dispatch_while_dispatching) = Return v ->
     dispatch (S (S fuel)) action s
     = notifying (S fuel) (run_with (dispatch (S fuel))) action
         (with_store (set_currentState v) s)).
Proof.
  intros Hflag Hplain Htype Hdef Hplain' Htype' Hdef' Hred Hbody.
  assert (run_with (dispatch (S fuel)) (VFun r)
            [currentState (the_store s); action]
            (with_store (set_isDispatching true) s)
          = exec (dispatch (S fuel)) (k (Throw dispatch_while_dispatching))
              (with_store (set_isDispatching true) s)) as Hrun.
  { unfold run_with, Store.run_with. rewrite Hbody.
    change (Store.exec REPLACE ObjectPrototype (dispatch (S fuel))
              (Dispatch inner k))
      with (observe (dispatch (S fuel) inner)
              (fun r => exec (dispatch (S fuel)) (k r))).
    unfold observe.
    rewrite (dispatch_rejected fuel inner _ type'); auto. }
  split; [exact Hrun|].
  assert (forall p,
            k (Throw dispatch_while_dispatching) = p ->
            reducing (run_with (dispatch (S fuel))) action s
            = try_finally
                (let! next := exec (dispatch (S fuel)) p in
                 fun s => (Ok tt, with_store (set_currentState next) s))
                (with_store (set_isDispatching false))
                (with_store (set_isDispatching true) s)) as Hphase.
  { intros p Hp. unfold reducing, try_finally. cbv zeta.
    change (currentReducer (the_store (with_store (set_isDispatching true) s)))
      with (currentReducer (the_store s)).
    change (currentState (the_store (with_store (set_isDispatching true) s)))
      with (currentState (the_store s)).
    unfold bind. rewrite Hred, Hrun, Hp. reflexivity. }
  split.
  - intros Hk.
    rewrite (dispatch_validated (S fuel) action s type); auto.
    unfold bind at 1. rewrite (Hphase _ Hk).
    unfold try_finally, bind. simpl exec. unfold throw.
    now rewrite clear_isDispatching.
  - intros v Hk.
    rewrite (dispatch_validated (S fuel) action s type); auto.
    unfold bind at 1. rewrite (Hphase _ Hk).
    unfold try_finally, bind. simpl exec. unfold ret.
    f_equal. destruct s as [w []]. simpl in *. now subst.
Qed.

(** *** The actions the store makes itself *)

(** The literal [{ type: t }], newly allocated, passes the validation of
    [dispatch]. *)
Lemma literal_action_valid fuel (h : gmap loc object) root t :
  h !! ObjectPrototype = Some root ->
  proto root = None ->
  reads_own_properties ->
  let a := fresh (dom h) in
  let h1 := <[a := Object (Some ObjectPrototype) [("type", VStr t)]]> h in
  PlainObject.isPlainObject (S fuel) h1 (VObj a) = Some true /\
  Get h1 (VObj a) "type" = Ok (VStr t).
Proof.
  intros Hroot Hnull Hown a h1.
  assert (a <> ObjectPrototype) as Hne.
  { intros E. apply (is_fresh (dom h)). fold a. rewrite E.
    apply elem_of_dom. now exists root. }
  assert (h1 !! a = Some (Object (Some ObjectPrototype) [("type", VStr t)]))
    as Ha by apply lookup_insert_eq.
  assert (h1 !! ObjectPrototype = Some root) as Hroot1.
  { unfold h1. rewrite lookup_insert_ne by exact Hne. exact Hroot. }
  split.
  - change (Some true) with (Some (bool_decide (1 = 1))).
    apply PlainObjectFacts.isPlainObject_depth; [|lia].
    eapply PlainObject.depth_link; [exact Ha | reflexivity |].
    eapply PlainObject.depth_root; [exact Hroot1 | exact Hnull].
  - eapply Hown; [exact Ha | reflexivity].
Qed.

(** X7: when [dispatch] has validated the action on an idle store and the
    reducer returns [next], the listener loop starts in a store that is
    idle again, whose [getState] gives [next] and whose pending list is
    the one from before the call; of the store, the reducer can have
    changed nothing but [currentReducer].  With no listener pending,
    [dispatch] then returns the action. *)
Theorem dispatch_updates_state fuel action s type next s0 :
  isDispatching (the_store s) = false ->
  PlainObject.isPlainObject fuel (heap (the_world s)) action = Some true ->
  Get (heap (the_world s)) action "type" = Ok type ->
  type <> VUndefined ->
  run_with (dispatch fuel) (currentReducer (the_store s))
    [currentState (the_store s); action]
    (with_store (set_isDispatching true) s) = (Ok next, s0) ->
  let s1 := Sys (the_world s0)
              (set_currentListeners (nextListeners (the_store s))
                 (set_currentState next
                    (set_currentReducer (currentReducer (the_store s0))
                       (the_store s)))) in
  dispatch (S fuel) action s
  = (notify fuel (run_with (dispatch fuel)) (nextListeners (the_store s)) 0 ;;
     ret action) s1 /\
  getState s1 = (Ok next, s1) /\
  pending s1 = pending s /\
  (pending s = [] -> dispatch (S fuel) action s = (Ok action, s1)).
Proof.
  intros Hflag Hplain Htype Hdef Hrun s1.
  pose proof (dispatch_reduced _ _ _ _ _ _ Hflag Hplain Htype Hdef Hrun) as H.
  assert (dispatch (S fuel) action s
          = (notify fuel (run_with (dispatch fuel))
               (nextListeners (the_store s)) 0 ;; ret action) s1) as H1.
  { rewrite H. reflexivity. }
  split; [exact H1|]. split; [|split].
  - unfold getState, s1. simpl. now rewrite Hflag.
  - reflexivity.
  - intros Hnone. rewrite H1.
    assert (contents (the_store s1) (nextListeners (the_store s)) = []) as Hc
      by exact Hnone.
    unfold bind. destruct fuel; cbn [notify]; rewrite Hc; reflexivity.
Qed.

(** X8: [replaceReducer] rejects a [nextReducer] that is not a function
    and changes nothing.  Otherwise it first replaces [currentReducer] and
    then dispatches [{ type: REPLACE }], and the replacement is not undone
    when that dispatch fails: called while the reducer runs, it throws
    "Reducers may not dispatch actions." with the reducer replaced; when
    [nextReducer] throws on the REPLACE action, the error propagates, the
    state is kept and the reducer stays replaced; when it returns [next],
    [next] becomes the state before the listeners are notified. *)
Theorem replaceReducer_effect fuel nextReducer s root :
  (typeof nextReducer <> TFunction ->
     Store.replaceReducer REPLACE ObjectPrototype Get body fuel nextReducer s
     = (Throw (Error "Expected the nextReducer to be a function."), s)) /\
  (typeof nextReducer = TFunction ->
   heap (the_world s) !! ObjectPrototype = Some root ->
   proto root = None ->
   reads_own_properties ->
   let a := fresh (dom (heap (the_world s))) in
   let s1 := Sys (set_heap
                    (insert a (Object (Some ObjectPrototype)
                                      [("type", VStr REPLACE)]))
                    (the_world s))
                 (set_currentReducer nextReducer (the_store s)) in
   (isDispatching (the_store s) = true ->
      Store.replaceReducer REPLACE ObjectPrototype Get body (S (S fuel))
        nextReducer s
      = (Throw dispatch_while_dispatching, s1)) /\
   (isDispatching (the_store s) = false ->
      (forall e s0,
         run_with (dispatch (S fuel)) nextReducer
           [currentState (the_store s); VObj a]
           (with_store (set_isDispatching true) s1) = (Throw e, s0) ->
         Store.replaceReducer REPLACE ObjectPrototype Get body (S (S fuel))
           nextReducer s
         = (Throw e,
            Sys (the_world s0)
                (set_currentReducer (currentReducer (the_store s0))
                   (the_store s)))) /\
      (forall next s0,
         run_with (dispatch (S fuel)) nextReducer
           [currentState (the_store s); VObj a]
           (with_store (set_isDispatching true) s1) = (Ok next, s0) ->
         Store.replaceReducer REPLACE ObjectPrototype Get body (S (S fuel))
           nextReducer s
         = (notifying (S fuel) (run_with (dispatch (S fuel))) (VObj a) ;;
            ret tt)
             (Sys (the_world s0)
                  (set_currentState next
                     (set_currentReducer (currentReducer (the_store s0))
                        (the_store s))))))).
Proof.
  split.
  - intros Hfun. unfold Store.replaceReducer, Store.replaceReducer_with.
    now rewrite bool_decide_eq_true_2.
  - intros Hfun Hroot Hnull Hown a s1.
    destruct (literal_action_valid fuel _ _ REPLACE Hroot Hnull Hown)
      as [Hplain Htype].
    fold a in Hplain, Htype.
    assert (Store.replaceReducer REPLACE ObjectPrototype Get body (S (S fuel))
              nextReducer s
            = (dispatch (S (S fuel)) (VObj a) ;; ret tt) s1) as Hstep.
    { unfold Store.replaceReducer, Store.replaceReducer_with.
      rewrite bool_decide_eq_false_2 by (intros H; now apply H). reflexivity. }
    split.
    + intros Hflag. rewrite Hstep. unfold bind.
      rewrite (dispatch_rejected (S fuel) (VObj a) s1 (VStr REPLACE));
        auto; discriminate.
    + intros Hflag. split.
      * intros e s0 Hrun. rewrite Hstep. unfold bind.
        rewrite (dispatch_reducer_raises (S fuel) (VObj a) s1 (VStr REPLACE)
                   e s0); auto; discriminate.
      * intros next s0 Hrun. rewrite Hstep. unfold bind at 1.
        rewrite (dispatch_reduced (S fuel) (VObj a) s1 (VStr REPLACE)
                   next s0); auto; discriminate.
Qed.

(** *** Construction, in general *)

(** X9: how [createStore] reads its arguments.  A function given as
    [preloadedState] with no [enhancer] is taken as the enhancer, with no
    preloaded state: the call does what [createStore(reducer, undefined,
    preloadedState)] does.  An [enhancer] that is neither undefined nor a
    function is an error, whatever the reducer is, and the world is as it
    was.  With a function as [enhancer], the reducer is not checked and
    no store is made here: the call does to the world what
    [enhancer(createStore)(reducer, preloadedState)] does, and returns or
    throws what that returns or throws.  Only without an enhancer is a
    [reducer] that is not a function an error, the world as it was. *)
Theorem createStore_arguments fuel reducer preloadedState enhancer w :
  (typeof preloadedState = TFunction -> typeof enhancer = TUndefined ->
     createStore fuel reducer preloadedState enhancer w
     = createStore fuel reducer VUndefined preloadedState w) /\
  (typeof enhancer <> TUndefined -> typeof enhancer <> TFunction ->
     createStore fuel reducer preloadedState enhancer w
     = (Throw (Error "Expected the enhancer to be a function."), w)) /\
  (typeof enhancer = TFunction ->
     createStore fuel reducer preloadedState enhancer w
     = match enhance enhancer reducer preloadedState w with
       | (Ok result, w') => (Ok (Enhanced result), w')
       | (Throw e, w') => (Throw e, w')
       | (Stuck, w') => (Stuck, w')
       end) /\
  (typeof enhancer = TUndefined -> typeof preloadedState <> TFunction ->
   typeof reducer <> TFunction ->
     createStore fuel reducer preloadedState enhancer w
     = (Throw (Error "Expected the reducer to be a function."), w)).
Proof.
  unfold createStore, Store.createStore. split; [|split; [|split]].
  - intros Hp He. rewrite !bool_decide_eq_true_2 by assumption. simpl.
    reflexivity.
  - intros He He'.
    rewrite (bool_decide_eq_false_2 (typeof enhancer = TUndefined))
      by assumption.
    rewrite andb_false_r.
    now rewrite !bool_decide_eq_true_2 by assumption.
  - intros He.
    rewrite (bool_decide_eq_false_2 (typeof enhancer = TUndefined))
      by congruence.
    rewrite andb_false_r.
    rewrite bool_decide_eq_true_2 by congruence.
    rewrite bool_decide_eq_false_2 by tauto. unfold bind.
    now destruct (enhance enhancer reducer preloadedState w) as [[result|e|] w'].
  - intros He Hp Hr.
    rewrite (bool_decide_eq_false_2 (typeof preloadedState = TFunction))
      by assumption.
    simpl.
    rewrite bool_decide_eq_false_2 by tauto.
    now rewrite bool_decide_eq_true_2 by assumption.
Qed.

(** X10: without an enhancer, [createStore(reducer, preloadedState)] calls
    the reducer once, with [preloadedState] and a new action
    [{ type: INIT }].  If that call returns [next], the store is created
    with state [next], idle and without listeners; if it throws, so does
    [createStore], and no store is made. *)
Theorem createStore_preloaded fuel reducer preloadedState w root r0 s0 :
  typeof reducer = TFunction ->
  typeof preloadedState <> TFunction ->
  heap w !! ObjectPrototype = Some root ->
  proto root = None ->
  reads_own_properties ->
  let a := fresh (dom (heap w)) in
  let w1 := set_heap
              (insert a (Object (Some ObjectPrototype) [("type", VStr INIT)])) w in
  run_with (dispatch (S fuel)) reducer [preloadedState; VObj a]
    (Sys w1 (Store_ reducer preloadedState 0 0 true [[]] [])) = (r0, s0) ->
  (forall next,
     r0 = Ok next ->
     createStore (S (S fuel)) reducer preloadedState VUndefined w
     = (Ok (Created (Store_ (currentReducer (the_store s0)) next 0 0 false
                            [[]] [])),
        the_world s0)) /\
  (forall e,
     r0 = Throw e ->
     createStore (S (S fuel)) reducer preloadedState VUndefined w
     = (Throw e, the_world s0)).
Proof.
  intros Hfun Hpre Hroot Hnull Hown a w1 Hrun.
  destruct (literal_action_valid fuel _ _ INIT Hroot Hnull Hown)
    as [Hplain Htype].
  fold a in Hplain, Htype.
  set (t0 := Store_ reducer preloadedState 0 0 false [[]] []).
  assert (createStore (S (S fuel)) reducer preloadedState VUndefined w
          = let '(r, s) := dispatch (S (S fuel)) (VObj a) (Sys w1 t0) in
            match r with
            | Ok _ => (Ok (Created (the_store s)), the_world s)
            | Throw e => (Throw e, the_world s)
            | Stuck => (Stuck, the_world s)
            end) as Hstep.
  { unfold createStore, Store.createStore.
    rewrite (bool_decide_eq_false_2 (typeof preloadedState = TFunction))
      by assumption.
    rewrite andb_false_l.
    rewrite (bool_decide_eq_false_2 (typeof VUndefined <> TUndefined))
      by (intros H; now apply H).
    rewrite bool_decide_eq_false_2 by tauto. reflexivity. }
  split.
  - intros next ->. rewrite Hstep.
    rewrite (dispatch_reduced (S fuel) (VObj a) (Sys w1 t0) (VStr INIT)
               next s0); auto; try discriminate.
  - intros e ->. rewrite Hstep.
    rewrite (dispatch_reducer_raises (S fuel) (VObj a) (Sys w1 t0) (VStr INIT)
               e s0); auto; try discriminate.
Qed.

(** *** Copy on write *)

Lemma frozen_current t : wf t -> frozen t (currentListeners t).
Proof.
  intros [Hn Hc]. split; [exact Hc|].
  destruct (decide (currentListeners t = nextListeners t)); [right|left];
    congruence.
Qed.

(** X11: the array that is [currentListeners] when a call starts, the one
    a dispatch in progress iterates, has the same contents when the call
    ends, for [subscribe], an [unsubscribe] closure, [dispatch] and any
    run of a reducer or listener: [ensureCanMutateNextListeners] makes
    [subscribe] and [unsubscribe] write to a copy, and after a successful
    [subscribe] the two lists are different arrays. *)
Theorem currentListeners_never_written fuel s :
  wf (the_store s) ->
  let a := currentListeners (the_store s) in
  (forall listener,
     contents (the_store (snd (subscribe listener s))) a
     = contents (the_store s) a /\
     (forall u s', subscribe listener s = (Ok u, s') ->
        nextListeners (the_store s') <> currentListeners (the_store s'))) /\
  (forall u,
     contents (the_store (snd (unsubscribe u s))) a = contents (the_store s) a) /\
  (forall action,
     contents (the_store (snd (dispatch fuel action s))) a
     = contents (the_store s) a) /\
  (forall f args,
     contents (the_store (snd (run_with (dispatch fuel) f args s))) a
     = contents (the_store s) a).
Proof.
  intros Hwf a. pose proof (frozen_current _ Hwf) as Hfr. fold a in Hfr.
  split; [|split; [|split]].
  - intros listener. split.
    + destruct (subscribe listener s) eqn:E.
      apply contents_extends; [|exact Hfr].
      eapply stable_subscribe; eauto.
    + intros u s'. unfold subscribe.
      destruct (bool_decide _); [discriminate|].
      destruct (isDispatching _); [discriminate|].
      intros [= _ <-]. simpl.
      apply (ensure_spec _ Hwf).
  - intros u. destruct (unsubscribe u s) eqn:E.
    apply contents_extends; [|exact Hfr].
    eapply stable_unsubscribe; eauto.
  - intros action. destruct (dispatch fuel action s) eqn:E.
    apply contents_extends; [|exact Hfr].
    eapply stable_dispatch; eauto.
  - intros f args. destruct (run_with (dispatch fuel) f args s) eqn:E.
    apply contents_extends; [|exact Hfr].
    eapply stable_run_with; eauto. intros a0. apply stable_dispatch.
Qed.

(** *** A listener that throws *)

Lemma host_keeps_flag fuel f args s r s' :
  run_with (dispatch fuel) f args s = (r, s') ->
  isDispatching (the_store s') = isDispatching (the_store s).
Proof.
  set (R := fun t t' : store => isDispatching t' = isDispatching t).
  intros E.
  refine (respects_host (fun _ => True) R _ _ _ _ _ _ _ _
            fuel f args _ _ _ I E); try now unfold R.
  - unfold R. intros. congruence.
  - intros listener s0 r0 s0' _. unfold subscribe, R.
    destruct (bool_decide _); [now intros [= _ <-]|].
    destruct (isDispatching (the_store s0)) eqn:E0; [now intros [= _ <-]|].
    intros [= _ <-]. simpl. unfold ensureCanMutateNextListeners.
    now destruct (bool_decide _).
  - intros u s0 r0 s0' _. unfold unsubscribe, R.
    destruct (_ !! u) as [[l []]|]; simpl; try now intros [= _ <-].
    destruct (isDispatching (the_store s0)) eqn:E0; [now intros [= _ <-]|].
    intros [= _ <-]. simpl. unfold ensureCanMutateNextListeners.
    now destruct (bool_decide _).
Qed.

Lemma call_each_keeps_flag fuel listeners :
  forall s r s',
    call_each (run_with (dispatch fuel)) listeners s = (r, s') ->
    isDispatching (the_store s') = isDispatching (the_store s).
Proof.
  induction listeners as [|x listeners IH]; intros s r s'; simpl.
  - now intros [= _ <-].
  - unfold bind.
    destruct (run_with _ x [] s) as [[v|e|] s1] eqn:E;
      pose proof (host_keeps_flag _ _ _ _ _ _ E) as Hflag.
    + intros H. rewrite (IH _ _ _ H). exact Hflag.
    + now intros [= _ <-].
    + now intros [= _ <-].
Qed.

(** X20: when a listener throws, [dispatch] throws the same error at once:
    the listeners after it in the pending list are not called, and the
    state change is not undone.  For any listener of the pending list:
    the loop starts in a store whose state is already the reducer's
    result; if the listeners before this one return when called in turn
    and this one throws, the store it leaves is the store [dispatch]
    leaves, idle, and what it threw is what [dispatch] throws. *)
Theorem dispatch_listener_throws
    fuel action s type next s0 before listener rest sa e s2 :
  wf (the_store s) ->
  isDispatching (the_store s) = false ->
  PlainObject.isPlainObject (S fuel) (heap (the_world s)) action = Some true ->
  Get (heap (the_world s)) action "type" = Ok type ->
  type <> VUndefined ->
  run_with (dispatch (S fuel)) (currentReducer (the_store s))
    [currentState (the_store s); action]
    (with_store (set_isDispatching true) s) = (Ok next, s0) ->
  pending s = (before ++ listener :: rest)%list ->
  length before <= fuel ->
  let s1 := Sys (the_world s0)
              (set_currentListeners (nextListeners (the_store s))
                 (set_currentState next
                    (set_currentReducer (currentReducer (the_store s0))
                       (the_store s)))) in
  call_each (run_with (dispatch (S fuel))) before s1 = (Ok tt, sa) ->
  run_with (dispatch (S fuel)) listener [] sa = (Throw e, s2) ->
  dispatch (S (S fuel)) action s = (Throw e, s2) /\
  getState s1 = (Ok next, s1) /\
  isDispatching (the_store s2) = false.
Proof.
  intros Hwf Hflag Hplain Htype Hdef Hrun Hpending Hlen s1 Hbefore Hthrow.
  pose proof (dispatch_reduced _ _ _ _ _ _ Hflag Hplain Htype Hdef Hrun) as H.
  split; [|split].
  - rewrite H. unfold notifying. cbv zeta.
    change (with_store _ _) with s1.
    change (currentListeners (the_store s1)) with (nextListeners (the_store s)).
    unfold bind at 1.
    rewrite (notify_stops (run_with (dispatch (S fuel)))
               (fun f args => stable_run_with _ f args (stable_dispatch (S fuel)))
               before (S fuel) (nextListeners (the_store s)) 0 s1 (pending s)
               listener rest sa e s2
               (wf_snapshot _ _ _ _ Hwf) (frozen_after_snapshot _ _ _ _ Hwf)
               eq_refl Hpending ltac:(lia) Hbefore Hthrow).
    reflexivity.
  - unfold getState, s1. simpl. now rewrite Hflag.
  - rewrite (host_keeps_flag _ _ _ _ _ _ Hthrow).
    rewrite (call_each_keeps_flag _ _ _ _ _ Hbefore). exact Hflag.
Qed.

End StoreRuns.
End StoreFacts.


Module StoreWitnesses.
Import JS Store StoreFacts StoreSample.

Example counter_store :
  getState (after (dispatch 5 INC) (after (dispatch 5 INC) (created (VFun (Native 0)))))
  = (Ok (VNum 2),
     after (dispatch 5 INC) (after (dispatch 5 INC) (created (VFun (Native 0))))).
Proof. vm_compute. reflexivity. Qed.

Example snapshot_first_dispatch :
  console (the_world (after (dispatch 5 NOP) snapshot_scenario)) = ["A"; "B"].
Proof. vm_compute. reflexivity. Qed.

Example snapshot_second_dispatch :
  console (the_world (after (dispatch 5 NOP)
                        (after (dispatch 5 NOP) snapshot_scenario)))
  = ["A"; "B"; "A"; "C"].
Proof. vm_compute. reflexivity. Qed.

Lemma dispatch_runs_snapshot_witness :
  dispatch 5 NOP snapshot_scenario
  = dispatch_over Sample.Get [A; B] 4
      (run_with Sample.REPLACE Sample.ObjectPrototype body (dispatch 4))
      NOP snapshot_scenario
  /\ pending (after (subscribe C) snapshot_scenario) = [A; B; C]
  /\ pending (after (unsubscribe 0) snapshot_scenario) = [B].
Proof.
  destruct (dispatch_runs_snapshot Sample.REPLACE Sample.ObjectPrototype
              Sample.Get body 4 NOP snapshot_scenario) as (Hrun & Hsub & Hunsub).
  - unfold wf. vm_compute. lia.
  - vm_compute. lia.
  - split; [exact Hrun|]. split.
    + refine (proj1 (Hsub C 2 _ _)). vm_compute. reflexivity.
    + refine (proj1 (Hunsub 0 A _ _ _)); vm_compute; reflexivity.
Defined.

(** C2, the parts that fail.  B is subscribed, then C, then B again, and
    the third subscription is withdrawn: the two subscriptions that remain
    were made in the order B, C, and the dispatch calls C, then B.  And
    with a listener that throws subscribed before B, the dispatch throws
    and B is not called. *)
Lemma listeners_not_in_registration_order :
  let s := after (unsubscribe 2)
             (after (subscribe B)
                (after (subscribe C)
                   (after (subscribe B) (created (VFun (Native 0)))))) in
  let s' := after (subscribe B)
              (after (subscribe (VFun (Native 13)))
                 (created (VFun (Native 0)))) in
  (unsubscribers (the_store s) = [(B, true); (C, true); (B, false)] /\
   fst (dispatch 5 NOP s) = Ok NOP /\
   console (the_world (after (dispatch 5 NOP) s)) = ["C"; "B"]) /\
  (pending s' = [VFun (Native 13); B] /\
   fst (dispatch 5 NOP s') = Throw (Error "listener") /\
   console (the_world (after (dispatch 5 NOP) s')) = []).
Proof. vm_compute. repeat split. Qed.

Lemma dispatch_reducer_throws_witness :
  exists s',
    dispatch 5 BAD fussy_store = (Throw (Error "bad"), s') /\
    currentState (the_store s') = VNum 0 /\
    isDispatching (the_store s') = false /\
    pending s' = [B] /\
    console (the_world s') = [] /\
    getState s' = (Ok (VNum 0), s').
Proof.
  destruct (dispatch_reducer_throws Sample.REPLACE Sample.ObjectPrototype
              Sample.Get body 4 BAD fussy_store (VStr "BAD") (Error "bad")
              (with_store (set_isDispatching true) fussy_store))
    as (Hrun & _ & Hstate & Hidle & Hpending & _ & Hget & _).
  - reflexivity.
  - vm_compute. reflexivity.
  - vm_compute. reflexivity.
  - discriminate.
  - vm_compute. reflexivity.
  - eexists. split; [exact Hrun|]. split; [exact Hstate|].
    split; [exact Hidle|]. split; [exact Hpending|]. split; [|exact Hget].
    vm_compute. reflexivity.
Defined.



Lemma reentrancy_guard_witness :
  getState fussy_store_dispatching
  = (Throw getState_while_dispatching, fussy_store_dispatching) /\
  subscribe C fussy_store_dispatching
  = (Throw subscribe_while_dispatching, fussy_store_dispatching) /\
  unsubscribe 0 fussy_store_dispatching
  = (Throw unsubscribe_while_dispatching, fussy_store_dispatching) /\
  getState fussy_store = (Ok (VNum 0), fussy_store) /\
  (exists s', subscribe C fussy_store = (Ok 1, s')) /\
  (exists s', unsubscribe 0 fussy_store = (Ok tt, s')).
Proof.
  destruct (proj1 (reentrancy_guard fussy_store_dispatching) eq_refl)
    as (Hget & Hsub & Hunsub).
  destruct (proj2 (reentrancy_guard fussy_store) eq_refl)
    as (Hget' & Hsub' & Hunsub').
  split; [exact Hget|]. split; [exact (Hsub C eq_refl)|].
  split; [apply (Hunsub 0 B); vm_compute; reflexivity|].
  split; [exact Hget'|]. split; [exact (Hsub' C eq_refl)|].
  apply (Hunsub' 0 B true). vm_compute. reflexivity.
Defined.

(** A reducer that calls [getState] is turned down, and so is the
    dispatch that called it. *)
Example reducer_reads_store :
  fst (dispatch 5 NOP
         (with_store (set_currentReducer (VFun (Native 4))) fussy_store))
  = Throw getState_while_dispatching.
Proof. vm_compute. reflexivity. Qed.

Lemma sample_reads_own_properties : reads_own_properties Sample.Get.
Proof.
  intros h l o k v Hl Hk. unfold Sample.Get. now rewrite Hl, Hk.
Qed.

Lemma createStore_initial_state_witness :
  exists t w',
    createStore 5 (VFun (Native 0)) VUndefined VUndefined Sample.world0
    = (Ok (Created t), w') /\
    currentState t = VNum 0 /\
    getState (Sys w' t) = (Ok (VNum 0), Sys w' t).
Proof.
  eexists _, _.
  refine (createStore_initial_state Sample.INIT Sample.REPLACE
            Sample.ObjectPrototype Sample.Get body enhance 3 (VFun (Native 0))
            Sample.world0 (Object None []) (VNum 0) _ eq_refl _ eq_refl
            sample_reads_own_properties _).
  - vm_compute. reflexivity.
  - vm_compute. reflexivity.
Defined.

Ltac tallied_by_computation :=
  split; [split; vm_compute; lia
         |split; [vm_compute; repeat constructor | vm_compute; reflexivity]].

Lemma subscriptions_tally_witness :
  tallied (the_store snapshot_scenario) /\
  tallied (the_store (after (dispatch 5 NOP) snapshot_scenario)).
Proof.
  assert (tallied (the_store snapshot_scenario)) as H
    by tallied_by_computation.
  split; [exact H|].
  exact (proj1 (proj2 (subscriptions_tally Sample.INIT Sample.REPLACE
                         Sample.ObjectPrototype Sample.Get body enhance 5)
                 snapshot_scenario H) NOP).
Defined.

Lemma unsubscribe_removes_one_witness :
  exists i s',
    indexOf A (pending snapshot_scenario) = Some i /\
    pending snapshot_scenario !! i = Some A /\
    unsubscribe 0 snapshot_scenario = (Ok tt, s') /\
    pending s' = delete i (pending snapshot_scenario) /\
    pending snapshot_scenario ≡ₚ A :: pending s'.
Proof.
  apply (unsubscribe_removes_one snapshot_scenario 0 A).
  - tallied_by_computation.
  - vm_compute. reflexivity.
  - vm_compute. reflexivity.
Defined.

Lemma unsubscribe_once_witness :
  let s := after (unsubscribe 1) snapshot_scenario in
  withdrawn 1 (the_store s) /\
  unsubscribe 1 s = (Ok tt, s) /\
  withdrawn 1 (the_store (after (dispatch 5 NOP) s)).
Proof.
  intros s.
  pose proof (proj1 (unsubscribe_once Sample.REPLACE Sample.ObjectPrototype
                       Sample.Get body 5 snapshot_scenario 1) B
                ltac:(vm_compute; reflexivity) ltac:(vm_compute; reflexivity))
    as H.
  change (withdrawn 1 (the_store s)) in H.
  destruct (proj2 (unsubscribe_once Sample.REPLACE Sample.ObjectPrototype
                     Sample.Get body 5 s 1) H) as (H1 & H2 & _).
  split; [exact H|]. split; [exact H1 | exact (H2 NOP)].
Defined.

Lemma subscribe_unsubscribe_witness :
  exists u s1 s2,
    subscribe C snapshot_scenario = (Ok u, s1) /\
    unsubscribe u s1 = (Ok tt, s2) /\
    pending s1 = [A; B; C] /\
    pending s2 = [A; B] /\
    live s2 = [A; B] /\
    contents (the_store s2) (currentListeners (the_store snapshot_scenario)) = [].
Proof.
  destruct (subscribe_unsubscribe snapshot_scenario C)
    as (u & s1 & s2 & H1 & H2 & H3 & H4 & H5 & H6).
  - split; vm_compute; lia.
  - vm_compute. reflexivity.
  - reflexivity.
  - vm_compute. intros H.
    repeat (apply elem_of_cons in H as [H|H]; [discriminate|]).
    now apply elem_of_nil in H.
  - exists u, s1, s2. repeat split; assumption.
Defined.

Lemma dispatch_from_reducer_witness :
  ReentrantSample.dispatch 3 INC (ReentrantSample.store_of (VFun (Native 30)))
  = (Throw dispatch_while_dispatching,
     ReentrantSample.store_of (VFun (Native 30))) /\
  ReentrantSample.dispatch 3 INC (ReentrantSample.store_of (VFun (Native 31)))
  = notifying 2
      (run_with Sample.REPLACE Sample.ObjectPrototype ReentrantSample.body
         (ReentrantSample.dispatch 2))
      INC
      (with_store (set_currentState (VNum 7))
         (ReentrantSample.store_of (VFun (Native 31)))).
Proof.
  split.
  - refine (proj1 (proj2
      (dispatch_from_reducer Sample.REPLACE Sample.ObjectPrototype Sample.Get
         ReentrantSample.body 1 INC NOP (Native 30) _
         (ReentrantSample.store_of (VFun (Native 30)))
         (VStr "INC") (VStr "NOP") _ _ _ _ _ _ _ _ _)) _);
      try discriminate; vm_compute; reflexivity.
  - refine (proj2 (proj2
      (dispatch_from_reducer Sample.REPLACE Sample.ObjectPrototype Sample.Get
         ReentrantSample.body 1 INC NOP (Native 31) _
         (ReentrantSample.store_of (VFun (Native 31)))
         (VStr "INC") (VStr "NOP") _ _ _ _ _ _ _ _ _)) (VNum 7) _);
      try discriminate; vm_compute; reflexivity.
Defined.

Lemma dispatch_updates_state_witness :
  exists s1,
    dispatch 5 INC (created (VFun (Native 0))) = (Ok INC, s1) /\
    getState s1 = (Ok (VNum 1), s1).
Proof.
  destruct (dispatch_updates_state Sample.REPLACE Sample.ObjectPrototype
              Sample.Get body 4 INC (created (VFun (Native 0))) (VStr "INC")
              (VNum 1)
              (with_store (set_isDispatching true) (created (VFun (Native 0)))))
    as (_ & Hget & _ & Hnone).
  - vm_compute. reflexivity.
  - vm_compute. reflexivity.
  - vm_compute. reflexivity.
  - discriminate.
  - vm_compute. reflexivity.
  - eexists. split; [apply Hnone; vm_compute; reflexivity | exact Hget].
Defined.

Lemma replaceReducer_effect_witness :
  Store.replaceReducer Sample.REPLACE Sample.ObjectPrototype Sample.Get body
    5 (VNum 3) fussy_store
  = (Throw (Error "Expected the nextReducer to be a function."), fussy_store) /\
  (exists s1,
     Store.replaceReducer Sample.REPLACE Sample.ObjectPrototype Sample.Get body
       5 (VFun (Native 0)) fussy_store_dispatching
     = (Throw dispatch_while_dispatching, s1) /\
     currentReducer (the_store s1) = VFun (Native 0)).
Proof.
  split.
  - apply (proj1 (replaceReducer_effect Sample.REPLACE Sample.ObjectPrototype
                    Sample.Get body 5 (VNum 3) fussy_store (Object None []))).
    discriminate.
  - eexists. split.
    + refine (proj1 (proj2 (replaceReducer_effect Sample.REPLACE
                              Sample.ObjectPrototype Sample.Get body 3
                              (VFun (Native 0)) fussy_store_dispatching
                              (Object None []))
                       _ _ _ _) _); try reflexivity.
      intros h l o k v Hl Hk. simpl. now rewrite Hl, Hk.
    + reflexivity.
Defined.

Lemma createStore_arguments_witness :
  createStore 5 (VFun (Native 0)) (VFun (Native 40)) VUndefined Sample.world0
  = createStore 5 (VFun (Native 0)) VUndefined (VFun (Native 40)) Sample.world0 /\
  createStore 5 (VNum 3) VUndefined (VNum 3) Sample.world0
  = (Throw (Error "Expected the enhancer to be a function."), Sample.world0) /\
  (exists w',
     createStore 5 (VNum 3) (VNum 5) (VFun (Native 40)) Sample.world0
     = (Ok (Enhanced (VStr "enhanced")), w') /\
     console w' = ["enhancer"]) /\
  createStore 5 (VNum 3) VUndefined VUndefined Sample.world0
  = (Throw (Error "Expected the reducer to be a function."), Sample.world0).
Proof.
  split; [|split; [|split]].
  - apply (proj1 (createStore_arguments Sample.INIT Sample.REPLACE
                    Sample.ObjectPrototype Sample.Get body enhance 5
                    (VFun (Native 0)) (VFun (Native 40)) VUndefined
                    Sample.world0));
      reflexivity.
  - apply (proj1 (proj2 (createStore_arguments Sample.INIT Sample.REPLACE
                    Sample.ObjectPrototype Sample.Get body enhance 5 (VNum 3)
                    VUndefined (VNum 3) Sample.world0)));
      discriminate.
  - eexists. split.
    + apply (proj1 (proj2 (proj2 (createStore_arguments Sample.INIT
                      Sample.REPLACE Sample.ObjectPrototype Sample.Get body
                      enhance 5 (VNum 3) (VNum 5) (VFun (Native 40))
                      Sample.world0)))).
      reflexivity.
    + reflexivity.
  - apply (proj2 (proj2 (proj2 (createStore_arguments Sample.INIT Sample.REPLACE
                    Sample.ObjectPrototype Sample.Get body enhance 5 (VNum 3)
                    VUndefined VUndefined Sample.world0))));
      [reflexivity | discriminate | discriminate].
Defined.

Lemma createStore_preloaded_witness :
  exists w,
    createStore 5 (VFun (Native 0)) (VNum 5) VUndefined Sample.world0
    = (Ok (Created (Store_ (VFun (Native 0)) (VNum 5) 0 0 false [[]] [])), w).
Proof.
  eexists.
  refine (proj1 (createStore_preloaded Sample.INIT Sample.REPLACE
                   Sample.ObjectPrototype Sample.Get body enhance 3
                   (VFun (Native 0))
                   (VNum 5) Sample.world0 (Object None []) (Ok (VNum 5))
                   (Sys (set_heap
                           (insert (fresh (dom (heap Sample.world0)))
                              (Object (Some Sample.ObjectPrototype)
                                      [("type", VStr Sample.INIT)]))
                           Sample.world0)
                        (Store_ (VFun (Native 0)) (VNum 5) 0 0 true [[]] []))
                   _ _ _ _ _ _) (VNum 5) _).
  - reflexivity.
  - discriminate.
  - reflexivity.
  - reflexivity.
  - intros h l o k v Hl Hk. simpl. now rewrite Hl, Hk.
  - vm_compute. reflexivity.
  - reflexivity.
Defined.

Lemma currentListeners_never_written_witness :
  contents (the_store (after (subscribe C) snapshot_scenario))
    (currentListeners (the_store snapshot_scenario)) = [] /\
  pending (after (subscribe C) snapshot_scenario) = [A; B; C].
Proof.
  split; [|vm_compute; reflexivity].
  refine (proj1 (proj1 (currentListeners_never_written Sample.REPLACE
                          Sample.ObjectPrototype Sample.Get body 5
                          snapshot_scenario _) C)).
  split; vm_compute; lia.
Defined.

Lemma dispatch_listener_throws_witness :
  pending tripped_store = [B; VFun (Native 13); C] /\
  exists s2,
    dispatch 5 INC tripped_store = (Throw (Error "listener"), s2) /\
    console (the_world s2) = ["B"] /\
    getState s2 = (Ok (VNum 1), s2).
Proof.
  split; [vm_compute; reflexivity|].
  pose (s1 := Sys (the_world tripped_store)
                  (set_currentListeners (nextListeners (the_store tripped_store))
                     (set_currentState (VNum 1) (the_store tripped_store)))).
  destruct (dispatch_listener_throws Sample.REPLACE Sample.ObjectPrototype
              Sample.Get body 3 INC tripped_store (VStr "INC") (VNum 1)
              (with_store (set_isDispatching true) tripped_store)
              [B] (VFun (Native 13)) [C]
              (snd (run_with Sample.REPLACE Sample.ObjectPrototype body
                      (dispatch 4) B [] s1))
              (Error "listener")
              (snd (dispatch 5 INC tripped_store)))
    as (Hrun & _ & _).
  - split; vm_compute; lia.
  - vm_compute. reflexivity.
  - vm_compute. reflexivity.
  - vm_compute. reflexivity.
  - discriminate.
  - vm_compute. reflexivity.
  - vm_compute. reflexivity.
  - simpl. lia.
  - vm_compute. reflexivity.
  - vm_compute. reflexivity.
  - eexists. split; [exact Hrun|]. split; vm_compute; reflexivity.
Defined.

End StoreWitnesses.

(** ** bindActionCreators *)

Module BindFacts.
Import JS Bind MonadFacts PropsFacts.
Local Open Scope js_scope.

Section BindFacts.

Variable ObjectPrototype : loc.
Variable native : nat -> value -> list value -> M value.

Local Abbreviation apply := (apply native).
Local Abbreviation bindActionCreators := (bindActionCreators ObjectPrototype).
Local Abbreviation bind_each := (bind_each ObjectPrototype).
Local Abbreviation wraps := (wraps native).

Lemma wraps_intro w c actionCreator dispatch :
  closures w !! c = Some (actionCreator, dispatch) ->
  wraps w c actionCreator dispatch.
Proof.
  intros Hc. split; [exact Hc|]. intros fuel this args w1 Hc1.
  simpl. now rewrite Hc1.
Qed.

Lemma bindActionCreator_spec actionCreator dispatch w :
  exists c w',
    bindActionCreator actionCreator dispatch w = (Ok (VFun (Bound c)), w') /\
    heap w' = heap w /\
    closures w !! c = None /\
    closures w' = <[c := (actionCreator, dispatch)]> (closures w).
Proof.
  unfold bindActionCreator. eexists _, _. split; [reflexivity|].
  split; [reflexivity|]. split; [|reflexivity].
  apply not_elem_of_dom, is_fresh.
Qed.

(** The loop: every key of [ks] whose entry is callable gets a closure
    over that entry, appended to the record under construction, as long
    as no such key is [__proto__]. *)
Lemma bind_each_spec l o dispatch b (p : option parent) ks :
  l <> b ->
  p = None \/ p = Some ObjectPrototype ->
  forall w ps,
    heap w !! l = Some o ->
    heap w !! b = Some (Object p ps) ->
    NoDup (keys ps ++ ks) ->
    (forall k, k ∈ ks -> callable_at o k = true -> k <> proto_key) ->
    exists w' ps',
      bind_each l dispatch ks b w = (Ok tt, w') /\
      heap w' = <[b := Object p ps']> (heap w) /\
      (forall c v, closures w !! c = Some v -> closures w' !! c = Some v) /\
      keys ps' = (keys ps ++ List.filter (callable_at o) ks)%list /\
      (forall k, k ∉ ks -> assoc k ps' = assoc k ps) /\
      (forall k, k ∈ ks -> callable_at o k = true ->
         exists c, assoc k ps' = Some (VFun (Bound c)) /\
                   closures w' !! c = Some (entry o k, dispatch)).
Proof.
  intros Hlb Hp. induction ks as [|key rest IH]; intros w ps Hl Hb Hnd Hord.
  - exists w, ps. simpl. split; [reflexivity|]. split.
    { now rewrite insert_id. }
    split; [auto|]. split; [now rewrite app_nil_r|]. split; [auto|].
    intros k Hk. inversion Hk.
  - simpl. unfold bind at 1. unfold own_get. rewrite Hl. fold (entry o key).
    assert (key ∉ keys ps) as Hfresh.
    { apply NoDup_app in Hnd as (_ & Hdisj & _). intros Hin.
      apply (Hdisj key Hin). left. }
    assert (key ∉ rest) as Hrest.
    { apply NoDup_app in Hnd as (_ & _ & Hnd). now apply NoDup_cons in Hnd. }
    unfold callable_at at 1.
    destruct (bool_decide_reflect (typeof (entry o key) = TFunction)) as [Hfun|Hfun].
    + destruct (bindActionCreator_spec (entry o key) dispatch w)
        as (c & w1 & Hbind & Hheap1 & Hcfresh & Hcl1).
      unfold bind at 1. unfold bind at 1. rewrite Hbind.
      rewrite (set_property_ordinary _ _ _ _ _ p ps);
        [| apply Hord; [left|]; unfold callable_at;
           now rewrite bool_decide_eq_true_2 by exact Hfun
         | now rewrite Hheap1
         | exact Hp].
      unfold put. rewrite Hheap1, Hb. simpl.
      set (w2 := set_heap _ w1).
      destruct (IH w2 (assign key (VFun (Bound c)) ps)) as (w' & ps' & Hrun & Hheap & Hmono & Hkeys & Hother & Hbound).
      * unfold w2. simpl. rewrite Hheap1.
        rewrite lookup_insert_ne by congruence. exact Hl.
      * unfold w2. simpl. apply lookup_insert_eq.
      * rewrite keys_assign_new by exact Hfresh.
        rewrite <- app_assoc. exact Hnd.
      * intros k Hk. apply Hord. now right.
      * exists w', ps'. split; [exact Hrun|]. split.
        { rewrite Hheap. unfold w2. simpl. rewrite Hheap1.
          now rewrite insert_insert_eq. }
        split.
        { intros c0 v Hc0. apply Hmono. unfold w2. simpl. rewrite Hcl1.
          rewrite lookup_insert_ne; [exact Hc0|]. congruence. }
        split.
        { rewrite Hkeys, keys_assign_new by exact Hfresh.
          simpl. unfold callable_at.
          rewrite ?bool_decide_eq_true_2 by exact Hfun.
          now rewrite <- app_assoc. }
        split.
        { intros k Hk. rewrite Hother by (intros H; apply Hk; now right).
          apply assoc_assign_ne. intros ->. apply Hk. left. }
        intros k Hk Hcall. apply elem_of_cons in Hk as [->|Hk].
        { exists c. split.
          - rewrite Hother by exact Hrest. apply assoc_assign_eq.
          - apply Hmono. unfold w2. simpl. rewrite Hcl1.
            apply lookup_insert_eq. }
        now apply Hbound.
    + unfold bind at 1. unfold ret at 1.
      destruct (IH w ps Hl Hb) as (w' & ps' & Hrun & Hheap & Hmono & Hkeys & Hother & Hbound).
      * apply NoDup_app in Hnd as (Hnd1 & Hdisj & Hnd2).
        apply NoDup_app. split; [exact Hnd1|]. split.
        { intros x Hx Hx'. apply (Hdisj x Hx). now right. }
        now apply NoDup_cons in Hnd2.
      * intros k Hk. apply Hord. now right.
      * exists w', ps'. split; [exact Hrun|]. split; [exact Hheap|].
        split; [exact Hmono|]. split.
        { rewrite Hkeys. simpl. unfold callable_at.
          now rewrite ?bool_decide_eq_false_2 by exact Hfun. }
        split.
        { intros k Hk. apply Hother. intros H. apply Hk. now right. }
        intros k Hk Hcall. apply elem_of_cons in Hk as [->|Hk].
        { exfalso. unfold callable_at in Hcall.
          now rewrite bool_decide_eq_false_2 in Hcall by exact Hfun. }
        now apply Hbound.
Qed.


(** *** What [bindActionCreators] writes to *)

Lemma apart_from_refl b w : apart_from b w w.
Proof. repeat split; auto. Qed.

Lemma apart_from_trans b w1 w2 w3 :
  apart_from b w1 w2 -> apart_from b w2 w3 -> apart_from b w1 w3.
Proof.
  intros (H1 & H2 & H3 & H4) (H1' & H2' & H3' & H4').
  split; [|split; [|split]].
  - intros l Hl. now rewrite H1', H1.
  - intros c v Hc. apply H2', H2, Hc.
  - congruence.
  - congruence.
Qed.

Lemma apart_from_bindActionCreator b actionCreator dispatch w :
  apart_from b w (snd (bindActionCreator actionCreator dispatch w)).
Proof.
  unfold bindActionCreator. simpl. repeat split; simpl; auto.
  intros c v Hc. rewrite lookup_insert_ne; [exact Hc|].
  intros <-. pose proof (is_fresh (dom (closures w))) as Hf.
  apply Hf, elem_of_dom. now exists v.
Qed.

Lemma apart_from_set_property b k v w :
  apart_from b w (snd (set_property ObjectPrototype b k v w)).
Proof.
  destruct (set_property_frame ObjectPrototype b k v w) as (H1 & H2 & H3 & H4).
  repeat split; auto. intros c v0 Hc. now rewrite H2.
Qed.

Lemma apart_from_bind_each l dispatch b ks :
  forall w, apart_from b w (snd (bind_each l dispatch ks b w)).
Proof.
  induction ks as [|k ks IH]; intros w; simpl; [apply apart_from_refl|].
  unfold bind at 1. unfold own_get at 1.
  destruct (heap w !! l) as [o|]; simpl; [|apply apart_from_refl].
  unfold bind at 1.
  destruct (bool_decide _).
  - unfold bind at 1.
    pose proof (apart_from_bindActionCreator b
                  (default VUndefined (assoc k (props o))) dispatch w) as H1.
    destruct (bindActionCreator _ dispatch w) as [[f| |] w1]; simpl in *;
      try exact H1.
    pose proof (apart_from_set_property b k f w1) as H2.
    destruct (set_property ObjectPrototype b k f w1) as [[[]| |] w2]; simpl in *;
      try (eapply apart_from_trans; eassumption).
    eapply apart_from_trans; [eassumption|].
    eapply apart_from_trans; [eassumption|]. apply IH.
  - simpl. apply IH.
Qed.

Lemma bindActionCreators_frame actionCreators dispatch w r w' :
  bindActionCreators actionCreators dispatch w = (r, w') ->
  (forall l o, heap w !! l = Some o -> heap w' !! l = Some o) /\
  (forall c v, closures w !! c = Some v -> closures w' !! c = Some v) /\
  draws w' = draws w /\
  console w' = console w.
Proof.
  unfold bindActionCreators, Bind.bindActionCreators.
  destruct (bool_decide (typeof actionCreators = TFunction)).
  { intros H.
    destruct (apart_from_bindActionCreator 1%positive actionCreators dispatch w)
      as (_ & H2 & H3 & H4).
    rewrite H in H2, H3, H4. simpl in *.
    assert (heap w' = heap w) as ->
      by (unfold bindActionCreator in H; now injection H as _ <-).
    repeat split; auto. }
  destruct (_ || _); [intros [= _ <-]; repeat split; auto|].
  destruct actionCreators as [| | | | | |l|];
    try (intros [= _ <-]; repeat split; auto; fail).
  unfold bind at 1.
  destruct (heap w !! l) as [o|] eqn:Hl;
    [|intros [= _ <-]; repeat split; auto].
  unfold bind at 1. unfold alloc at 1.
  set (b := fresh (dom (heap w))).
  set (w1 := set_heap _ w).
  pose proof (apart_from_bind_each l dispatch b (keys (props o)) w1)
    as (H1 & H2 & H3 & H4).
  unfold bind.
  destruct (bind_each l dispatch (keys (props o)) b w1) as [[[]| |] w2];
    simpl in *; intros [= _ <-]; (split; [|split; [|split]]); auto.
  all: intros x ox Hx;
    assert (x <> b) as Hne
      by (intros ->; apply (is_fresh (dom (heap w))), elem_of_dom;
          now exists ox);
    rewrite (H1 x Hne);
    now rewrite lookup_insert_ne by congruence.
Qed.

(** X17: [bindActionCreators] modifies nothing that exists: whatever its
    arguments and its outcome, every object of the heap, the object of
    action creators it is passed included, and every closure made by an
    earlier call is the same afterwards, and it neither draws a probe type
    nor writes to the console.  All it does is allocate. *)
Theorem bindActionCreators_writes_nothing actionCreators dispatch w :
  let w' := snd (bindActionCreators actionCreators dispatch w) in
  (forall l o, heap w !! l = Some o -> heap w' !! l = Some o) /\
  (forall c v, closures w !! c = Some v -> closures w' !! c = Some v) /\
  draws w' = draws w /\
  console w' = console w.
Proof.
  destruct (bindActionCreators actionCreators dispatch w) as [r w'] eqn:E.
  simpl. eapply bindActionCreators_frame, E.
Qed.

End BindFacts.



End BindFacts.
